(** * The acceptor / worker networking core of mangos-classic

    A shallow embedding of [src/shared/Network]: [Socket.hpp], [Socket.cpp],
    [NetworkThread.hpp] and [Listener.hpp].

    The C++ code runs on one process memory.  It is embedded as a state and
    fault monad over a [World]: the heap of [Socket] objects, the vector of
    workers owned by the [Listener], the thread-local [errno], and the log of
    the calls made to the outside (libevent, [std::thread], [std::mutex], the
    logger).  What those callees do inside is not part of this repository: a
    call is recorded with the arguments the code passes, and the byte buffers
    of a [bufferevent] are kept next to its handle.

    The run is sequential: one method call at a time.  Mutex acquisitions are
    recorded in the log like the other calls.  The log is kept newest first;
    [calls_since] reads the part added by a run in the order of the calls. *)

From stdpp Require Import base option list gmap strings.
From Stdlib Require Import ZArith Lia DecimalString.
From Stdlib.Strings Require Import Byte.

Local Open Scope Z_scope.

(** ** Machine integers *)

(** [int] to [size_t] (64 bits), as the usual arithmetic conversions do when
    an [int] meets a [size_t]. *)
Definition to_size_t (z : Z) : Z := z mod 2 ^ 64.

(** [size_t] to [int] (32 bits, two's complement). *)
Definition to_int (z : Z) : Z := (z + 2 ^ 31) mod 2 ^ 32 - 2 ^ 31.

(** [uint16_t] truncation. *)
Definition to_uint16 (z : Z) : Z := z mod 2 ^ 16.

Definition INT_MAX : Z := 2 ^ 31 - 1.

Arguments to_size_t : simpl never.
Arguments to_int : simpl never.

(** ** Addresses *)

(** Byte order of the host; [htons] depends on it. *)
Inductive byte_order := LittleEndian | BigEndian.

Definition bswap16 (x : Z) : Z :=
  Z.lor (Z.shiftl (Z.land x 255) 8) (Z.land (Z.shiftr x 8) 255).

Definition htons (host : byte_order) (x : Z) : Z :=
  match host with
  | BigEndian => to_uint16 x
  | LittleEndian => bswap16 (to_uint16 x)
  end.

(** [struct in_addr]: the four octets in memory order, which is network
    order. *)
Record in_addr := { oct1 : Z; oct2 : Z; oct3 : Z; oct4 : Z }.

(** [struct sockaddr_in].  [sin_port] is the value of the 16-bit field as the
    host reads it; the kernel stores the port there in network order, that is
    [htons host port]. *)
Record sockaddr_in := {
  sin_family : Z;
  sin_port : Z;
  sin_addr : in_addr;
}.

Definition AF_INET : Z := 2.

(** [std::to_string] of a non-negative integer: its decimal digits. *)
Definition to_string (z : Z) : string :=
  NilZero.string_of_uint (N.to_uint (Z.to_N z)).

(** [inet_ntop(AF_INET, ...)]: dotted decimal of the four octets. *)
Definition inet_ntop (a : in_addr) : string :=
  to_string (oct1 a) +:+ "." +:+ to_string (oct2 a) +:+ "." +:+
  to_string (oct3 a) +:+ "." +:+ to_string (oct4 a).

(** The sockaddr that [accept] hands over for a peer [a.b.c.d], port [p]. *)
Definition peer_sockaddr (host : byte_order) (a b c d p : Z) : sockaddr_in :=
  {| sin_family := AF_INET;
     sin_port := htons host p;
     sin_addr := {| oct1 := a; oct2 := b; oct3 := c; oct4 := d |} |}.

(** ** Objects *)

(** [Socket *]: the address of a Socket object. *)
Abbreviation ptr := positive (only parsing).
(** [struct bufferevent *]. *)
Abbreviation handle := positive (only parsing).
(** [NetworkThread *]: a worker is named by its index in
    [Listener::m_workerThreads]. *)
Abbreviation worker_ptr := nat (only parsing).

(** A [bufferevent] as the Socket sees it: its handle, the wrapped fd, and the
    inbound and outbound [evbuffer]s. *)
Record bufferevent := {
  bev_ptr : handle;
  bev_fd : Z;
  input : list byte;
  output : list byte;
}.

(** The values of [m_closeHandler] that occur: the lambda of
    [NetworkThread::CreateSocket], which captures [this] and calls
    [this->RemoveSocket(socket)]. *)
Inductive closeHandler := RemoveSocketOf (w : worker_ptr).

(** [class Socket].  [m_bev] is [None] for [nullptr]; [m_closeHandler] is
    [None] for an empty [std::function]. *)
Record Socket := {
  m_bev : option bufferevent;
  m_closeHandler : option closeHandler;
  m_address : string;
  m_remoteEndpoint : string;
}.

(** [class NetworkThread]: the two lists of owned Sockets (by address) and
    the shutdown flag. *)
Record NetworkThread := {
  m_sockets : list ptr;
  m_closingSockets : list ptr;
  m_pendingShutdown : bool;
}.

Inductive mutex :=
| m_readLock (s : ptr)
| m_writeLock (s : ptr)
| m_socketLock (w : worker_ptr)
| m_closingSocketLock (w : worker_ptr).

Inductive thread :=
| m_socketCleanupThread (w : worker_ptr)
| m_serviceThread (w : worker_ptr)
| m_acceptorThread.

(** Calls to the outside, with the arguments the code passes.  A
    [struct bufferevent *] argument is [None] when the code passes
    [nullptr].  [sLog.outError] is recorded as [outError] when it is given a
    text alone, and as [outError_args] with the format and the integer
    arguments that follow it. *)
Inductive call :=
| lock (m : mutex)
| unlock (m : mutex)
| bufferevent_socket_new (fd : Z) (ret : option handle)
| bufferevent_setcb (bev : option handle) (readcb eventcb : bool)
| bufferevent_enable (bev : option handle)
| bufferevent_disable (bev : option handle)
| bufferevent_lock (bev : option handle)
| bufferevent_unlock (bev : option handle)
| bufferevent_free (bev : option handle)
| invoke_closeHandler (h : closeHandler) (socket : ptr)
| delete_Socket (socket : ptr)
| outError (msg : string)
| outError_args (format : string) (args : list Z)
| event_base_new (ret : bool)
| event_base_free
| evconnlistener_new_bind (sin : sockaddr_in) (ret : bool)
| evconnlistener_set_error_cb
| thread_start (t : thread)
| thread_join (t : thread)
| event_base_loopbreak.

(** ** The world *)

Record World := {
  heap : gmap positive Socket;
  m_workerThreads : list NetworkThread;
  errno : Z;
  calls : list call;
  (** what the next calls of [event_base_new] return ([true]: a base);
      when the list is used up, a base *)
  event_base_supply : list bool;
  (** whether [evconnlistener_new_bind] can bind *)
  bind_supply : bool;
}.

Definition set_heap (f : gmap positive Socket -> gmap positive Socket) (st : World) : World :=
  {| heap := f (heap st); m_workerThreads := m_workerThreads st;
     errno := errno st; calls := calls st;
     event_base_supply := event_base_supply st; bind_supply := bind_supply st |}.

Definition set_workers (f : list NetworkThread -> list NetworkThread) (st : World) : World :=
  {| heap := heap st; m_workerThreads := f (m_workerThreads st);
     errno := errno st; calls := calls st;
     event_base_supply := event_base_supply st; bind_supply := bind_supply st |}.

Definition set_calls (f : list call -> list call) (st : World) : World :=
  {| heap := heap st; m_workerThreads := m_workerThreads st;
     errno := errno st; calls := f (calls st);
     event_base_supply := event_base_supply st; bind_supply := bind_supply st |}.

(** The calls made between the world [st] and the later world [st'], oldest
    first. *)
Definition calls_since (st st' : World) : list call :=
  rev (take (length (calls st') - length (calls st)) (calls st')).

Definition set_supply (f : list bool -> list bool) (st : World) : World :=
  {| heap := heap st; m_workerThreads := m_workerThreads st;
     errno := errno st; calls := calls st;
     event_base_supply := f (event_base_supply st); bind_supply := bind_supply st |}.

(** ** The monad *)

Inductive fault :=
| AssertionFailed            (** [assert] failed: abort *)
| Undefined                  (** dangling pointer or index out of range *)
| OutOfFuel                  (** a loop ran longer than the fuel given *)
| Thrown (what : string)     (** a C++ exception left the function *)
| Terminated.                (** [std::terminate] was called: abort *)

(** The outcome of a run: a value and the new world, or a fault and the world
    at that point.  What happens after a fault (the abort, the unwinding of
    an exception) is not part of the run. *)
Inductive res (A : Type) :=
| Ok (a : A) (st : World)
| Fault (f : fault) (st : World).
Arguments Ok {A} a st.
Arguments Fault {A} f st.

Definition M (A : Type) : Type := World -> res A.

Definition ret {A} (a : A) : M A := fun st => Ok a st.

Definition bind {A B} (m : M A) (f : A -> M B) : M B :=
  fun st => match m st with
            | Ok a st' => f a st'
            | Fault e st' => Fault e st'
            end.

Declare Scope M_scope.
Notation "x ← y ; z" := (bind y (fun x => z))
  (at level 20, y at level 100, z at level 200, only parsing) : M_scope.
Notation "y ;; z" := (bind y (fun _ => z))
  (at level 100, z at level 200, only parsing, right associativity) : M_scope.
Local Open Scope M_scope.

Definition raise {A} (e : fault) : M A := fun st => Fault e st.

Definition assert (b : bool) : M unit :=
  if b then ret tt else raise AssertionFailed.

Definition modify (f : World -> World) : M unit := fun st => Ok tt (f st).

Definition gets {A} (f : World -> A) : M A := fun st => Ok (f st) st.

Definition emit (c : call) : M unit := modify (set_calls (cons c)).

(** [std::lock_guard<std::mutex> g(m)] over the rest of the scope. *)
Definition lock_guard {A} (m : mutex) (body : M A) : M A :=
  emit (lock m);; r ← body; emit (unlock m);; ret r.

(** [*this] of a Socket method. *)
Definition deref (this : ptr) : M Socket :=
  fun st => match heap st !! this with
            | Some s => Ok s st
            | None => Fault Undefined st
            end.

Definition with_bev (v : option bufferevent) (s : Socket) : Socket :=
  {| m_bev := v; m_closeHandler := m_closeHandler s;
     m_address := m_address s; m_remoteEndpoint := m_remoteEndpoint s |}.

(** [this->m_bev = v]. *)
Definition store_m_bev (this : ptr) (v : option bufferevent) : M unit :=
  s ← deref this;
  modify (set_heap (insert this (with_bev v s))).

(** The pointer held in an [m_bev] field. *)
Definition bevp (v : option bufferevent) : option handle := bev_ptr <$> v.

(** [*this] of a NetworkThread method. *)
Definition worker (w : worker_ptr) : M NetworkThread :=
  fun st => match m_workerThreads st !! w with
            | Some nt => Ok nt st
            | None => Fault Undefined st
            end.

Definition store_worker (w : worker_ptr) (nt : NetworkThread) : M unit :=
  modify (set_workers (fun l => <[w := nt]> l)).

(** ** NetworkThread::RemoveSocket *)

(** The [for] loop: the list without its first entry equal to [socket], if
    there is one. *)
Fixpoint erase_first (socket : ptr) (l : list ptr) : option (list ptr) :=
  match l with
  | [] => None
  | i :: l' =>
      if decide (i = socket) then Some l'
      else cons i <$> erase_first socket l'
  end.

Definition RemoveSocket (w : worker_ptr) (socket : ptr) : M unit :=
  lock_guard (m_socketLock w) (
  lock_guard (m_closingSocketLock w) (
    nt ← worker w;
    match erase_first socket (m_sockets nt) with
    | Some rest =>
        store_worker w {| m_sockets := rest;
                          m_closingSockets := socket :: m_closingSockets nt;
                          m_pendingShutdown := m_pendingShutdown nt |}
    | None => ret tt
    end)).

(** [m_closeHandler(this)]. *)
Definition invoke (h : closeHandler) (socket : ptr) : M unit :=
  emit (invoke_closeHandler h socket);;
  match h with
  | RemoveSocketOf w => RemoveSocket w socket
  end.

(** ** Socket *)

(** [Socket::Socket].  [bev] is what [bufferevent_socket_new] returns and
    [this] the address [new] picked for the object. *)
Definition Socket_ctor (this : ptr) (fd : Z) (address : sockaddr_in)
    (closeHandler : option closeHandler) (bev : option handle) : M unit :=
  let saddr := inet_ntop (sin_addr address) in
  let m_bev0 :=
    (fun b => {| bev_ptr := b; bev_fd := fd; input := []; output := [] |}) <$> bev in
  modify (set_heap (insert this
     {| m_bev := m_bev0;
        m_closeHandler := closeHandler;
        m_address := saddr;
        m_remoteEndpoint := saddr +:+ ":" +:+ to_string (sin_port address) |}));;
  emit (bufferevent_socket_new fd bev);;
  emit (bufferevent_setcb bev true true);;
  emit (bufferevent_enable bev).

Definition GetRemoteEndpoint (this : ptr) : M string :=
  s ← deref this; ret (m_remoteEndpoint s).

Definition GetRemoteAddress (this : ptr) : M string :=
  s ← deref this; ret (m_address s).

Definition Close (this : ptr) : M unit :=
  s ← deref this;
  match m_bev s with
  | None => ret tt
  | Some _ =>
      lock_guard (m_readLock this) (
      lock_guard (m_writeLock this) (
        s ← deref this;
        match m_bev s with
        | None => ret tt
        | Some _ =>
            emit (bufferevent_lock (bevp (m_bev s)));;
            emit (bufferevent_disable (bevp (m_bev s)));;
            emit (bufferevent_setcb (bevp (m_bev s)) false false);;
            let l_bev := m_bev s in
            store_m_bev this None;;
            s ← deref this;
            emit (bufferevent_unlock (bevp (m_bev s)));;
            emit (bufferevent_free (bevp l_bev));;
            match m_closeHandler s with
            | Some h => invoke h this
            | None => ret tt
            end
        end))
  end.

Definition IsClosed (this : ptr) : M bool :=
  s ← deref this;
  match m_bev s with
  | None => ret true
  | Some _ =>
      lock_guard (m_readLock this) (
        s ← deref this;
        ret (match m_bev s with None => true | Some _ => false end))
  end.

(** [bufferevent_read]: removes up to [size] bytes from the inbound buffer. *)
Definition bufferevent_read (bev : bufferevent) (size : Z) : list byte * bufferevent :=
  (take (Z.to_nat size) (input bev),
   {| bev_ptr := bev_ptr bev; bev_fd := bev_fd bev;
      input := drop (Z.to_nat size) (input bev); output := output bev |}).

(** [evbuffer_drain] on the inbound buffer. *)
Definition evbuffer_drain (bev : bufferevent) (len : Z) : bufferevent :=
  {| bev_ptr := bev_ptr bev; bev_fd := bev_fd bev;
     input := drop (Z.to_nat len) (input bev); output := output bev |}.

(** [bufferevent_write]: appends the first [size] bytes of [data] to the
    outbound buffer. *)
Definition bufferevent_write (bev : bufferevent) (data : list byte) (size : Z) : bufferevent :=
  {| bev_ptr := bev_ptr bev; bev_fd := bev_fd bev;
     input := input bev; output := output bev ++ take (Z.to_nat size) data |}.

Definition evbuffer_get_length (bev : bufferevent) : Z :=
  Z.of_nat (length (input bev)).

(** [Socket::Read].  The result is the returned flag and the bytes copied to
    [buffer] (none when nothing is copied). *)
Definition Read (this : ptr) (len : Z) : M (bool * list byte) :=
  s ← deref this;
  match m_bev s with
  | None => ret (false, [])
  | Some _ =>
      lock_guard (m_readLock this) (
        s ← deref this;
        match m_bev s with
        | None => ret (false, [])
        | Some bev =>
            if evbuffer_get_length bev <? to_size_t len then ret (false, [])
            else
              let '(data, bev') := bufferevent_read bev (to_size_t len) in
              store_m_bev this (Some bev');;
              assert (to_int (Z.of_nat (length data)) =? len);;
              ret (true, data)
        end)
  end.

(** [Socket::Write]; [buffer] stands for the bytes at [buffer], at least
    [length] of them. *)
Definition Write (this : ptr) (buffer : list byte) (len : Z) : M unit :=
  s ← deref this;
  match m_bev s with
  | None => ret tt
  | Some _ =>
      lock_guard (m_writeLock this) (
        s ← deref this;
        match m_bev s with
        | None => ret tt
        | Some bev =>
            store_m_bev this (Some (bufferevent_write bev buffer (to_size_t len)))
        end)
  end.

Definition ReadLengthRemaining (this : ptr) : M Z :=
  s ← deref this;
  match m_bev s with
  | None => ret 0
  | Some _ =>
      lock_guard (m_readLock this) (
        s ← deref this;
        match m_bev s with
        | None => ret 0
        | Some bev => ret (to_int (evbuffer_get_length bev))
        end)
  end.

Definition ReadSkip (this : ptr) (len : Z) : M unit :=
  s ← deref this;
  match m_bev s with
  | None => ret tt
  | Some _ =>
      lock_guard (m_readLock this) (
        s ← deref this;
        match m_bev s with
        | None => ret tt
        | Some bev => store_m_bev this (Some (evbuffer_drain bev (to_size_t len)))
        end)
  end.

(** [Socket::InPeek]: the byte the returned pointer points to; [None] for
    [nullptr]. *)
Definition InPeek (this : ptr) : M (option byte) :=
  s ← deref this;
  match m_bev s with
  | None => ret None
  | Some _ =>
      lock_guard (m_readLock this) (
        s ← deref this;
        match m_bev s with
        | None => ret None
        | Some bev =>
            if evbuffer_get_length bev <? 1 then ret None
            else ret (head (input bev))
        end)
  end.

(** [BEV_EVENT_EOF] and [BEV_EVENT_ERROR] of [event2/bufferevent.h]. *)
Definition BEV_EVENT_EOF : Z := 16.
Definition BEV_EVENT_ERROR : Z := 32.

(** The static [Socket::EventCallback(bev, events, ctx)]. *)
Definition EventCallback (bev : handle) (events : Z) (ctx : ptr) : M unit :=
  emit (bufferevent_lock (Some bev));;
  sock ← deref ctx;
  assert (bool_decide (bevp (m_bev sock) = Some bev));;
  emit (bufferevent_unlock (Some bev));;
  if negb (Z.land events (Z.lor BEV_EVENT_EOF BEV_EVENT_ERROR) =? 0)
  then Close ctx
  else emit (outError_args "Socket::EventCallback() unknown event %04x" [events]).

Section ProtocolHandler.

(** The pure virtual [ProcessIncomingData()] of the concrete subclass, and
    the value of [EBADMSG] in [errno.h]. *)
Variable ProcessIncomingData : ptr -> M bool.
Variable EBADMSG : Z.

(** The member [Socket::ReadCallback()]; [fuel] bounds the number of turns
    of the [while] loop. *)
Fixpoint ReadCallback (fuel : nat) (this : ptr) : M unit :=
  match fuel with
  | O => raise OutOfFuel
  | S fuel' =>
      n ← ReadLengthRemaining this;
      if 0 <? n then
        ok ← ProcessIncomingData this;
        if ok then ReadCallback fuel' this
        else
          e ← gets errno;
          if e =? EBADMSG
          then emit (outError "Socket::ReadCallback incomplete read!!!")
          else ret tt
      else ret tt
  end.

(** The static [Socket::ReadCallback(bev, ctx)]. *)
Definition ReadCallback_bev (fuel : nat) (bev : handle) (ctx : ptr) : M unit :=
  emit (bufferevent_lock (Some bev));;
  sock ← deref ctx;
  assert (bool_decide (bevp (m_bev sock) = Some bev));;
  emit (bufferevent_unlock (Some bev));;
  ReadCallback fuel ctx.

End ProtocolHandler.

(** [Socket::~Socket], followed by the release of the object. *)
Definition Socket_dtor (this : ptr) : M unit :=
  c ← IsClosed this;
  assert c;;
  emit (delete_Socket this);;
  modify (set_heap (delete this)).

(** ** NetworkThread *)

Definition Size (nt : NetworkThread) : nat := length (m_sockets nt).

(** [NetworkThread::CreateSocket]; [p] is the address [new] returns and [bev]
    the result of [bufferevent_socket_new]. *)
Definition CreateSocket (w : worker_ptr) (fd : Z) (address : sockaddr_in)
    (p : ptr) (bev : option handle) : M unit :=
  lock_guard (m_socketLock w) (
    Socket_ctor p fd address (Some (RemoveSocketOf w)) bev;;
    nt ← worker w;
    store_worker w {| m_sockets := p :: m_sockets nt;
                      m_closingSockets := m_closingSockets nt;
                      m_pendingShutdown := m_pendingShutdown nt |}).

(** The [for] loop of [SocketCleanupWork] over the closing list: closed
    Sockets are erased, which destroys them; the others stay. *)
Fixpoint sweep (l : list ptr) : M (list ptr) :=
  match l with
  | [] => ret []
  | i :: l' =>
      c ← IsClosed i;
      if c then Socket_dtor i;; sweep l'
      else rest ← sweep l'; ret (i :: rest)
  end.

(** One turn of the [while] loop of [SocketCleanupWork], after the sleep. *)
Definition SocketCleanupPass (w : worker_ptr) : M unit :=
  lock_guard (m_closingSocketLock w) (
    nt ← worker w;
    rest ← sweep (m_closingSockets nt);
    nt ← worker w;
    store_worker w {| m_sockets := m_sockets nt;
                      m_closingSockets := rest;
                      m_pendingShutdown := m_pendingShutdown nt |}).

Definition is_nil {A} (l : list A) : bool :=
  match l with [] => true | _ => false end.

Fixpoint SocketCleanupWork (fuel : nat) (w : worker_ptr) : M unit :=
  match fuel with
  | O => raise OutOfFuel
  | S fuel' =>
      nt ← worker w;
      if negb (m_pendingShutdown nt) || negb (is_nil (m_closingSockets nt))
      then SocketCleanupPass w;; SocketCleanupWork fuel' w
      else ret tt
  end.

(** The [while (!m_sockets.empty())] loop of [~NetworkThread]. *)
Fixpoint close_all (fuel : nat) (w : worker_ptr) : M unit :=
  match fuel with
  | O => raise OutOfFuel
  | S fuel' =>
      nt ← worker w;
      match m_sockets nt with
      | [] => ret tt
      | front :: rest =>
          c ← IsClosed front;
          (if c
           then store_worker w {| m_sockets := rest;
                                  m_closingSockets := m_closingSockets nt;
                                  m_pendingShutdown := m_pendingShutdown nt |};;
                Socket_dtor front
           else Close front);;
          close_all fuel' w
      end
  end.

(** Destruction of a list of owned Sockets. *)
Fixpoint delete_all (l : list ptr) : M unit :=
  match l with
  | [] => ret tt
  | i :: l' => Socket_dtor i;; delete_all l'
  end.

(** [NetworkThread::~NetworkThread]: the body, the passes the cleanup thread
    still makes until it can be joined, and the destruction of the two
    lists. *)
Definition NetworkThread_dtor (fuel : nat) (w : worker_ptr) : M unit :=
  close_all fuel w;;
  nt ← worker w;
  store_worker w {| m_sockets := m_sockets nt;
                    m_closingSockets := m_closingSockets nt;
                    m_pendingShutdown := true |};;
  SocketCleanupWork fuel w;;
  emit (thread_join (m_socketCleanupThread w));;
  emit event_base_loopbreak;;
  emit (thread_join (m_serviceThread w));;
  emit event_base_free;;
  nt ← worker w;
  delete_all (m_closingSockets nt);;
  delete_all (m_sockets nt);;
  store_worker w {| m_sockets := []; m_closingSockets := [];
                    m_pendingShutdown := true |}.

(** A call of [event_base_new()]: the next result of the supply. *)
Definition new_event_base : M bool :=
  supply ← gets event_base_supply;
  let base := default true (head supply) in
  modify (set_supply (drop 1));;
  emit (event_base_new base);;
  ret base.

Definition throw {A} (what : string) : M A := raise (Thrown what).

(** [NetworkThread::NetworkThread] for the worker that will sit at index
    [w]: the member initialisers, then the body.  The [throw] in the body
    does not leave the constructor: the members are destroyed first, and
    [m_socketCleanupThread], started by its initialiser, is joinable, so
    the destructor of that [std::thread] calls [std::terminate]. *)
Definition NetworkThread_ctor (w : worker_ptr) : M NetworkThread :=
  emit (thread_start (m_socketCleanupThread w));;
  m_base ← new_event_base;
  if negb m_base then raise Terminated
  else
    emit (thread_start (m_serviceThread w));;
    ret {| m_sockets := []; m_closingSockets := []; m_pendingShutdown := false |}.

(** ** Listener *)

(** The [for] loop of [SelectWorker] over the workers from index [i] on.
    The vector is filled from an [int] count, so every index fits the [int]
    [minIndex]. *)
Fixpoint SelectWorker_loop (rest : list NetworkThread) (i minIndex minSize : nat) : nat :=
  match rest with
  | [] => minIndex
  | nt :: rest' =>
      let size := Size nt in
      if (size <? minSize)%nat
      then SelectWorker_loop rest' (S i) i size
      else SelectWorker_loop rest' (S i) minIndex minSize
  end.

(** [Listener::SelectWorker]; indexing an empty vector is undefined. *)
Definition SelectWorker : M worker_ptr :=
  fun st =>
    match m_workerThreads st with
    | [] => Fault Undefined st
    | first :: rest => Ok (SelectWorker_loop rest 1 0 (Size first)) st
    end.

(** [Listener::AcceptCallback]; [p] and [bev] as in [CreateSocket]. *)
Definition AcceptCallback (fd : Z) (address : sockaddr_in)
    (p : ptr) (bev : option handle) : M unit :=
  worker ← SelectWorker;
  CreateSocket worker fd address p bev.

Section ListenerConstruction.

(** [inet_aton] of libc: the address a literal denotes, [None] when it
    returns 0.  [host] is the byte order of the machine. *)
Variable inet_aton : string -> option in_addr.
Variable host : byte_order.

(** The first [for] loop of the constructor, from index [i], [n] workers
    to go. *)
Fixpoint push_workers (n : nat) (i : nat) : M unit :=
  match n with
  | O => ret tt
  | S n' =>
      nt ← NetworkThread_ctor i;
      modify (set_workers (fun l => l ++ [nt]));;
      push_workers n' (S i)
  end.

(** [Listener::Listener(bind_ip, port, workerThreads)].  [reserve] of a
    negative count, which the conversion to [size_t] makes larger than
    [max_size()], throws [std::length_error]. *)
Definition Listener_ctor (bind_ip : string) (port workerThreads : Z) : M unit :=
  (if workerThreads <? 0 then throw "vector::reserve" else ret tt);;
  push_workers (Z.to_nat workerThreads) 0;;
  m_base ← new_event_base;
  if negb m_base then throw "Couldn't create an event base"
  else
    match inet_aton bind_ip with
    | None => throw "Invalid BindIP"
    | Some a =>
        let m_sin := {| sin_family := AF_INET;
                        sin_port := htons host port;
                        sin_addr := a |} in
        m_listener ← gets bind_supply;
        emit (evconnlistener_new_bind m_sin m_listener);;
        if negb m_listener
        then emit event_base_free;; throw "Couldn't create listener"
        else
          emit evconnlistener_set_error_cb;;
          emit (thread_start m_acceptorThread)
    end.

End ListenerConstruction.

(** A stand-in for [inet_aton] on the four-part decimal form [a.b.c.d], each
    part at most 255; used to run the constructor on concrete literals. *)
Definition digit_of (c : Ascii.ascii) : option Z :=
  let n := Z.of_N (Ascii.N_of_ascii c) in
  if (48 <=? n) && (n <=? 57) then Some (n - 48) else None.

Fixpoint dotted_parts (s : string) (cur : option Z) : option (list Z) :=
  match s with
  | EmptyString => (fun v => [v]) <$> cur
  | String c s' =>
      if (Ascii.N_of_ascii c =? 46)%N then
        match cur with
        | Some v => cons v <$> dotted_parts s' None
        | None => None
        end
      else
        match digit_of c with
        | Some d =>
            let v := default 0 cur * 10 + d in
            if v <=? 255 then dotted_parts s' (Some v) else None
        | None => None
        end
  end.

Definition inet_aton_dotted (s : string) : option in_addr :=
  match dotted_parts s None with
  | Some [a; b; c; d] => Some {| oct1 := a; oct2 := b; oct3 := c; oct4 := d |}
  | _ => None
  end.

(** The world before anything is constructed. *)
Definition empty_world (supply : list bool) (can_bind : bool) : World :=
  {| heap := ∅; m_workerThreads := []; errno := 0; calls := [];
     event_base_supply := supply; bind_supply := can_bind |}.

(** * Vocabulary of the statements *)

(** The world after [RemoveSocket w socket] on a worker [nt]. *)
Definition moved (socket : ptr) (nt : NetworkThread) : NetworkThread :=
  match erase_first socket (m_sockets nt) with
  | Some rest => {| m_sockets := rest;
                    m_closingSockets := socket :: m_closingSockets nt;
                    m_pendingShutdown := m_pendingShutdown nt |}
  | None => nt
  end.

(** The calls of one [Close] of a live Socket at [p] with stream [b], whose
    handler is the [RemoveSocket] of worker [w], in order. *)
Definition Close_log (p : ptr) (b : handle) (w : worker_ptr) : list call :=
  [ lock (m_readLock p); lock (m_writeLock p);
    bufferevent_lock (Some b); bufferevent_disable (Some b);
    bufferevent_setcb (Some b) false false;
    bufferevent_unlock None; bufferevent_free (Some b);
    invoke_closeHandler (RemoveSocketOf w) p;
    lock (m_socketLock w); lock (m_closingSocketLock w);
    unlock (m_closingSocketLock w); unlock (m_socketLock w);
    unlock (m_writeLock p); unlock (m_readLock p) ].

(** The world after that [Close]. *)
Definition closed_world (p : ptr) (s : Socket) (b : handle) (w : worker_ptr)
    (nt : NetworkThread) (st : World) : World :=
  {| heap := <[p := with_bev None s]> (heap st);
     m_workerThreads := <[w := moved p nt]> (m_workerThreads st);
     errno := errno st;
     calls := rev (Close_log p b w) ++ calls st;
     event_base_supply := event_base_supply st;
     bind_supply := bind_supply st |}.

(** [n] successive calls of [Close]. *)
Fixpoint Close_times (n : nat) (this : ptr) : M unit :=
  match n with
  | O => ret tt
  | S n' => Close this;; Close_times n' this
  end.

(** LIVE: the object exists and its stream handle is not null. *)
Definition is_live (p : ptr) (st : World) : bool :=
  match heap st !! p with
  | Some s => bool_decide (is_Some (m_bev s))
  | None => false
  end.

(** DETACHED: the object exists and its stream handle is null. *)
Definition is_detached (p : ptr) (st : World) : bool :=
  match heap st !! p with
  | Some s => bool_decide (m_bev s = None)
  | None => false
  end.

(** How many of [n] successive calls of [Close] take the Socket from LIVE to
    DETACHED. *)
Fixpoint transitions (n : nat) (p : ptr) (st : World) : nat :=
  match n with
  | O => O
  | S n' =>
      match Close p st with
      | Ok _ st' =>
          ((if is_live p st && is_detached p st' then 1 else 0)
           + transitions n' p st')%nat
      | Fault _ _ => O
      end
  end.

Fixpoint count (f : call -> bool) (l : list call) : nat :=
  match l with
  | [] => O
  | c :: l' => ((if f c then 1 else 0) + count f l')%nat
  end.

Definition is_free (c : call) : bool :=
  match c with bufferevent_free _ => true | _ => false end.

Definition is_notification (c : call) : bool :=
  match c with invoke_closeHandler _ _ => true | _ => false end.

(** The public operations of a Socket, and what each returns. *)
Inductive request :=
| do_Read (len : Z)
| do_Write (buffer : list byte) (len : Z)
| do_ReadSkip (len : Z)
| do_InPeek
| do_ReadLengthRemaining
| do_IsClosed
| do_Close.

Inductive answer :=
| Read_returns (ok : bool) (copied : list byte)
| Write_returns
| ReadSkip_returns
| InPeek_returns (first : option byte)
| ReadLengthRemaining_returns (n : Z)
| IsClosed_returns (closed : bool)
| Close_returns.

Definition perform (p : ptr) (r : request) : M answer :=
  match r with
  | do_Read len => x ← Read p len; ret (Read_returns (fst x) (snd x))
  | do_Write buffer len => Write p buffer len;; ret Write_returns
  | do_ReadSkip len => ReadSkip p len;; ret ReadSkip_returns
  | do_InPeek => x ← InPeek p; ret (InPeek_returns x)
  | do_ReadLengthRemaining => x ← ReadLengthRemaining p; ret (ReadLengthRemaining_returns x)
  | do_IsClosed => x ← IsClosed p; ret (IsClosed_returns x)
  | do_Close => Close p;; ret Close_returns
  end.

Fixpoint perform_all (p : ptr) (rs : list request) : M (list answer) :=
  match rs with
  | [] => ret []
  | r :: rs' => a ← perform p r; rest ← perform_all p rs'; ret (a :: rest)
  end.

(** What a detached Socket answers. *)
Definition detached_answer (r : request) : answer :=
  match r with
  | do_Read _ => Read_returns false []
  | do_Write _ _ => Write_returns
  | do_ReadSkip _ => ReadSkip_returns
  | do_InPeek => InPeek_returns None
  | do_ReadLengthRemaining => ReadLengthRemaining_returns 0
  | do_IsClosed => IsClosed_returns true
  | do_Close => Close_returns
  end.

(** The inbound and outbound buffers of the Socket at [p], if it is live. *)
Definition inbound (p : ptr) (st : World) : option (list byte) :=
  match heap st !! p with
  | Some s => input <$> m_bev s
  | None => None
  end.

Definition outbound (p : ptr) (st : World) : option (list byte) :=
  match heap st !! p with
  | Some s => output <$> m_bev s
  | None => None
  end.

(** A world with one worker that owns one live Socket, at address 1, with
    five bytes waiting in its inbound buffer. *)
Definition demo_bev : bufferevent :=
  {| bev_ptr := 7%positive; bev_fd := 5;
     input := [x48; x45; x4c; x4c; x4f]; output := [] |}.

Definition demo_worker : NetworkThread :=
  {| m_sockets := [1%positive]; m_closingSockets := [];
     m_pendingShutdown := false |}.

Definition demo_socket : Socket :=
  {| m_bev := Some demo_bev;
     m_closeHandler := Some (RemoveSocketOf 0);
     m_address := "10.0.0.7";
     m_remoteEndpoint := "10.0.0.7:20480" |}.

Definition demo_world : World :=
  {| heap := {[ 1%positive := demo_socket ]};
     m_workerThreads := [demo_worker];
     errno := 0; calls := []; event_base_supply := []; bind_supply := true |}.

Definition is_thread_start (c : call) : bool :=
  match c with thread_start _ => true | _ => false end.

(** The calls of the construction of workers [i], [i+1], ..., [n] of them,
    when every [event_base_new] gives a base. *)
Fixpoint worker_calls (n i : nat) : list call :=
  match n with
  | O => []
  | S n' =>
      thread_start (m_socketCleanupThread i) :: event_base_new true
      :: thread_start (m_serviceThread i) :: worker_calls n' (S i)
  end.

Definition new_worker : NetworkThread :=
  {| m_sockets := []; m_closingSockets := []; m_pendingShutdown := false |}.


(** One accepted connection: the fd and peer address the listener reports,
    the address [new] gives the Socket, and the result of
    [bufferevent_socket_new]. *)
Record accepted := {
  acc_fd : Z;
  acc_address : sockaddr_in;
  acc_ptr : ptr;
  acc_bev : option handle;
}.

(** The accepts of a sequence of connections, one after the other. *)
Fixpoint accept_all (conns : list accepted) : M unit :=
  match conns with
  | [] => ret tt
  | a :: conns' =>
      AcceptCallback (acc_fd a) (acc_address a) (acc_ptr a) (acc_bev a);;
      accept_all conns'
  end.

(** The live counts of the workers, by index. *)
Definition sizes (st : World) : list nat := Size <$> m_workerThreads st.

(** [i] is the first index at which the list is least. *)
Definition least_loaded (ss : list nat) (i : nat) : Prop :=
  exists x, ss !! i = Some x /\
    (forall j y, ss !! j = Some y -> (x <= y)%nat) /\
    (forall j y, (j < i)%nat -> ss !! j = Some y -> (x < y)%nat).

(** [K] connections dealt to [N] workers in turn. *)
Definition spread (N K : nat) : list nat :=
  (replicate (K mod N) (S (K / N)) ++ replicate (N - K mod N) (K / N))%nat.

(** Four new workers and no Socket; eight connections to accept. *)
Definition four_workers : World :=
  {| heap := ∅; m_workerThreads := replicate 4 new_worker;
     errno := 0; calls := []; event_base_supply := []; bind_supply := true |}.

Definition connection (k : positive) : accepted :=
  {| acc_fd := Z.pos k;
     acc_address := peer_sockaddr LittleEndian 10 0 0 7 (40000 + Z.pos k);
     acc_ptr := k; acc_bev := Some (100 + k)%positive |}.

Definition eight_connections : list accepted :=
  connection <$> [1; 2; 3; 4; 5; 6; 7; 8]%positive.

(** ** Bookkeeping of a worker *)

(** The Sockets a worker owns: its live list, then its closing list. *)
Definition owned (nt : NetworkThread) : list ptr :=
  m_sockets nt ++ m_closingSockets nt.

(** The Socket at [p] exists and was made by [CreateSocket] of worker [w]:
    its close handler is that worker's lambda. *)
Definition created_by (st : World) (w : worker_ptr) (p : ptr) : Prop :=
  exists s, heap st !! p = Some s /\ m_closeHandler s = Some (RemoveSocketOf w).

(** Where a Connection of a worker can be. *)
Inductive place := live_set | closing_set | destroyed.

Definition occupies (st : World) (nt : NetworkThread) (p : ptr) (x : place) : Prop :=
  match x with
  | live_set => p ∈ m_sockets nt
  | closing_set => p ∈ m_closingSockets nt
  | destroyed => heap st !! p = None
  end.

(** Each worker owns exactly the existing Sockets it created, each once. *)
Definition tidy (st : World) : Prop :=
  forall w nt, m_workerThreads st !! w = Some nt ->
    NoDup (owned nt) /\ forall p, p ∈ owned nt <-> created_by st w p.

(** Every Socket in a closing list is detached. *)
Definition closing_closed (st : World) : Prop :=
  forall w nt p, m_workerThreads st !! w = Some nt ->
    p ∈ m_closingSockets nt -> is_detached p st = true.

(** Every Socket notifies an existing worker when it is closed. *)
Definition notifies (st : World) : Prop :=
  forall p s, heap st !! p = Some s ->
    exists w, m_closeHandler s = Some (RemoveSocketOf w) /\
              (w < length (m_workerThreads st))%nat.

Definition good (st : World) : Prop :=
  tidy st /\ closing_closed st /\ notifies st.

(** The reactor appends bytes that arrived from the peer to the inbound
    buffer of a live Socket. *)
Definition receive (p : ptr) (data : list byte) (st : World) : option World :=
  match heap st !! p with
  | Some s =>
      match m_bev s with
      | Some bev =>
          Some (set_heap (insert p (with_bev (Some
                  {| bev_ptr := bev_ptr bev; bev_fd := bev_fd bev;
                     input := input bev ++ data; output := output bev |}) s)) st)
      | None => None
      end
  | None => None
  end.

(** What can happen to a running system: a connection is accepted (or
    handed to a given worker), with a Socket at an unused address; a public
    operation of a Socket is called; the reactor reports an event or
    delivers bytes; a cleanup thread makes a pass; a worker is destroyed.
    [RemoveSocket] runs only as a close handler, from [Close]. *)
Inductive step : World -> World -> Prop :=
| step_accept fd address p bev st st' :
    heap st !! p = None ->
    AcceptCallback fd address p bev st = Ok tt st' -> step st st'
| step_create w fd address p bev st st' :
    heap st !! p = None ->
    CreateSocket w fd address p bev st = Ok tt st' -> step st st'
| step_perform p r a st st' :
    perform p r st = Ok a st' -> step st st'
| step_event bev events ctx st st' :
    EventCallback bev events ctx st = Ok tt st' -> step st st'
| step_receive p data st st' :
    receive p data st = Some st' -> step st st'
| step_cleanup w st st' :
    SocketCleanupPass w st = Ok tt st' -> step st st'
| step_destroy fuel w st st' :
    NetworkThread_dtor fuel w st = Ok tt st' -> step st st'.

(** The worlds a system can be in: it starts with new workers and no
    Socket. *)
Inductive reachable : World -> Prop :=
| reachable_start st :
    heap st = ∅ ->
    Forall (fun nt => owned nt = []) (m_workerThreads st) ->
    reachable st
| reachable_step st st' :
    reachable st -> step st st' -> reachable st'.

(** The Socket object that [Socket::Socket] leaves at [this]. *)
Definition new_Socket (fd : Z) (address : sockaddr_in)
    (h : option closeHandler) (bev : option handle) : Socket :=
  {| m_bev := (fun b => {| bev_ptr := b; bev_fd := fd; input := []; output := [] |}) <$> bev;
     m_closeHandler := h;
     m_address := inet_ntop (sin_addr address);
     m_remoteEndpoint :=
       inet_ntop (sin_addr address) +:+ ":" +:+ to_string (sin_port address) |}.

Definition with_live (p : ptr) (nt : NetworkThread) : NetworkThread :=
  {| m_sockets := p :: m_sockets nt;
     m_closingSockets := m_closingSockets nt;
     m_pendingShutdown := m_pendingShutdown nt |}.

Definition with_closing (l : list ptr) (nt : NetworkThread) : NetworkThread :=
  {| m_sockets := m_sockets nt;
     m_closingSockets := l;
     m_pendingShutdown := m_pendingShutdown nt |}.

Definition with_sockets (l : list ptr) (nt : NetworkThread) : NetworkThread :=
  {| m_sockets := l;
     m_closingSockets := m_closingSockets nt;
     m_pendingShutdown := m_pendingShutdown nt |}.

Definition with_shutdown (nt : NetworkThread) : NetworkThread :=
  {| m_sockets := m_sockets nt;
     m_closingSockets := m_closingSockets nt;
     m_pendingShutdown := true |}.

(** The end of [~NetworkThread], after the cleanup thread has finished. *)
Definition dtor_tail (w : worker_ptr) : M unit :=
  emit (thread_join (m_socketCleanupThread w));;
  emit event_base_loopbreak;;
  emit (thread_join (m_serviceThread w));;
  emit event_base_free;;
  nt ← worker w;
  delete_all (m_closingSockets nt);;
  delete_all (m_sockets nt);;
  store_worker w {| m_sockets := []; m_closingSockets := [];
                    m_pendingShutdown := true |}.

(** A worker after its destruction. *)
Definition dead_worker : NetworkThread :=
  {| m_sockets := []; m_closingSockets := []; m_pendingShutdown := true |}.

(** The world a run ends in. *)
Definition world_after {A} (m : M A) (st : World) : World :=
  match m st with
  | Ok _ st' => st'
  | Fault _ st' => st'
  end.

(** Four workers; one connection has been accepted and then closed. *)
Definition one_accepted : World :=
  Eval vm_compute in
    world_after (AcceptCallback 1 (peer_sockaddr LittleEndian 10 0 0 7 40001)
                   1%positive (Some 101%positive)) four_workers.

Definition one_closed : World :=
  Eval vm_compute in world_after (Close 1%positive) one_accepted.

(** ** Further worlds and handlers *)

(** A Socket like [demo_socket] that was constructed with an empty close
    handler, alone in a world without workers. *)
Definition orphan_socket : Socket :=
  {| m_bev := Some demo_bev;
     m_closeHandler := None;
     m_address := "10.0.0.7";
     m_remoteEndpoint := "10.0.0.7:20480" |}.

Definition orphan_world : World :=
  {| heap := {[ 1%positive := orphan_socket ]};
     m_workerThreads := [];
     errno := 0; calls := []; event_base_supply := []; bind_supply := true |}.

(** The number of bytes waiting in the inbound buffer of the Socket at [p];
    none when it is detached. *)
Definition remaining (p : ptr) (st : World) : nat :=
  match inbound p st with
  | Some l => length l
  | None => O
  end.

(** Two protocol handlers: one that takes one byte per call, and one that
    reports success without taking anything. *)
Definition take_one : ptr -> M bool :=
  fun p => x ← Read p 1; ret (fst x).

Definition never_consumes : ptr -> M bool :=
  fun _ => ret true.


(** The requests of a short session on the demo Socket, and the world they
    end in. *)
Definition demo_session : list request :=
  [ do_Read 2; do_Write [x4f; x4b] 2; do_ReadSkip 1; do_InPeek;
    do_Close; do_IsClosed ].

Definition after_demo_session : World :=
  Eval vm_compute in world_after (perform_all 1%positive demo_session) demo_world.


(** The world [one_accepted] after a direct call of [RemoveSocket] for its
    Socket: the Socket sits in the closing list of worker 0 and is still
    open. *)
Definition misfiled : World :=
  Eval vm_compute in world_after (RemoveSocket 0 1%positive) one_accepted.

(** The world [one_closed] with the shutdown flag of worker 0 set. *)
Definition shutting_down : World :=
  Eval vm_compute in
    world_after (store_worker 0 {| m_sockets := []; m_closingSockets := [1%positive];
                                   m_pendingShutdown := true |}) one_closed.

(** Between [st] and [st'] only worker [w] and the Sockets it created were
    touched: the other Sockets are as they were, no Socket appeared or
    changed its close handler, and the other workers are as they were. *)
Definition only_own (w : worker_ptr) (st st' : World) : Prop :=
  (forall p, ~ created_by st w p -> heap st' !! p = heap st !! p) /\
  (forall p s', heap st' !! p = Some s' ->
     exists s, heap st !! p = Some s /\ m_closeHandler s' = m_closeHandler s) /\
  (forall w', w' <> w -> m_workerThreads st' !! w' = m_workerThreads st !! w').


(** ** The end of the Listener *)

(** The destruction of the member [m_workerThreads] when the Listener goes
    away: [~NetworkThread] for each worker, in the order [order] in which
    the vector releases its elements. *)
Fixpoint destroy_workers (fuel : nat) (order : list worker_ptr) : M unit :=
  match order with
  | [] => ret tt
  | w :: rest => NetworkThread_dtor fuel w;; destroy_workers fuel rest
  end.

(** * Proofs *)

(** ** Running the monad *)

Lemma worker_Some st w nt :
  m_workerThreads st !! w = Some nt -> worker w st = Ok nt st.
Proof. intros H. unfold worker. by rewrite H. Qed.

Lemma bind_Ok {A B} (m : M A) (f : A -> M B) st a st' :
  m st = Ok a st' -> bind m f st = f a st'.
Proof. intros H. unfold bind. by rewrite H. Qed.

Lemma bind_inv {A B} (m : M A) (f : A -> M B) st b st' :
  bind m f st = Ok b st' -> exists a st1, m st = Ok a st1 /\ f a st1 = Ok b st'.
Proof.
  unfold bind. destruct (m st) as [a st1|e st1]; [|discriminate].
  intros H. by exists a, st1.
Qed.

Lemma RemoveSocket_run st w q nt :
  m_workerThreads st !! w = Some nt ->
  RemoveSocket w q st =
    Ok tt (set_calls (fun l => unlock (m_socketLock w) :: unlock (m_closingSocketLock w)
                               :: lock (m_closingSocketLock w) :: lock (m_socketLock w) :: l)
             (set_workers (fun l => <[w := moved q nt]> l) st)).
Proof.
  intros Hw. unfold RemoveSocket, lock_guard, moved, bind, emit, modify, ret, worker, store_worker.
  simpl. rewrite Hw.
  destruct (erase_first q (m_sockets nt)) as [rest|]; simpl.
  - reflexivity.
  - unfold set_calls, set_workers; simpl. by rewrite list_insert_id.
Qed.

Ltac use_state :=
  repeat match goal with
  | H : heap ?st !! ?p = _ |- context [heap ?st !! ?p] => rewrite H; simpl
  | H : m_bev ?s = _ |- context [m_bev ?s] => rewrite H; simpl
  | H : m_closeHandler ?s = _ |- context [m_closeHandler ?s] => rewrite H; simpl
  | H : m_workerThreads ?st !! ?w = _ |- context [m_workerThreads ?st !! ?w] =>
      rewrite H; simpl
  | |- context [<[?p := _]> _ !! ?p] => rewrite lookup_insert_eq; simpl
  end.

Ltac run :=
  cbv beta delta [bind ret emit modify gets lock_guard raise assert throw
                  deref worker store_worker store_m_bev];
  simpl; use_state.

Lemma calls_since_app st st' l :
  calls st' = rev l ++ calls st -> calls_since st st' = l.
Proof.
  intros H. unfold calls_since. rewrite H, length_app, length_rev.
  replace (length l + length (calls st) - length (calls st))%nat with (length (rev l))
    by (rewrite length_rev; lia).
  by rewrite take_app_length, rev_involutive.
Qed.

Lemma calls_since_refl st : calls_since st st = [].
Proof. by apply calls_since_app. Qed.

(** *** Close *)

(** A call of [Close] on a detached Socket returns on the first test. *)
Lemma Close_detached st p s :
  heap st !! p = Some s -> m_bev s = None -> Close p st = Ok tt st.
Proof. intros Hp Hb. unfold Close. by run. Qed.

Lemma Close_live st p s bev w nt :
  heap st !! p = Some s -> m_bev s = Some bev ->
  m_closeHandler s = Some (RemoveSocketOf w) ->
  m_workerThreads st !! w = Some nt ->
  Close p st = Ok tt (closed_world p s (bev_ptr bev) w nt st).
Proof.
  intros Hp Hb Hh Hw. unfold Close. run.
  unfold invoke. run. erewrite RemoveSocket_run by (simpl; exact Hw).
  reflexivity.
Qed.

(** The same for a Socket constructed with an empty handler. *)
Lemma Close_live_no_handler st p s bev :
  heap st !! p = Some s -> m_bev s = Some bev -> m_closeHandler s = None ->
  Close p st =
    Ok tt (set_calls (app (rev
             [ lock (m_readLock p); lock (m_writeLock p);
               bufferevent_lock (Some (bev_ptr bev));
               bufferevent_disable (Some (bev_ptr bev));
               bufferevent_setcb (Some (bev_ptr bev)) false false;
               bufferevent_unlock None; bufferevent_free (Some (bev_ptr bev));
               unlock (m_writeLock p); unlock (m_readLock p) ]))
             (set_heap (insert p (with_bev None s)) st)).
Proof.
  intros Hp Hb Hh. unfold Close. by run.
Qed.

Lemma Close_live_dangling st p s bev w :
  heap st !! p = Some s -> m_bev s = Some bev ->
  m_closeHandler s = Some (RemoveSocketOf w) ->
  m_workerThreads st !! w = None ->
  exists st', Close p st = Fault Undefined st'.
Proof.
  intros Hp Hb Hh Hw. unfold Close. run.
  unfold invoke, RemoveSocket. run. eauto.
Qed.

Lemma Close_dangling st p : heap st !! p = None -> Close p st = Fault Undefined st.
Proof. intros Hp. unfold Close. by run. Qed.

(** However [Close] returns, it leaves the Socket detached. *)
Lemma Close_Ok_detached st p st1 :
  Close p st = Ok tt st1 ->
  exists s1, heap st1 !! p = Some s1 /\ m_bev s1 = None.
Proof.
  intros H.
  destruct (heap st !! p) as [s|] eqn:Hp; [|by rewrite Close_dangling in H].
  destruct (m_bev s) as [bev|] eqn:Hb.
  - destruct (m_closeHandler s) as [[w]|] eqn:Hh.
    + destruct (m_workerThreads st !! w) as [nt|] eqn:Hw.
      * rewrite (Close_live _ _ _ _ _ _ Hp Hb Hh Hw) in H.
        injection H as <-. exists (with_bev None s). simpl.
        by rewrite lookup_insert_eq.
      * destruct (Close_live_dangling _ _ _ _ _ Hp Hb Hh Hw) as [st' E].
        by rewrite E in H.
    + rewrite (Close_live_no_handler _ _ _ _ Hp Hb Hh) in H.
      injection H as <-. exists (with_bev None s). simpl.
      by rewrite lookup_insert_eq.
  - rewrite (Close_detached _ _ _ Hp Hb) in H. injection H as <-. eauto.
Qed.

Lemma Close_times_detached n st p s :
  heap st !! p = Some s -> m_bev s = None -> Close_times n p st = Ok tt st.
Proof.
  intros Hp Hb. induction n as [|n IH]; [done|].
  simpl. unfold bind. by rewrite (Close_detached _ _ _ Hp Hb).
Qed.

Lemma transitions_detached n st p s :
  heap st !! p = Some s -> m_bev s = None -> transitions n p st = O.
Proof.
  intros Hp Hb. induction n as [|n IH]; [done|].
  simpl. rewrite (Close_detached _ _ _ Hp Hb), IH.
  unfold is_live. by rewrite Hp, Hb.
Qed.

(** *** The operations on a detached Socket *)

Lemma perform_detached st p s r :
  heap st !! p = Some s -> m_bev s = None ->
  perform p r st = Ok (detached_answer r) st.
Proof.
  intros Hp Hb.
  destruct r; unfold perform, Read, Write, ReadSkip, InPeek,
    ReadLengthRemaining, IsClosed, Close; by run.
Qed.

Lemma perform_all_detached st p s rs :
  heap st !! p = Some s -> m_bev s = None ->
  perform_all p rs st = Ok (detached_answer <$> rs) st.
Proof.
  intros Hp Hb. induction rs as [|r rs IH]; [done|].
  simpl. unfold bind. rewrite (perform_detached _ _ _ _ Hp Hb), IH. done.
Qed.

(** *** Read on a live Socket *)

Lemma to_size_t_small n : 0 <= n <= INT_MAX -> to_size_t n = n.
Proof. unfold to_size_t, INT_MAX. intros. apply Z.mod_small. lia. Qed.

Lemma to_int_small n : 0 <= n <= INT_MAX -> to_int n = n.
Proof.
  unfold to_int, INT_MAX. intros.
  rewrite Z.mod_small; lia.
Qed.

Lemma Read_enough st p s bev n :
  heap st !! p = Some s -> m_bev s = Some bev ->
  0 <= n <= INT_MAX -> n <= Z.of_nat (length (input bev)) ->
  Read p n st =
    Ok (true, take (Z.to_nat n) (input bev))
       (set_calls (cons (unlock (m_readLock p)))
          (set_heap (insert p (with_bev (Some (evbuffer_drain bev n)) s))
             (set_calls (cons (lock (m_readLock p))) st))).
Proof.
  intros Hp Hb Hn Hlen. unfold Read. run.
  rewrite to_size_t_small by done. unfold evbuffer_get_length.
  destruct (Z.ltb_spec (Z.of_nat (length (input bev))) n) as [?|_]; [lia|].
  simpl. use_state.
  rewrite length_take, Nat2Z.inj_min, Z2Nat.id, Z.min_l by lia.
  rewrite to_int_small, Z.eqb_refl by done. reflexivity.
Qed.

Lemma Read_short st p s bev n :
  heap st !! p = Some s -> m_bev s = Some bev ->
  0 <= n <= INT_MAX -> Z.of_nat (length (input bev)) < n ->
  Read p n st =
    Ok (false, [])
       (set_calls (cons (unlock (m_readLock p)))
          (set_calls (cons (lock (m_readLock p))) st)).
Proof.
  intros Hp Hb Hn Hlen. unfold Read. run.
  rewrite to_size_t_small by done. unfold evbuffer_get_length.
  destruct (Z.ltb_spec (Z.of_nat (length (input bev))) n) as [_|?]; [|lia].
  reflexivity.
Qed.

(** A negative length is compared as the [size_t] it converts to, which no
    buffer of less than 2^63 bytes reaches: [Read] returns false. *)
Lemma Read_negative st p s bev n :
  heap st !! p = Some s -> m_bev s = Some bev ->
  - 2 ^ 31 <= n < 0 -> Z.of_nat (length (input bev)) < 2 ^ 63 ->
  Read p n st =
    Ok (false, [])
       (set_calls (cons (unlock (m_readLock p)))
          (set_calls (cons (lock (m_readLock p))) st)).
Proof.
  intros Hp Hb Hn Hlen. unfold Read. run.
  assert (Hsz : to_size_t n = n + 2 ^ 64).
  { unfold to_size_t. symmetry. apply (Z.mod_unique_pos _ _ (-1)); lia. }
  rewrite Hsz. unfold evbuffer_get_length.
  destruct (Z.ltb_spec (Z.of_nat (length (input bev))) (n + 2 ^ 64)) as [_|?]; [|lia].
  reflexivity.
Qed.

(** ** Claims about one Socket *)

(** C1.  [Close] is idempotent.  For a live Socket whose close handler is the
    [RemoveSocket] of an existing worker (as [CreateSocket] makes them, and
    as every Socket of a reachable world is), [N >= 1] successive calls of
    [Close] end in the world the first call produces: that call takes the
    Socket from LIVE to DETACHED, frees the stream once and invokes the
    handler once; exactly one of the [N] calls makes the transition, and a
    further call returns with the world unchanged. *)
Theorem close_is_idempotent st p s bev w nt N :
  heap st !! p = Some s ->
  m_bev s = Some bev ->
  m_closeHandler s = Some (RemoveSocketOf w) ->
  m_workerThreads st !! w = Some nt ->
  (1 <= N)%nat ->
  exists st1,
    Close p st = Ok tt st1 /\
    Close_times N p st = Ok tt st1 /\
    Close p st1 = Ok tt st1 /\
    is_live p st = true /\ is_detached p st1 = true /\
    transitions N p st = 1%nat /\
    count is_notification (calls_since st st1) = 1%nat /\
    count is_free (calls_since st st1) = 1%nat /\
    In (bufferevent_free (Some (bev_ptr bev))) (calls_since st st1) /\
    In (invoke_closeHandler (RemoveSocketOf w) p) (calls_since st st1).
Proof.
  intros Hp Hb Hh Hw HN.
  pose proof (Close_live _ _ _ _ _ _ Hp Hb Hh Hw) as Hclose.
  set (st1 := closed_world p s (bev_ptr bev) w nt st) in *.
  assert (Hp1 : heap st1 !! p = Some (with_bev None s))
    by (simpl; apply lookup_insert_eq).
  assert (Hlog : calls_since st st1 = Close_log p (bev_ptr bev) w)
    by (by apply calls_since_app).
  assert (Hlive : is_live p st = true).
  { unfold is_live. rewrite Hp, Hb. apply bool_decide_eq_true. eauto. }
  assert (Hdet : is_detached p st1 = true).
  { unfold is_detached. by rewrite Hp1. }
  exists st1. repeat split; try done.
  - destruct N as [|N]; [lia|]. simpl. unfold bind. rewrite Hclose.
    by apply (Close_times_detached _ _ _ _ Hp1).
  - by apply (Close_detached _ _ _ Hp1).
  - destruct N as [|N]; [lia|]. simpl. rewrite Hclose, Hlive, Hdet. simpl.
    by rewrite (transitions_detached _ _ _ _ Hp1).
  - by rewrite Hlog.
  - by rewrite Hlog.
  - rewrite Hlog. simpl. tauto.
  - rewrite Hlog. simpl. tauto.
Qed.

Lemma close_is_idempotent_witness :
  exists st1,
    Close 1%positive demo_world = Ok tt st1 /\
    Close_times 3 1%positive demo_world = Ok tt st1 /\
    Close 1%positive st1 = Ok tt st1 /\
    is_live 1%positive demo_world = true /\ is_detached 1%positive st1 = true /\
    transitions 3 1%positive demo_world = 1%nat /\
    count is_notification (calls_since demo_world st1) = 1%nat /\
    count is_free (calls_since demo_world st1) = 1%nat /\
    In (bufferevent_free (Some 7%positive)) (calls_since demo_world st1) /\
    In (invoke_closeHandler (RemoveSocketOf 0) 1%positive) (calls_since demo_world st1).
Proof.
  apply (close_is_idempotent demo_world 1%positive demo_socket demo_bev
           0%nat demo_worker 3%nat);
    [reflexivity | reflexivity | reflexivity | reflexivity | lia].
Defined.

(** C2.  Once [Close] has returned, the Socket is detached, and every public
    operation on it returns the detached value and leaves the world as it
    is: [Read] returns false and copies nothing, [Write] drops its bytes,
    [ReadSkip] does nothing, [InPeek] returns null, [ReadLengthRemaining]
    returns 0 and [IsClosed] returns true.  The same holds for any sequence
    of such operations after the [Close]. *)
Theorem detached_operations st p st1 :
  Close p st = Ok tt st1 ->
  is_detached p st1 = true /\
  (forall len, Read p len st1 = Ok (false, []) st1) /\
  (forall buffer len, Write p buffer len st1 = Ok tt st1) /\
  (forall len, ReadSkip p len st1 = Ok tt st1) /\
  InPeek p st1 = Ok None st1 /\
  ReadLengthRemaining p st1 = Ok 0 st1 /\
  IsClosed p st1 = Ok true st1 /\
  (forall rs, perform_all p rs st1 = Ok (detached_answer <$> rs) st1).
Proof.
  intros H. destruct (Close_Ok_detached _ _ _ H) as (s1 & Hp & Hb).
  split; [unfold is_detached; by rewrite Hp, Hb|].
  repeat split; intros;
    try (unfold Read, Write, ReadSkip, InPeek, ReadLengthRemaining, IsClosed;
         by run).
  by apply (perform_all_detached _ _ _ _ Hp Hb).
Qed.

Lemma detached_operations_witness :
  let st1 := closed_world 1%positive demo_socket 7%positive 0%nat
               demo_worker demo_world in
  is_detached 1%positive st1 = true /\
  (forall len, Read 1%positive len st1 = Ok (false, []) st1) /\
  (forall buffer len, Write 1%positive buffer len st1 = Ok tt st1) /\
  (forall len, ReadSkip 1%positive len st1 = Ok tt st1) /\
  InPeek 1%positive st1 = Ok None st1 /\
  ReadLengthRemaining 1%positive st1 = Ok 0 st1 /\
  IsClosed 1%positive st1 = Ok true st1 /\
  (forall rs, perform_all 1%positive rs st1 = Ok (detached_answer <$> rs) st1).
Proof.
  intros st1. apply (detached_operations demo_world 1%positive st1).
  reflexivity.
Defined.

(** C3 (the code departs from the claim).  In [Close] the handle is copied to
    [l_bev], [m_bev] is set to null, and then [bufferevent_unlock(m_bev)]
    is called: the lock is taken on the stream and the unlock is passed the
    null pointer.  On the demo world, whose Socket has stream 7, the calls of
    [Close] are, in order, those listed; the stream's own lock is never
    released before the stream is freed. *)
Theorem Close_unlocks_nullptr :
  exists st1,
    Close 1%positive demo_world = Ok tt st1 /\
    calls_since demo_world st1 =
      [ lock (m_readLock 1%positive); lock (m_writeLock 1%positive);
        bufferevent_lock (Some 7%positive);
        bufferevent_disable (Some 7%positive);
        bufferevent_setcb (Some 7%positive) false false;
        bufferevent_unlock None;
        bufferevent_free (Some 7%positive);
        invoke_closeHandler (RemoveSocketOf 0) 1%positive;
        lock (m_socketLock 0); lock (m_closingSocketLock 0);
        unlock (m_closingSocketLock 0); unlock (m_socketLock 0);
        unlock (m_writeLock 1%positive); unlock (m_readLock 1%positive) ] /\
    ~ In (bufferevent_unlock (Some 7%positive)) (calls_since demo_world st1).
Proof.
  exists (closed_world 1%positive demo_socket (bev_ptr demo_bev) 0%nat
            demo_worker demo_world).
  assert (E : forall st1, calls st1 = rev (Close_log 1%positive 7%positive 0) ++ calls demo_world ->
                calls_since demo_world st1 = Close_log 1%positive 7%positive 0)
    by (intros; by apply calls_since_app).
  split; [by apply (Close_live demo_world 1%positive demo_socket demo_bev)|].
  rewrite E by reflexivity.
  split; [reflexivity|].
  simpl. intros H. repeat (destruct H as [H|H]; [discriminate H|]). exact H.
Qed.

(** C6.  [Read] on a live Socket, for a length [n] in the non-negative range
    of [int]: with at least [n] bytes in the inbound buffer it returns true,
    copies the first [n] bytes and removes exactly those from the buffer
    (the outbound buffer is untouched); with fewer it returns false, copies
    nothing, and the buffers are unchanged. *)
Theorem Read_contract st p s bev n :
  heap st !! p = Some s ->
  m_bev s = Some bev ->
  0 <= n <= INT_MAX ->
  (n <= Z.of_nat (length (input bev)) ->
   exists st',
     Read p n st = Ok (true, take (Z.to_nat n) (input bev)) st' /\
     Z.of_nat (length (take (Z.to_nat n) (input bev))) = n /\
     inbound p st' = Some (drop (Z.to_nat n) (input bev)) /\
     outbound p st' = Some (output bev) /\
     take (Z.to_nat n) (input bev) ++ drop (Z.to_nat n) (input bev) = input bev) /\
  (Z.of_nat (length (input bev)) < n ->
   exists st',
     Read p n st = Ok (false, []) st' /\
     heap st' = heap st /\
     inbound p st' = Some (input bev)).
Proof.
  intros Hp Hb Hn. split; intros Hlen.
  - eexists. split; [by apply (Read_enough _ _ _ _ _ Hp Hb)|].
    unfold inbound, outbound. simpl. rewrite lookup_insert_eq. simpl.
    rewrite length_take, take_drop. repeat split; lia.
  - eexists. split; [by apply (Read_short _ _ _ _ _ Hp Hb)|].
    unfold inbound. simpl. by rewrite Hp, Hb.
Qed.

Lemma Read_contract_witness :
  (3 <= Z.of_nat (length [x48; x45; x4c; x4c; x4f]) ->
   exists st',
     Read 1%positive 3 demo_world = Ok (true, [x48; x45; x4c]) st' /\
     Z.of_nat (length [x48; x45; x4c]) = 3 /\
     inbound 1%positive st' = Some [x4c; x4f] /\
     outbound 1%positive st' = Some [] /\
     [x48; x45; x4c] ++ [x4c; x4f] = [x48; x45; x4c; x4c; x4f]) /\
  (Z.of_nat (length [x48; x45; x4c; x4c; x4f]) < 3 ->
   exists st',
     Read 1%positive 3 demo_world = Ok (false, []) st' /\
     heap st' = heap demo_world /\
     inbound 1%positive st' = Some [x48; x45; x4c; x4c; x4f]).
Proof.
  apply (Read_contract demo_world 1%positive demo_socket demo_bev 3);
    [reflexivity | reflexivity | unfold INT_MAX; lia].
Defined.

(** C7.  One turn of the loop of [ReadCallback], from any world [st] in
    which [ReadLengthRemaining] returns [n]: with [n <= 0] the callback
    returns; with [n > 0] it calls [ProcessIncomingData], and goes round
    again when that returns true.  When it returns false the callback
    returns at once: the heap and the workers are as
    [ProcessIncomingData] left them, so the Socket is as live as it was and
    its inbound bytes are kept, and the only call the callback adds is the
    error log line, exactly when [errno] is [EBADMSG].  No stream is freed
    and no close handler invoked. *)
Theorem ReadCallback_on_false
    (ProcessIncomingData : ptr -> M bool) (EBADMSG : Z) fuel p st n st1 :
  ReadLengthRemaining p st = Ok n st1 ->
  (n <= 0 ->
   ReadCallback ProcessIncomingData EBADMSG (S fuel) p st = Ok tt st1) /\
  (0 < n -> forall st2, ProcessIncomingData p st1 = Ok true st2 ->
   ReadCallback ProcessIncomingData EBADMSG (S fuel) p st =
   ReadCallback ProcessIncomingData EBADMSG fuel p st2) /\
  (0 < n -> forall st2, ProcessIncomingData p st1 = Ok false st2 ->
   exists st',
     ReadCallback ProcessIncomingData EBADMSG (S fuel) p st = Ok tt st' /\
     heap st' = heap st2 /\
     m_workerThreads st' = m_workerThreads st2 /\
     is_live p st' = is_live p st2 /\
     inbound p st' = inbound p st2 /\
     calls_since st2 st' =
       (if errno st2 =? EBADMSG
        then [outError "Socket::ReadCallback incomplete read!!!"] else []) /\
     count is_free (calls_since st2 st') = O /\
     count is_notification (calls_since st2 st') = O).
Proof.
  intros Hn. split; [|split].
  - intros Hle. simpl. unfold bind. rewrite Hn.
    destruct (Z.ltb_spec 0 n); [lia|done].
  - intros Hlt st2 Hpid. simpl. unfold bind. rewrite Hn.
    destruct (Z.ltb_spec 0 n); [|lia]. by rewrite Hpid.
  - intros Hlt st2 Hpid.
    exists (if errno st2 =? EBADMSG
            then set_calls (cons (outError "Socket::ReadCallback incomplete read!!!")) st2
            else st2).
    split.
    { simpl. unfold bind. rewrite Hn.
      destruct (Z.ltb_spec 0 n); [|lia]. rewrite Hpid.
      unfold gets. by destruct (errno st2 =? EBADMSG). }
    destruct (errno st2 =? EBADMSG).
    + assert (E : calls_since st2
                    (set_calls (cons (outError "Socket::ReadCallback incomplete read!!!")) st2)
                  = [outError "Socket::ReadCallback incomplete read!!!"])
        by (by apply calls_since_app).
      rewrite E. by repeat split.
    + rewrite calls_since_refl. by repeat split.
Qed.

Lemma ReadCallback_on_false_witness :
  let st1 := set_calls (app [unlock (m_readLock 1%positive); lock (m_readLock 1%positive)])
               demo_world in
  let PID := fun _ : positive => ret false : M bool in
  (5 <= 0 -> ReadCallback PID 74 1 1%positive demo_world = Ok tt st1) /\
  (0 < 5 -> forall st2, PID 1%positive st1 = Ok true st2 ->
   ReadCallback PID 74 1 1%positive demo_world = ReadCallback PID 74 0 1%positive st2) /\
  (0 < 5 -> forall st2, PID 1%positive st1 = Ok false st2 ->
   exists st',
     ReadCallback PID 74 1 1%positive demo_world = Ok tt st' /\
     heap st' = heap st2 /\
     m_workerThreads st' = m_workerThreads st2 /\
     is_live 1%positive st' = is_live 1%positive st2 /\
     inbound 1%positive st' = inbound 1%positive st2 /\
     calls_since st2 st' =
       (if errno st2 =? 74
        then [outError "Socket::ReadCallback incomplete read!!!"] else []) /\
     count is_free (calls_since st2 st') = O /\
     count is_notification (calls_since st2 st') = O).
Proof.
  intros st1 PID.
  apply (ReadCallback_on_false PID 74 0%nat 1%positive demo_world 5 st1).
  reflexivity.
Defined.

(** C8 (the code departs from the claim).  The constructor prints
    [addr->sin_port] as it stands, without [ntohs].  For the peer
    127.0.0.1, port 80, on a little-endian host the field reads 20480, and
    the endpoint text is "127.0.0.1:20480"; the address text is right. *)
Theorem remote_endpoint_byte_order :
  exists st',
    Socket_ctor 1%positive 5 (peer_sockaddr LittleEndian 127 0 0 1 80)
      (Some (RemoveSocketOf 0)) (Some 7%positive) (empty_world [] true)
      = Ok tt st' /\
    GetRemoteAddress 1%positive st' = Ok "127.0.0.1" st' /\
    GetRemoteEndpoint 1%positive st' = Ok "127.0.0.1:20480" st' /\
    "127.0.0.1:20480" <> "127.0.0.1:80".
Proof.
  eexists. split; [reflexivity|].
  split; [reflexivity|]. split; [reflexivity|]. discriminate.
Qed.

(** On a little-endian host the text carries the byte-swapped port, for
    every peer. *)
Lemma remote_endpoint_little_endian st this fd a b c d p h bev :
  0 <= p < 65536 ->
  exists st',
    Socket_ctor this fd (peer_sockaddr LittleEndian a b c d p) h bev st = Ok tt st' /\
    GetRemoteEndpoint this st' =
      Ok (inet_ntop {| oct1 := a; oct2 := b; oct3 := c; oct4 := d |}
          +:+ ":" +:+ to_string (bswap16 p)) st'.
Proof.
  intros Hp. eexists. split; [reflexivity|].
  unfold GetRemoteEndpoint. run. unfold to_uint16.
  by rewrite Z.mod_small by lia.
Qed.

(** On a big-endian host the field holds the port itself, and the endpoint
    text carries the decimal port. *)
Lemma remote_endpoint_big_endian st this fd a b c d p h bev :
  0 <= p < 65536 ->
  exists st',
    Socket_ctor this fd (peer_sockaddr BigEndian a b c d p) h bev st = Ok tt st' /\
    GetRemoteEndpoint this st' =
      Ok (inet_ntop {| oct1 := a; oct2 := b; oct3 := c; oct4 := d |}
          +:+ ":" +:+ to_string p) st'.
Proof.
  intros Hp. eexists. split; [reflexivity|].
  unfold GetRemoteEndpoint. run. unfold to_uint16.
  by rewrite Z.mod_small by lia.
Qed.

(** ** Construction of the Listener *)



Lemma count_app f l1 l2 : count f (l1 ++ l2) = (count f l1 + count f l2)%nat.
Proof. induction l1 as [|c l1 IH]; simpl; [done|]. rewrite IH. lia. Qed.

Lemma count_worker_calls n : forall i,
  count is_thread_start (worker_calls n i) = (2 * n)%nat.
Proof. induction n as [|n IH]; intros i; simpl; [done|]. rewrite IH. lia. Qed.







(** ** Load balancing *)

Lemma SelectWorker_loop_least rest : forall done mi ms,
  (Size <$> done) !! mi = Some ms ->
  (forall j y, (Size <$> done) !! j = Some y -> (ms <= y)%nat) ->
  (forall j y, (j < mi)%nat -> (Size <$> done) !! j = Some y -> (ms < y)%nat) ->
  least_loaded (Size <$> (done ++ rest)) (SelectWorker_loop rest (length done) mi ms).
Proof.
  induction rest as [|nt rest IH]; intros done mi ms Hmi Hall Hbefore.
  - simpl. rewrite app_nil_r. by exists ms.
  - assert (Hlt : (mi < length done)%nat).
    { apply lookup_lt_Some in Hmi. by rewrite length_fmap in Hmi. }
    assert (Hsplit : done ++ nt :: rest = (done ++ [nt]) ++ rest)
      by (by rewrite <- app_assoc).
    assert (Hlen : S (length done) = length (done ++ [nt]))
      by (rewrite length_app; simpl; lia).
    simpl. rewrite Hsplit, Hlen.
    destruct (Nat.ltb_spec (Size nt) ms) as [Hsmall|Hbig]; apply IH.
    + rewrite fmap_app, lookup_app_r by (rewrite length_fmap; lia).
      by rewrite length_fmap, Nat.sub_diag.
    + intros j y Hj. rewrite fmap_app in Hj.
      apply lookup_app_Some in Hj as [Hj|[_ Hj]].
      * apply Hall in Hj. lia.
      * destruct (j - length (Size <$> done))%nat; simpl in Hj; [|done].
        injection Hj as <-. lia.
    + intros j y Hjl Hj.
      rewrite fmap_app, lookup_app_l in Hj by (rewrite length_fmap; lia).
      apply Hall in Hj. lia.
    + rewrite fmap_app, lookup_app_l by (rewrite length_fmap; lia). done.
    + intros j y Hj. rewrite fmap_app in Hj.
      apply lookup_app_Some in Hj as [Hj|[_ Hj]].
      * by apply Hall in Hj.
      * destruct (j - length (Size <$> done))%nat; simpl in Hj; [|done].
        injection Hj as <-. lia.
    + intros j y Hjl Hj.
      rewrite fmap_app, lookup_app_l in Hj by (rewrite length_fmap; lia).
      by apply (Hbefore j).
Qed.

(** [SelectWorker] returns the first least loaded worker, whatever the
    loads. *)
Lemma SelectWorker_least st :
  m_workerThreads st <> [] ->
  exists i, SelectWorker st = Ok i st /\ least_loaded (sizes st) i.
Proof.
  intros Hne. unfold SelectWorker, sizes.
  destruct (m_workerThreads st) as [|first rest]; [done|].
  eexists. split; [reflexivity|].
  apply (SelectWorker_loop_least rest [first] 0%nat (Size first)).
  - done.
  - intros [|j] y Hj; simpl in Hj; [|done]. injection Hj as <-. lia.
  - intros j y Hj. lia.
Qed.

(** [AcceptCallback] gives the connection to the selected worker. *)
Lemma AcceptCallback_run st a i x :
  SelectWorker st = Ok i st ->
  sizes st !! i = Some x ->
  exists st',
    AcceptCallback (acc_fd a) (acc_address a) (acc_ptr a) (acc_bev a) st = Ok tt st' /\
    sizes st' = <[i := S x]> (sizes st) /\
    (exists nt, m_workerThreads st !! i = Some nt /\
                m_workerThreads st' !! i
                  = Some {| m_sockets := acc_ptr a :: m_sockets nt;
                            m_closingSockets := m_closingSockets nt;
                            m_pendingShutdown := m_pendingShutdown nt |}).
Proof.
  intros Hsel Hx. unfold sizes in Hx. rewrite list_lookup_fmap in Hx.
  destruct (m_workerThreads st !! i) as [nt|] eqn:Hi; [|done].
  injection Hx as <-.
  unfold AcceptCallback. cbv beta delta [bind]. rewrite Hsel.
  unfold CreateSocket, Socket_ctor. run.
  eexists. split; [reflexivity|]. unfold sizes. simpl.
  split; [by rewrite list_fmap_insert|].
  exists nt. split; [done|]. apply list_lookup_insert_eq.
  by apply lookup_lt_Some in Hi.
Qed.

Lemma spread_length N K : (1 <= N)%nat -> length (spread N K) = N.
Proof.
  intros HN. unfold spread. rewrite length_app, !length_replicate.
  pose proof (Nat.mod_upper_bound K N). lia.
Qed.

Lemma spread_lookup N K j y :
  (1 <= N)%nat -> spread N K !! j = Some y ->
  ((j < K mod N)%nat /\ y = S (K / N)) \/
  ((K mod N <= j < N)%nat /\ y = (K / N)%nat).
Proof.
  intros HN Hj. unfold spread in Hj.
  pose proof (Nat.mod_upper_bound K N).
  apply lookup_app_Some in Hj as [Hj|[Hge Hj]];
    apply lookup_replicate in Hj as [-> Hlt]; rewrite ?length_replicate in *.
  - by left.
  - right. split; [lia|done].
Qed.

Lemma spread_first_least N K i :
  (1 <= N)%nat -> least_loaded (spread N K) i -> i = (K mod N)%nat.
Proof.
  intros HN (x & Hi & Hall & Hbefore).
  assert (Hr : (K mod N < N)%nat) by (apply Nat.mod_upper_bound; lia).
  assert (Hq : spread N K !! (K mod N)%nat = Some (K / N)%nat).
  { unfold spread. rewrite lookup_app_r by (rewrite length_replicate; lia).
    rewrite length_replicate, Nat.sub_diag. apply lookup_replicate_2. lia. }
  pose proof (Hall _ _ Hq) as Hle.
  destruct (spread_lookup _ _ _ _ HN Hi) as [[Hlt ->]|[Hge ->]]; [lia|].
  destruct (decide (i = K mod N)%nat) as [|Hne]; [done|].
  assert (Hgt : (K mod N < i)%nat) by lia.
  pose proof (Hbefore _ _ Hgt Hq). lia.
Qed.

Lemma replicate_snoc_app {A} r (x : A) l :
  replicate r x ++ x :: l = replicate (S r) x ++ l.
Proof. induction r as [|r IH]; [done|]. simpl. f_equal. exact IH. Qed.

Lemma spread_step N K :
  (1 <= N)%nat ->
  <[(K mod N)%nat := S (K / N)]> (spread N K) = spread N (S K).
Proof.
  intros HN.
  assert (Hr : (K mod N < N)%nat) by (apply Nat.mod_upper_bound; lia).
  pose proof (Nat.div_mod_eq K N) as HK.
  set (q := (K / N)%nat) in *. set (r := (K mod N)%nat) in *.
  assert (Hins : <[r := S q]> (replicate r (S q) ++ replicate (N - r) q)
                 = replicate (S r) (S q) ++ replicate (N - S r) q).
  { rewrite insert_app_r_alt by (rewrite length_replicate; lia).
    rewrite length_replicate, Nat.sub_diag.
    replace (N - r)%nat with (S (N - S r)) by lia.
    apply replicate_snoc_app. }
  unfold spread. fold q r. rewrite Hins.
  destruct (decide (S r = N)) as [Hfull|Hpart].
  - assert (Hq' : (S K / N = S q)%nat)
      by (symmetry; apply (Nat.div_unique _ _ _ 0%nat); nia).
    assert (Hr' : (S K mod N = 0)%nat)
      by (symmetry; apply (Nat.mod_unique _ _ (S q)); nia).
    rewrite Hq', Hr', Hfull, Nat.sub_diag, Nat.sub_0_r. simpl.
    by rewrite app_nil_r.
  - assert (Hq' : (S K / N = q)%nat)
      by (symmetry; apply (Nat.div_unique _ _ _ (S r)); nia).
    assert (Hr' : (S K mod N = S r)%nat)
      by (symmetry; apply (Nat.mod_unique _ _ q); nia).
    by rewrite Hq', Hr'.
Qed.

(** From a spread of [K0] connections, the accepts of [conns] end in the
    spread of [K0 + length conns]. *)
Lemma accept_all_spread conns : forall st K0,
  m_workerThreads st <> [] ->
  sizes st = spread (length (m_workerThreads st)) K0 ->
  exists st',
    accept_all conns st = Ok tt st' /\
    length (m_workerThreads st') = length (m_workerThreads st) /\
    sizes st' = spread (length (m_workerThreads st)) (K0 + length conns).
Proof.
  induction conns as [|a conns IH]; intros st K0 Hne Hsp.
  - exists st. simpl. by rewrite Nat.add_0_r.
  - set (N := length (m_workerThreads st)) in *.
    assert (HN : (1 <= N)%nat).
    { subst N. destruct (m_workerThreads st); [done|simpl; lia]. }
    destruct (SelectWorker_least st Hne) as (i & Hsel & Hleast).
    rewrite Hsp in Hleast.
    pose proof (spread_first_least _ _ _ HN Hleast) as ->.
    assert (Hx : sizes st !! (K0 mod N)%nat = Some (K0 / N)%nat).
    { destruct Hleast as (x & Hi & _). rewrite Hsp.
      destruct (spread_lookup _ _ _ _ HN Hi) as [[? _]|[_ ->]]; [lia|done]. }
    destruct (AcceptCallback_run st a _ _ Hsel Hx) as (st1 & E & Hs1 & _).
    assert (Hlen1 : length (m_workerThreads st1) = N).
    { transitivity (length (sizes st1)); [unfold sizes; by rewrite length_fmap|].
      rewrite Hs1, length_insert. unfold sizes. by rewrite length_fmap. }
    destruct (IH st1 (S K0)) as (st' & E' & Hlen & Hs').
    + intros Hnil. rewrite Hnil in Hlen1. simpl in Hlen1. lia.
    + rewrite Hs1, Hsp, Hlen1. by apply spread_step.
    + exists st'. simpl. unfold bind. rewrite E. split; [done|].
      rewrite Hlen, Hlen1. split; [done|].
      rewrite Hs', Hlen1. f_equal. lia.
Qed.

Lemma spread_zero N : spread N 0 = replicate N 0%nat.
Proof.
  unfold spread. rewrite Nat.Div0.mod_0_l, Nat.Div0.div_0_l, Nat.sub_0_r. done.
Qed.

Lemma sizes_empty st :
  Forall (fun nt => m_sockets nt = []) (m_workerThreads st) ->
  sizes st = replicate (length (m_workerThreads st)) 0%nat.
Proof.
  unfold sizes. induction 1 as [|nt l Hnt _ IH]; [done|].
  rewrite fmap_cons, IH. unfold Size. by rewrite Hnt.
Qed.

(** C5.  [N >= 1] workers with empty live lists accept [K] connections one
    after the other.  Each accept selects the first worker whose live count
    is least, and adds the connection to that worker.  At the end the live
    counts are [K mod N] times [K / N + 1] followed by [K / N]: every count
    is the floor [K / N] or the ceiling [(K + N - 1) / N]. *)
Theorem least_loaded_accepts st conns :
  m_workerThreads st <> [] ->
  Forall (fun nt => m_sockets nt = []) (m_workerThreads st) ->
  let N := length (m_workerThreads st) in
  let K := length conns in
  (forall pre a post, conns = pre ++ a :: post ->
   exists st_k i x st_k1,
     accept_all pre st = Ok tt st_k /\
     SelectWorker st_k = Ok i st_k /\
     least_loaded (sizes st_k) i /\
     sizes st_k !! i = Some x /\
     AcceptCallback (acc_fd a) (acc_address a) (acc_ptr a) (acc_bev a) st_k
       = Ok tt st_k1 /\
     sizes st_k1 = <[i := S x]> (sizes st_k)) /\
  exists st',
    accept_all conns st = Ok tt st' /\
    length (sizes st') = N /\
    sizes st' = spread N K /\
    (forall i x, sizes st' !! i = Some x ->
       x = (K / N)%nat \/ x = ((K + N - 1) / N)%nat).
Proof.
  intros Hne Hempty N K.
  assert (HN : (1 <= N)%nat).
  { subst N. destruct (m_workerThreads st); [done|simpl; lia]. }
  assert (H0 : sizes st = spread N 0) by (rewrite spread_zero; by apply sizes_empty).
  split.
  - intros pre a post _.
    destruct (accept_all_spread pre st 0%nat Hne H0) as (st_k & E & Hlen & Hs).
    assert (Hne_k : m_workerThreads st_k <> []).
    { intros Hnil. rewrite Hnil in Hlen. simpl in Hlen. lia. }
    destruct (SelectWorker_least st_k Hne_k) as (i & Hsel & Hleast).
    destruct Hleast as (x & Hx & Hall & Hbefore).
    destruct (AcceptCallback_run st_k a i x Hsel Hx) as (st_k1 & E1 & Hs1 & _).
    exists st_k, i, x, st_k1. repeat split; try done. by exists x.
  - destruct (accept_all_spread conns st 0%nat Hne H0) as (st' & E & Hlen & Hs).
    simpl in Hs. fold N K in Hs.
    exists st'. split; [done|]. split; [by rewrite Hs, spread_length|].
    split; [done|]. intros i x Hx. rewrite Hs in Hx.
    pose proof (Nat.div_mod_eq K N) as HK.
    assert (Hr : (K mod N < N)%nat) by (apply Nat.mod_upper_bound; lia).
    destruct (spread_lookup _ _ _ _ HN Hx) as [[Hlt ->]|[_ ->]]; [right|by left].
    apply (Nat.div_unique _ _ _ (K mod N - 1)%nat); nia.
Qed.

Lemma least_loaded_accepts_witness :
  exists st',
    accept_all eight_connections four_workers = Ok tt st' /\
    sizes st' = [2; 2; 2; 2]%nat.
Proof.
  destruct (least_loaded_accepts four_workers eight_connections)
    as [_ (st' & E & _ & Hs & _)].
  - discriminate.
  - repeat constructor.
  - exists st'. split; [exact E|exact Hs].
Defined.

(** ** The lists of a worker *)

Lemma erase_first_None p l : erase_first p l = None <-> p ∉ l.
Proof.
  induction l as [|i l IH]; simpl.
  - split; [intros _; apply not_elem_of_nil|done].
  - destruct (decide (i = p)) as [->|Hne].
    + split; [done|]. intros H. destruct H. apply list_elem_of_here.
    + destruct (erase_first p l) as [r|]; simpl.
      * split; [done|]. intros H. exfalso. apply not_elem_of_cons in H as [_ H].
        by apply IH in H.
      * split; [|done]. intros _. apply not_elem_of_cons. split; [done|].
        by apply IH.
Qed.

Lemma erase_first_Some p l r : erase_first p l = Some r -> l ≡ₚ p :: r.
Proof.
  revert r. induction l as [|i l IH]; intros r; simpl; [done|].
  destruct (decide (i = p)) as [->|Hne].
  - by intros [= ->].
  - destruct (erase_first p l) as [r'|]; simpl; [|done].
    intros [= <-]. rewrite (IH r' eq_refl). apply Permutation_swap.
Qed.

Lemma erase_first_head p l : erase_first p (p :: l) = Some l.
Proof. simpl. by rewrite decide_True. Qed.

Lemma owned_moved p nt : owned (moved p nt) ≡ₚ owned nt.
Proof.
  unfold moved, owned.
  destruct (erase_first p (m_sockets nt)) as [r|] eqn:E; simpl; [|done].
  apply erase_first_Some in E. rewrite E.
  by rewrite <- Permutation_middle.
Qed.

Lemma closing_moved p nt q :
  q ∈ m_closingSockets (moved p nt) -> q = p \/ q ∈ m_closingSockets nt.
Proof.
  unfold moved. destruct (erase_first p (m_sockets nt)); simpl; [|by right].
  intros H. by apply elem_of_cons in H.
Qed.

Lemma is_detached_true p st :
  is_detached p st = true <-> exists s, heap st !! p = Some s /\ m_bev s = None.
Proof.
  unfold is_detached. destruct (heap st !! p) as [s|]; split.
  - intros H. apply bool_decide_eq_true in H. eauto.
  - intros (s' & [= <-] & H). by apply bool_decide_eq_true.
  - done.
  - by intros (s' & ? & _).
Qed.

(** ** The invariant is kept *)

(** With the same workers and the same heap, a world is as good. *)
Lemma good_frame st st' :
  heap st' = heap st -> m_workerThreads st' = m_workerThreads st ->
  good st -> good st'.
Proof.
  intros Hh Hw [Ht [Hc Hn]]. split; [|split].
  - intros w nt Hnt. rewrite Hw in Hnt. destruct (Ht w nt Hnt) as [Hnd Hin].
    split; [done|]. intros p. rewrite Hin. unfold created_by. by rewrite Hh.
  - intros w nt p Hnt Hp. rewrite Hw in Hnt.
    pose proof (Hc w nt p Hnt Hp) as H. unfold is_detached in *. by rewrite Hh.
  - intros p s Hs. rewrite Hh in Hs. rewrite Hw. by apply (Hn p).
Qed.

(** A store to the [m_bev] of an existing Socket that does not revive a
    detached one. *)
Lemma good_update st st' p s v :
  heap st !! p = Some s ->
  (m_bev s = None -> v = None) ->
  heap st' = <[p := with_bev v s]> (heap st) ->
  m_workerThreads st' = m_workerThreads st ->
  good st -> good st'.
Proof.
  intros Hp Hv Hh Hw [Ht [Hc Hn]].
  assert (Hcb : forall w q, created_by st' w q <-> created_by st w q).
  { intros w q. unfold created_by. rewrite Hh.
    destruct (decide (q = p)) as [->|Hne].
    - rewrite lookup_insert_eq, Hp. split.
      + intros (s' & [= <-] & H). eauto.
      + intros (s' & [= <-] & H). eauto.
    - by rewrite lookup_insert_ne. }
  split; [|split].
  - intros w nt Hnt. rewrite Hw in Hnt. destruct (Ht w nt Hnt) as [Hnd Hin].
    split; [done|]. intros q. by rewrite Hin, Hcb.
  - intros w nt q Hnt Hq. rewrite Hw in Hnt.
    pose proof (Hc w nt q Hnt Hq) as H.
    apply is_detached_true in H as (s' & Hs' & Hb).
    apply is_detached_true. rewrite Hh.
    destruct (decide (q = p)) as [->|Hne].
    + rewrite lookup_insert_eq. exists (with_bev v s). split; [done|].
      simpl. apply Hv. by simplify_eq.
    + rewrite lookup_insert_ne by done. eauto.
  - intros q s' Hs'. rewrite Hh in Hs'. rewrite Hw.
    destruct (decide (q = p)) as [->|Hne].
    + rewrite lookup_insert_eq in Hs'. injection Hs' as <-. simpl. by apply (Hn p).
    + rewrite lookup_insert_ne in Hs' by done. by apply (Hn q).
Qed.

(** [RemoveSocket] of a detached Socket. *)
Lemma good_moved st st' w nt p :
  m_workerThreads st !! w = Some nt ->
  is_detached p st = true ->
  heap st' = heap st ->
  m_workerThreads st' = <[w := moved p nt]> (m_workerThreads st) ->
  good st -> good st'.
Proof.
  intros Hnt Hdet Hh Hw [Ht [Hc Hn]].
  assert (Hlt : (w < length (m_workerThreads st))%nat) by (by apply lookup_lt_Some in Hnt).
  split; [|split].
  - intros w' nt' Hnt'. rewrite Hw in Hnt'.
    destruct (decide (w' = w)) as [->|Hne].
    + rewrite list_lookup_insert_eq in Hnt' by done. injection Hnt' as <-.
      destruct (Ht w nt Hnt) as [Hnd Hin]. rewrite owned_moved.
      split; [done|]. intros q. rewrite owned_moved, Hin.
      unfold created_by. by rewrite Hh.
    + rewrite list_lookup_insert_ne in Hnt' by done.
      destruct (Ht w' nt' Hnt') as [Hnd Hin]. split; [done|].
      intros q. rewrite Hin. unfold created_by. by rewrite Hh.
  - intros w' nt' q Hnt' Hq. rewrite Hw in Hnt'.
    assert (Hsame : forall q, is_detached q st' = is_detached q st)
      by (intros; unfold is_detached; by rewrite Hh).
    rewrite Hsame.
    destruct (decide (w' = w)) as [->|Hne].
    + rewrite list_lookup_insert_eq in Hnt' by done. injection Hnt' as <-.
      apply closing_moved in Hq as [->|Hq]; [done|]. by apply (Hc w nt).
    + rewrite list_lookup_insert_ne in Hnt' by done. by apply (Hc w' nt').
  - intros q s Hs. rewrite Hh in Hs. rewrite Hw, length_insert. by apply (Hn q).
Qed.

Ltac run_in H :=
  cbv beta delta [bind ret emit modify gets lock_guard raise assert throw
                  deref worker store_worker store_m_bev] in H;
  simpl in H.

Ltac split_run H :=
  repeat (simpl in H; try rewrite lookup_insert_eq in H;
          match type of H with
          | context [match heap ?st !! ?p with _ => _ end] =>
              destruct (heap st !! p) eqn:?
          | context [match m_bev ?s with _ => _ end] =>
              destruct (m_bev s) eqn:?
          | context [if ?b then _ else _] => destruct b eqn:?
          end);
  simplify_eq.

(** The operations other than [Close] leave the workers alone, and store at
    most a new stream record in a live Socket. *)
Lemma perform_effect p r st a st' :
  perform p r st = Ok a st' -> r <> do_Close ->
  m_workerThreads st' = m_workerThreads st /\
  (heap st' = heap st \/
   exists s bev v, heap st !! p = Some s /\ m_bev s = Some bev /\
                   heap st' = <[p := with_bev (Some v) s]> (heap st)).
Proof.
  intros H Hr.
  destruct r; try done;
    unfold perform, Read, Write, ReadSkip, InPeek, ReadLengthRemaining, IsClosed in H;
    run_in H; split_run H; simpl; (split; [done|]); eauto 10.
Qed.

Lemma perform_good p r st a st' :
  r <> do_Close -> perform p r st = Ok a st' -> good st -> good st'.
Proof.
  intros Hr H Hg.
  destruct (perform_effect _ _ _ _ _ H Hr) as [Hw [Hh|(s & bev & v & Hp & Hb & Hh)]].
  - by apply (good_frame st).
  - apply (good_update st st' p s (Some v)); try done. intros Hn; by rewrite Hb in Hn.
Qed.

Lemma receive_good p data st st' : receive p data st = Some st' -> good st -> good st'.
Proof.
  unfold receive. intros H Hg.
  destruct (heap st !! p) as [s|] eqn:Hp; [|done].
  destruct (m_bev s) as [bev|] eqn:Hb; [|done]. injection H as <-.
  apply (good_update st _ p s (Some {| bev_ptr := bev_ptr bev; bev_fd := bev_fd bev;
                                       input := input bev ++ data;
                                       output := output bev |})); try done.
  intros Hn; by rewrite Hb in Hn.
Qed.

(** [Close] of a live Socket first makes it detached; what follows in that
    world is the call of the handler and the release of the two guards. *)
Lemma Close_publishes_first st p s bev :
  heap st !! p = Some s -> m_bev s = Some bev ->
  exists st_mid,
    is_detached p st_mid = true /\
    heap st_mid = <[p := with_bev None s]> (heap st) /\
    m_workerThreads st_mid = m_workerThreads st /\
    Close p st =
      bind (match m_closeHandler s with
            | Some h => invoke h p
            | None => ret tt
            end)
           (fun _ => bind (emit (unlock (m_writeLock p)))
                          (fun _ => emit (unlock (m_readLock p)))) st_mid.
Proof.
  intros Hp Hb.
  exists (set_calls (app (rev
            [ lock (m_readLock p); lock (m_writeLock p);
              bufferevent_lock (Some (bev_ptr bev));
              bufferevent_disable (Some (bev_ptr bev));
              bufferevent_setcb (Some (bev_ptr bev)) false false;
              bufferevent_unlock None; bufferevent_free (Some (bev_ptr bev)) ]))
            (set_heap (insert p (with_bev None s)) st)).
  split; [|split; [done|split; [done|]]].
  - apply is_detached_true. simpl. rewrite lookup_insert_eq. eauto.
  - unfold Close. run.
    destruct (m_closeHandler s) as [h|]; [|done].
    lazymatch goal with
    | |- match match ?x with _ => _ end with _ => _ end = match ?y with _ => _ end =>
        change y with x; destruct x as [[] ?|? ?]; reflexivity
    end.
Qed.

Lemma Close_good p st st' : Close p st = Ok tt st' -> good st -> good st'.
Proof.
  intros H Hg.
  destruct (heap st !! p) as [s|] eqn:Hp; [|by rewrite Close_dangling in H].
  destruct (m_bev s) as [bev|] eqn:Hb.
  - assert (Hup : forall st1, heap st1 = <[p := with_bev None s]> (heap st) ->
                    m_workerThreads st1 = m_workerThreads st -> good st1).
    { intros st1 Hh Hw. by apply (good_update st st1 p s None). }
    destruct (m_closeHandler s) as [[w]|] eqn:Hh.
    + destruct (m_workerThreads st !! w) as [nt|] eqn:Hw.
      * rewrite (Close_live _ _ _ _ _ _ Hp Hb Hh Hw) in H. injection H as <-.
        apply (good_moved (set_heap (insert p (with_bev None s)) st) _ w nt p);
          try done.
        -- apply is_detached_true. simpl. rewrite lookup_insert_eq. eauto.
        -- by apply Hup.
      * destruct (Close_live_dangling _ _ _ _ _ Hp Hb Hh Hw) as [st1 E].
        by rewrite E in H.
    + rewrite (Close_live_no_handler _ _ _ _ Hp Hb Hh) in H. injection H as <-.
      by apply Hup.
  - rewrite (Close_detached _ _ _ Hp Hb) in H. by injection H as <-.
Qed.

Lemma EventCallback_good bev events ctx st st' :
  EventCallback bev events ctx st = Ok tt st' -> good st -> good st'.
Proof.
  unfold EventCallback. intros H Hg. run_in H.
  destruct (heap st !! ctx) as [s|] eqn:Hp; [|done]. simpl in H.
  destruct (bool_decide (bevp (m_bev s) = Some bev)); [|done]. simpl in H.
  destruct (negb (Z.land events (Z.lor BEV_EVENT_EOF BEV_EVENT_ERROR) =? 0)).
  - apply Close_good in H; [done|]. by apply (good_frame st).
  - injection H as <-. by apply (good_frame st).
Qed.

(** *** CreateSocket *)

Lemma CreateSocket_run st w fd address p bev nt :
  m_workerThreads st !! w = Some nt ->
  CreateSocket w fd address p bev st =
    Ok tt {| heap := <[p := new_Socket fd address (Some (RemoveSocketOf w)) bev]> (heap st);
             m_workerThreads := <[w := with_live p nt]> (m_workerThreads st);
             errno := errno st;
             calls := rev [ lock (m_socketLock w); bufferevent_socket_new fd bev;
                            bufferevent_setcb bev true true; bufferevent_enable bev;
                            unlock (m_socketLock w) ] ++ calls st;
             event_base_supply := event_base_supply st;
             bind_supply := bind_supply st |}.
Proof. intros Hw. unfold CreateSocket, Socket_ctor. by run. Qed.

Lemma CreateSocket_dangling st w fd address p bev :
  m_workerThreads st !! w = None ->
  exists st', CreateSocket w fd address p bev st = Fault Undefined st'.
Proof. intros Hw. unfold CreateSocket, Socket_ctor. run. eauto. Qed.

Lemma CreateSocket_good st w fd address p bev st' :
  heap st !! p = None ->
  CreateSocket w fd address p bev st = Ok tt st' -> good st -> good st'.
Proof.
  intros Hfresh H [Ht [Hc Hn]].
  destruct (m_workerThreads st !! w) as [nt|] eqn:Hw.
  2:{ destruct (CreateSocket_dangling st w fd address p bev Hw) as [st1 E].
      by rewrite E in H. }
  rewrite (CreateSocket_run _ _ _ _ _ _ _ Hw) in H. injection H as <-.
  assert (Hlt : (w < length (m_workerThreads st))%nat) by (by apply lookup_lt_Some in Hw).
  assert (Hnew : forall w' nt', m_workerThreads st !! w' = Some nt' -> p ∉ owned nt').
  { intros w' nt' Hnt' Hin. apply (Ht w' nt' Hnt') in Hin as (s & Hs & _).
    by rewrite Hfresh in Hs. }
  split; [|split].
  - intros w' nt' Hnt'. simpl in Hnt'.
    destruct (decide (w' = w)) as [->|Hne].
    + rewrite list_lookup_insert_eq in Hnt' by done. injection Hnt' as <-.
      destruct (Ht w nt Hw) as [Hnd Hin]. split.
      * unfold owned, with_live. simpl. apply NoDup_cons. split; [|done].
        by apply (Hnew w nt).
      * intros q. unfold owned, with_live, created_by. simpl.
        destruct (decide (q = p)) as [->|Hqp].
        -- rewrite lookup_insert_eq. split; [eauto|]. intros _. apply list_elem_of_here.
        -- rewrite lookup_insert_ne by done. rewrite elem_of_cons.
           specialize (Hin q). unfold owned, created_by in Hin. rewrite <- Hin.
           split; [by intros [?|?]|by right].
    + rewrite list_lookup_insert_ne in Hnt' by done.
      destruct (Ht w' nt' Hnt') as [Hnd Hin]. split; [done|].
      intros q. rewrite Hin. unfold created_by. simpl.
      destruct (decide (q = p)) as [->|Hqp].
      * rewrite lookup_insert_eq, Hfresh. split.
        -- by intros (s & ? & _).
        -- intros (s & [= <-] & Hh). simpl in Hh. congruence.
      * by rewrite lookup_insert_ne.
  - intros w' nt' q Hnt' Hq. simpl in Hnt'.
    assert (Hold : exists nt0, m_workerThreads st !! w' = Some nt0 /\ q ∈ m_closingSockets nt0).
    { destruct (decide (w' = w)) as [->|Hne].
      - rewrite list_lookup_insert_eq in Hnt' by done. injection Hnt' as <-. eauto.
      - rewrite list_lookup_insert_ne in Hnt' by done. eauto. }
    destruct Hold as (nt0 & Hnt0 & Hq0).
    pose proof (Hc w' nt0 q Hnt0 Hq0) as Hdet.
    apply is_detached_true in Hdet as (s & Hs & Hb).
    apply is_detached_true. simpl.
    rewrite lookup_insert_ne; [eauto|]. intros ->. by rewrite Hfresh in Hs.
  - intros q s Hs. simpl in Hs. simpl. rewrite length_insert.
    destruct (decide (q = p)) as [->|Hne].
    + rewrite lookup_insert_eq in Hs. injection Hs as <-. by exists w.
    + rewrite lookup_insert_ne in Hs by done. by apply (Hn q).
Qed.

Lemma AcceptCallback_good fd address p bev st st' :
  heap st !! p = None ->
  AcceptCallback fd address p bev st = Ok tt st' -> good st -> good st'.
Proof.
  intros Hfresh H Hg. unfold AcceptCallback, bind, SelectWorker in H.
  destruct (m_workerThreads st); [done|].
  by apply (CreateSocket_good _ _ _ _ _ _ _ Hfresh H).
Qed.

(** *** The cleanup pass *)

Lemma is_detached_ext q st st' :
  heap st' !! q = heap st !! q -> is_detached q st' = is_detached q st.
Proof. intros H. unfold is_detached. by rewrite H. Qed.

Lemma IsClosed_detached st p s :
  heap st !! p = Some s -> m_bev s = None -> IsClosed p st = Ok true st.
Proof. intros Hp Hb. unfold IsClosed. by run. Qed.

Lemma IsClosed_live st p s bev :
  heap st !! p = Some s -> m_bev s = Some bev ->
  IsClosed p st =
    Ok false (set_calls (app [unlock (m_readLock p); lock (m_readLock p)]) st).
Proof. intros Hp Hb. unfold IsClosed. by run. Qed.

(** The destructor of a detached Socket passes its assertion and releases
    the object. *)
Lemma Socket_dtor_detached st p s :
  heap st !! p = Some s -> m_bev s = None ->
  Socket_dtor p st =
    Ok tt (set_heap (delete p) (set_calls (cons (delete_Socket p)) st)).
Proof.
  intros Hp Hb. unfold Socket_dtor. cbv beta delta [bind].
  rewrite (IsClosed_detached _ _ _ Hp Hb). reflexivity.
Qed.

(** The destructor of a live Socket fails its assertion. *)
Lemma Socket_dtor_live st p s bev :
  heap st !! p = Some s -> m_bev s = Some bev ->
  exists st', Socket_dtor p st = Fault AssertionFailed st'.
Proof.
  intros Hp Hb. unfold Socket_dtor. cbv beta delta [bind].
  rewrite (IsClosed_live _ _ _ _ Hp Hb). simpl. eauto.
Qed.

(** The sweep over a list of distinct existing Sockets: the detached ones
    are destroyed, the others are kept, in order. *)
Lemma sweep_run l : forall st,
  NoDup l ->
  (forall p, p ∈ l -> is_Some (heap st !! p)) ->
  exists r st',
    sweep l st = Ok r st' /\
    m_workerThreads st' = m_workerThreads st /\
    sublist r l /\
    (forall q, q ∈ r <-> q ∈ l /\ is_detached q st = false) /\
    (forall q, q ∈ l -> is_detached q st = true -> heap st' !! q = None) /\
    (forall q, ~ (q ∈ l /\ is_detached q st = true) -> heap st' !! q = heap st !! q).
Proof.
  induction l as [|p l IH]; intros st Hnd Hal.
  - exists [], st. split; [done|]. split; [done|]. split; [done|].
    split; [|split; [|done]].
    + intros q. split; [by intros ?%elem_of_nil|by intros [?%elem_of_nil _]].
    + by intros q ?%elem_of_nil.
  - apply NoDup_cons in Hnd as [Hpl Hnd].
    destruct (Hal p) as [s Hp]; [apply list_elem_of_here|].
    destruct (m_bev s) as [bev|] eqn:Hb.
    + (* live: kept *)
      set (st1 := set_calls (app [unlock (m_readLock p); lock (m_readLock p)]) st).
      destruct (IH st1 Hnd) as (r & st' & E & Hw & Hsub & Hin & Hgone & Hkept).
      { intros q Hq. apply Hal. by apply list_elem_of_further. }
      assert (Hopen : is_detached p st = false).
      { unfold is_detached. rewrite Hp. apply bool_decide_eq_false. by rewrite Hb. }
      exists (p :: r), st'. split.
      { simpl. cbv beta delta [bind]. rewrite (IsClosed_live _ _ _ _ Hp Hb).
        fold st1. by rewrite E. }
      split; [done|]. split; [by apply sublist_skip|].
      split; [|split].
      * intros q. rewrite !elem_of_cons, Hin. split.
        -- intros [->|[? ?]]; [by split; [left|]|by split; [right|]].
        -- intros [[->|?] ?]; [by left|by right].
      * intros q Hq Hd. apply elem_of_cons in Hq as [->|Hq]; [congruence|].
        by apply Hgone.
      * intros q Hq. rewrite Hkept; [done|].
        intros [Hq1 Hq2]. apply Hq. split; [by apply list_elem_of_further|done].
    + (* detached: destroyed *)
      set (st1 := set_heap (delete p) (set_calls (cons (delete_Socket p)) st)).
      assert (Hsame : forall q, q <> p -> heap st1 !! q = heap st !! q)
        by (intros q Hq; simpl; by rewrite lookup_delete_ne).
      destruct (IH st1 Hnd) as (r & st' & E & Hw & Hsub & Hin & Hgone & Hkept).
      { intros q Hq. rewrite Hsame; [apply Hal; by apply list_elem_of_further|].
        by intros ->. }
      assert (Hdet : is_detached p st = true).
      { apply is_detached_true. eauto. }
      exists r, st'. split.
      { simpl. cbv beta delta [bind]. rewrite (IsClosed_detached _ _ _ Hp Hb).
        rewrite (Socket_dtor_detached _ _ _ Hp Hb). fold st1. by rewrite E. }
      split; [done|]. split; [by apply sublist_cons|].
      split; [|split].
      * intros q. rewrite Hin, elem_of_cons. split.
        -- intros [Hq Hd]. split; [by right|].
           rewrite <- Hd. symmetry. apply is_detached_ext, Hsame. by intros ->.
        -- intros [[->|Hq] Hd]; [congruence|]. split; [done|].
           rewrite <- Hd. apply is_detached_ext, Hsame. by intros ->.
      * intros q Hq Hd. apply elem_of_cons in Hq as [->|Hq].
        -- rewrite Hkept; [simpl; by rewrite lookup_delete_eq|]. by intros [? _].
        -- apply Hgone; [done|]. rewrite <- Hd. apply is_detached_ext, Hsame.
           by intros ->.
      * intros q Hq.
        assert (Hqp : q <> p).
        { intros ->. apply Hq. split; [apply list_elem_of_here|done]. }
        rewrite Hkept, Hsame; [done|done|].
        intros [Hq1 Hq2]. apply Hq. split; [by apply list_elem_of_further|].
        rewrite <- Hq2. symmetry. by apply is_detached_ext, Hsame.
Qed.

Lemma created_by_unique st w w' p : created_by st w p -> created_by st w' p -> w = w'.
Proof. intros (s & Hs & Hh) (s' & Hs' & Hh'). congruence. Qed.

Lemma tidy_closing_NoDup st w nt :
  tidy st -> m_workerThreads st !! w = Some nt -> NoDup (m_closingSockets nt).
Proof. intros Ht Hw. destruct (Ht w nt Hw) as [Hnd _]. by apply NoDup_app in Hnd as (_ & _ & ?). Qed.

Lemma tidy_owned_alive st w nt p :
  tidy st -> m_workerThreads st !! w = Some nt -> p ∈ owned nt ->
  is_Some (heap st !! p).
Proof.
  intros Ht Hw Hp. destruct (Ht w nt Hw) as [_ Hin].
  apply Hin in Hp as (s & Hs & _). eauto.
Qed.

Lemma SocketCleanupPass_dangling st w :
  m_workerThreads st !! w = None ->
  exists st', SocketCleanupPass w st = Fault Undefined st'.
Proof. intros Hw. unfold SocketCleanupPass. run. eauto. Qed.

(** One pass of the cleanup thread of an existing worker, in a tidy world:
    it returns; the detached Sockets of the closing list are destroyed and
    leave the list, the others stay; nothing else changes in the heap. *)
Lemma SocketCleanupPass_run st w nt :
  tidy st -> m_workerThreads st !! w = Some nt ->
  exists r st',
    SocketCleanupPass w st = Ok tt st' /\
    m_workerThreads st' = <[w := with_closing r nt]> (m_workerThreads st) /\
    sublist r (m_closingSockets nt) /\
    (forall q, q ∈ r <-> q ∈ m_closingSockets nt /\ is_detached q st = false) /\
    (forall q, q ∈ m_closingSockets nt -> is_detached q st = true ->
               heap st' !! q = None) /\
    (forall q, ~ (q ∈ m_closingSockets nt /\ is_detached q st = true) ->
               heap st' !! q = heap st !! q).
Proof.
  intros Ht Hw.
  set (st0 := set_calls (cons (lock (m_closingSocketLock w))) st).
  destruct (sweep_run (m_closingSockets nt) st0) as (r & st1 & E & Hw1 & Hsub & Hin & Hgone & Hkept).
  { by apply (tidy_closing_NoDup st w). }
  { intros p Hp. apply (tidy_owned_alive st w nt); [done|done|].
    unfold owned. apply elem_of_app. by right. }
  exists r, (set_calls (cons (unlock (m_closingSocketLock w)))
               (set_workers (fun l => <[w := with_closing r nt]> l) st1)).
  split.
  { unfold SocketCleanupPass. run. fold st0. rewrite E. simpl.
    rewrite Hw1. simpl. by rewrite Hw. }
  simpl. rewrite Hw1. split; [done|]. split; [done|].
  split; [exact Hin|]. split; [exact Hgone|exact Hkept].
Qed.

Lemma SocketCleanupPass_good w st st' :
  SocketCleanupPass w st = Ok tt st' -> good st -> good st'.
Proof.
  intros H [Ht [Hc Hn]].
  destruct (m_workerThreads st !! w) as [nt|] eqn:Hw.
  2:{ destruct (SocketCleanupPass_dangling st w Hw) as [st1 E]. by rewrite E in H. }
  destruct (SocketCleanupPass_run st w nt Ht Hw)
    as (r & st1 & E & Hw1 & Hsub & Hin & Hgone & Hkept).
  rewrite E in H. injection H as <-.
  assert (Hlt : (w < length (m_workerThreads st))%nat) by (by apply lookup_lt_Some in Hw).
  destruct (Ht w nt Hw) as [Hnd Hown].
  assert (Hr : r = []).
  { destruct r as [|q r]; [done|]. exfalso.
    destruct (Hin q) as [Hq _]. destruct Hq as [Hq Hopen]; [apply list_elem_of_here|].
    rewrite (Hc w nt q Hw Hq) in Hopen. done. }
  assert (Hother : forall w' nt' q, w' <> w -> m_workerThreads st !! w' = Some nt' ->
                     created_by st w' q -> heap st1 !! q = heap st !! q).
  { intros w' nt' q Hne Hnt' Hcb. apply Hkept. intros [Hq _].
    apply Hne. apply (created_by_unique st w' w q Hcb).
    apply Hown. unfold owned. apply elem_of_app. by right. }
  split; [|split].
  - intros w' nt' Hnt'. rewrite Hw1 in Hnt'.
    destruct (decide (w' = w)) as [->|Hne].
    + rewrite list_lookup_insert_eq in Hnt' by done. injection Hnt' as <-.
      split.
      * unfold owned, with_closing. simpl. rewrite Hr, app_nil_r.
        by apply NoDup_app in Hnd as (? & _ & _).
      * intros q. unfold owned, with_closing. simpl. rewrite Hr, app_nil_r.
        split.
        -- intros Hq. assert (Hq' : q ∈ owned nt) by (apply elem_of_app; by left).
           apply Hown in Hq' as (s & Hs & Hh). exists s. split; [|done].
           rewrite Hkept; [done|]. intros [Hqc _].
           apply NoDup_app in Hnd as (_ & Hdis & _). by apply (Hdis q).
        -- intros (s & Hs & Hh).
           destruct (decide (q ∈ m_closingSockets nt)) as [Hqc|Hqc].
           ++ rewrite (Hgone q Hqc (Hc w nt q Hw Hqc)) in Hs. done.
           ++ rewrite Hkept in Hs by (by intros [? _]).
              assert (Hq' : q ∈ owned nt) by (apply Hown; exists s; eauto).
              apply elem_of_app in Hq' as [?|?]; done.
    + rewrite list_lookup_insert_ne in Hnt' by done.
      destruct (Ht w' nt' Hnt') as [Hnd' Hown']. split; [done|].
      intros q. rewrite Hown'. split.
      * intros Hcb. pose proof (Hother w' nt' q Hne Hnt' Hcb) as Hsame.
        destruct Hcb as (s & Hs & Hh). exists s. by rewrite Hsame.
      * intros (s & Hs & Hh).
        destruct (decide (q ∈ m_closingSockets nt)) as [Hqc|Hqc].
        -- rewrite (Hgone q Hqc (Hc w nt q Hw Hqc)) in Hs. done.
        -- rewrite Hkept in Hs by (by intros [? _]). exists s. eauto.
  - intros w' nt' q Hnt' Hq. rewrite Hw1 in Hnt'.
    destruct (decide (w' = w)) as [->|Hne].
    + rewrite list_lookup_insert_eq in Hnt' by done. injection Hnt' as <-.
      simpl in Hq. rewrite Hr in Hq. by apply elem_of_nil in Hq.
    + rewrite list_lookup_insert_ne in Hnt' by done.
      rewrite (is_detached_ext q st); [by apply (Hc w' nt')|].
      simpl. apply (Hother w' nt' q Hne Hnt').
      destruct (Ht w' nt' Hnt') as [_ Hown']. apply Hown'.
      unfold owned. apply elem_of_app. by right.
  - intros q s Hs. rewrite Hw1, length_insert. apply (Hn q).
    destruct (decide (q ∈ m_closingSockets nt)) as [Hqc|Hqc].
    + rewrite (Hgone q Hqc (Hc w nt q Hw Hqc)) in Hs. done.
    + by rewrite Hkept in Hs by (by intros [? _]).
Qed.

(** *** The destructor of a worker *)

Lemma worker_inv st w nt st0 :
  worker w st = Ok nt st0 -> st0 = st /\ m_workerThreads st !! w = Some nt.
Proof.
  unfold worker. destruct (m_workerThreads st !! w); [|done].
  by intros [= -> ->].
Qed.

(** [erase(begin())] on a detached front Socket. *)
Lemma good_erase_front st st' w nt front rest :
  m_workerThreads st !! w = Some nt ->
  m_sockets nt = front :: rest ->
  heap st' = delete front (heap st) ->
  m_workerThreads st' = <[w := with_sockets rest nt]> (m_workerThreads st) ->
  good st -> good st'.
Proof.
  intros Hw Hl Hh Hw' [Ht [Hc Hn]].
  assert (Hlt : (w < length (m_workerThreads st))%nat) by (by apply lookup_lt_Some in Hw).
  destruct (Ht w nt Hw) as [Hnd Hown].
  unfold owned in Hnd, Hown. rewrite Hl in Hnd, Hown. simpl in Hnd.
  apply NoDup_cons in Hnd as [Hfresh Hnd].
  assert (Hfront : created_by st w front).
  { apply Hown. apply list_elem_of_here. }
  assert (Hcb : forall w' q, q <> front -> created_by st' w' q <-> created_by st w' q).
  { intros w' q Hq. unfold created_by. by rewrite Hh, lookup_delete_ne. }
  assert (Hgone : forall w', ~ created_by st' w' front).
  { intros w' (s & Hs & _). by rewrite Hh, lookup_delete_eq in Hs. }
  split; [|split].
  - intros w' nt' Hnt'. rewrite Hw' in Hnt'.
    destruct (decide (w' = w)) as [->|Hne].
    + rewrite list_lookup_insert_eq in Hnt' by done. injection Hnt' as <-.
      unfold owned, with_sockets. simpl. split; [done|].
      intros q. destruct (decide (q = front)) as [->|Hq].
      * split; [done|]. intros H. by apply Hgone in H.
      * rewrite (Hcb w q Hq), <- Hown. simpl. rewrite elem_of_cons.
        split; [by right|by intros [?|?]].
    + rewrite list_lookup_insert_ne in Hnt' by done.
      destruct (Ht w' nt' Hnt') as [Hnd' Hown']. split; [done|].
      intros q. rewrite Hown'. destruct (decide (q = front)) as [->|Hq].
      * split.
        -- intros H. destruct Hne. by apply (created_by_unique st w' w front).
        -- intros H. by apply Hgone in H.
      * by rewrite Hcb.
  - intros w' nt' q Hnt' Hq. rewrite Hw' in Hnt'.
    assert (Hold : exists nt0, m_workerThreads st !! w' = Some nt0 /\
                     q ∈ m_closingSockets nt0 /\ q <> front).
    { destruct (decide (w' = w)) as [->|Hne].
      - rewrite list_lookup_insert_eq in Hnt' by done. injection Hnt' as <-.
        simpl in Hq. exists nt. split; [done|]. split; [done|].
        intros ->. apply Hfresh. apply elem_of_app. by right.
      - rewrite list_lookup_insert_ne in Hnt' by done.
        exists nt'. split; [done|]. split; [done|]. intros ->.
        destruct Hne. apply (created_by_unique st w' w front); [|done].
        destruct (Ht w' nt' Hnt') as [_ Hown']. apply Hown'.
        unfold owned. apply elem_of_app. by right. }
    destruct Hold as (nt0 & Hnt0 & Hq0 & Hqf).
    rewrite (is_detached_ext q st); [by apply (Hc w' nt0)|].
    by rewrite Hh, lookup_delete_ne.
  - intros q s Hs. rewrite Hh in Hs. rewrite Hw', length_insert.
    apply lookup_delete_Some in Hs as [_ Hs]. by apply (Hn q).
Qed.

(** A change of the shutdown flag. *)
Lemma good_shutdown st st' w nt :
  m_workerThreads st !! w = Some nt ->
  heap st' = heap st ->
  m_workerThreads st' = <[w := with_shutdown nt]> (m_workerThreads st) ->
  good st -> good st'.
Proof.
  intros Hw Hh Hw' [Ht [Hc Hn]].
  assert (Hlt : (w < length (m_workerThreads st))%nat) by (by apply lookup_lt_Some in Hw).
  assert (Hold : forall w' nt', m_workerThreads st' !! w' = Some nt' ->
            exists nt0, m_workerThreads st !! w' = Some nt0 /\
              m_sockets nt' = m_sockets nt0 /\ m_closingSockets nt' = m_closingSockets nt0).
  { intros w' nt' Hnt'. rewrite Hw' in Hnt'.
    destruct (decide (w' = w)) as [->|Hne].
    - rewrite list_lookup_insert_eq in Hnt' by done. injection Hnt' as <-. eauto.
    - rewrite list_lookup_insert_ne in Hnt' by done. eauto. }
  split; [|split].
  - intros w' nt' Hnt'. destruct (Hold w' nt' Hnt') as (nt0 & Hnt0 & Hl & Hcl).
    destruct (Ht w' nt0 Hnt0) as [Hnd Hown]. unfold owned in *.
    rewrite Hl, Hcl. split; [done|]. intros q. rewrite Hown.
    unfold created_by. by rewrite Hh.
  - intros w' nt' q Hnt' Hq. destruct (Hold w' nt' Hnt') as (nt0 & Hnt0 & Hl & Hcl).
    rewrite Hcl in Hq. rewrite (is_detached_ext q st) by (by rewrite Hh).
    by apply (Hc w' nt0).
  - intros q s Hs. rewrite Hh in Hs. rewrite Hw', length_insert. by apply (Hn q).
Qed.

(** One turn of the loop of the destructor on a non-empty live list: the
    front Socket leaves the live list, destroyed if it was detached, closed
    and moved to the closing list otherwise. *)
Lemma close_front st w nt front rest :
  good st -> m_workerThreads st !! w = Some nt -> m_sockets nt = front :: rest ->
  exists c st1 st2,
    IsClosed front st = Ok c st1 /\
    (if c then bind (store_worker w (with_sockets rest nt)) (fun _ => Socket_dtor front)
     else Close front) st1 = Ok tt st2 /\
    good st2 /\
    exists nt2, m_workerThreads st2 !! w = Some nt2 /\ m_sockets nt2 = rest /\
                m_pendingShutdown nt2 = m_pendingShutdown nt.
Proof.
  intros Hg Hw Hl. pose proof Hg as [Ht [Hc Hn]].
  assert (Hlt : (w < length (m_workerThreads st))%nat) by (by apply lookup_lt_Some in Hw).
  assert (Hcb : created_by st w front).
  { destruct (Ht w nt Hw) as [_ Hown]. apply Hown. unfold owned. rewrite Hl.
    apply list_elem_of_here. }
  destruct Hcb as (s & Hs & Hh).
  destruct (m_bev s) as [bev|] eqn:Hb.
  - set (st1 := set_calls (app [unlock (m_readLock front); lock (m_readLock front)]) st).
    assert (Hg1 : good st1) by (by apply (good_frame st)).
    pose proof (Close_live st1 front s bev w nt Hs Hb Hh Hw) as E.
    exists false, st1, (closed_world front s (bev_ptr bev) w nt st1).
    split; [by apply (IsClosed_live _ _ _ _ Hs Hb)|]. split; [done|].
    split; [by apply (Close_good front st1)|].
    exists (moved front nt). simpl. split; [by apply list_lookup_insert_eq|].
    unfold moved. by rewrite Hl, erase_first_head.
  - set (st2 := set_heap (delete front) (set_calls (cons (delete_Socket front))
                  (set_workers (fun l => <[w := with_sockets rest nt]> l) st))).
    exists true, st, st2.
    split; [by apply (IsClosed_detached _ _ _ Hs Hb)|]. split.
    { cbv beta iota delta [bind store_worker modify].
      by rewrite (Socket_dtor_detached _ front s). }
    split; [by apply (good_erase_front st st2 w nt front rest)|].
    exists (with_sockets rest nt). simpl. split; [by apply list_lookup_insert_eq|done].
Qed.

Lemma close_all_unfold fuel w st nt front rest c st1 st2 :
  m_workerThreads st !! w = Some nt -> m_sockets nt = front :: rest ->
  IsClosed front st = Ok c st1 ->
  (if c then bind (store_worker w (with_sockets rest nt)) (fun _ => Socket_dtor front)
   else Close front) st1 = Ok tt st2 ->
  close_all (S fuel) w st = close_all fuel w st2.
Proof.
  intros Hw Hl Hc H. simpl. cbv beta delta [bind]. rewrite (worker_Some _ _ _ Hw), Hl, Hc.
  destruct c.
  - unfold with_sockets in H. cbv beta delta [bind] in H.
    destruct (store_worker w _ st1) as [[] st1'|]; [|done]. by rewrite H.
  - by rewrite H.
Qed.

Lemma close_all_empty fuel w st nt :
  m_workerThreads st !! w = Some nt -> m_sockets nt = [] ->
  close_all (S fuel) w st = Ok tt st.
Proof.
  intros Hw Hl. simpl. cbv beta delta [bind]. by rewrite (worker_Some _ _ _ Hw), Hl.
Qed.

Lemma close_all_dangling fuel w st :
  m_workerThreads st !! w = None -> close_all (S fuel) w st = Fault Undefined st.
Proof. intros Hw. simpl. cbv beta delta [bind worker]. by rewrite Hw. Qed.

(** However long the loop is allowed to run, if it returns the world is good
    and the live list of the worker is empty. *)
Lemma close_all_good fuel w : forall st st',
  close_all fuel w st = Ok tt st' -> good st ->
  good st' /\
  exists nt nt', m_workerThreads st !! w = Some nt /\
                 m_workerThreads st' !! w = Some nt' /\ m_sockets nt' = [] /\
                 m_pendingShutdown nt' = m_pendingShutdown nt.
Proof.
  induction fuel as [|fuel IH]; intros st st' H Hg; [done|].
  destruct (m_workerThreads st !! w) as [nt|] eqn:Hw;
    [|by rewrite close_all_dangling in H].
  destruct (m_sockets nt) as [|front rest] eqn:Hl.
  - rewrite (close_all_empty _ _ _ _ Hw Hl) in H. injection H as <-.
    split; [done|]. by exists nt, nt.
  - destruct (close_front st w nt front rest Hg Hw Hl)
      as (c & st1 & st2 & Hc & Hstep & Hg2 & nt2 & Hw2 & Hl2 & Hf2).
    rewrite (close_all_unfold _ _ _ _ _ _ _ _ _ Hw Hl Hc Hstep) in H.
    destruct (IH st2 st' H Hg2) as (Hg' & nt2' & nt' & Hw2' & Hw' & Hl' & Hf').
    split; [done|]. exists nt, nt'. repeat split; try done.
    rewrite Hw2 in Hw2'. injection Hw2' as <-. congruence.
Qed.

(** With more fuel than live Sockets, the loop returns. *)
Lemma close_all_returns fuel w : forall st nt,
  good st -> m_workerThreads st !! w = Some nt ->
  (length (m_sockets nt) < fuel)%nat ->
  exists st', close_all fuel w st = Ok tt st'.
Proof.
  induction fuel as [|fuel IH]; intros st nt Hg Hw Hlen; [lia|].
  destruct (m_sockets nt) as [|front rest] eqn:Hl.
  - exists st. by apply (close_all_empty _ _ _ nt).
  - destruct (close_front st w nt front rest Hg Hw Hl)
      as (c & st1 & st2 & Hc & Hstep & Hg2 & nt2 & Hw2 & Hl2 & Hf2).
    rewrite (close_all_unfold _ _ _ _ _ _ _ _ _ Hw Hl Hc Hstep).
    apply (IH st2 nt2 Hg2 Hw2). rewrite Hl2. simpl in Hlen. lia.
Qed.

(** In a good world a pass destroys the whole closing list. *)
Lemma SocketCleanupPass_all st w nt :
  good st -> m_workerThreads st !! w = Some nt ->
  exists st',
    SocketCleanupPass w st = Ok tt st' /\ good st' /\
    m_workerThreads st' !! w = Some (with_closing [] nt) /\
    (forall q, q ∈ m_closingSockets nt -> heap st' !! q = None) /\
    (forall q, q ∉ m_closingSockets nt -> heap st' !! q = heap st !! q).
Proof.
  intros Hg Hw. pose proof Hg as [Ht [Hc Hn]].
  destruct (SocketCleanupPass_run st w nt Ht Hw)
    as (r & st1 & E & Hw1 & Hsub & Hin & Hgone & Hkept).
  assert (Hr : r = []).
  { destruct r as [|q r]; [done|]. exfalso.
    destruct (Hin q) as [Hq _]. destruct Hq as [Hq Hopen]; [apply list_elem_of_here|].
    rewrite (Hc w nt q Hw Hq) in Hopen. done. }
  subst r. exists st1. split; [done|].
  split; [by apply (SocketCleanupPass_good w st)|].
  split; [|split].
  - rewrite Hw1. apply list_lookup_insert_eq. by apply lookup_lt_Some in Hw.
  - intros q Hq. apply Hgone; [done|]. by apply (Hc w nt).
  - intros q Hq. apply Hkept. by intros [? _].
Qed.

Lemma SocketCleanupWork_dangling fuel w st :
  m_workerThreads st !! w = None -> SocketCleanupWork (S fuel) w st = Fault Undefined st.
Proof. intros Hw. simpl. cbv beta delta [bind worker]. by rewrite Hw. Qed.

Lemma SocketCleanupWork_unfold fuel w st nt :
  m_workerThreads st !! w = Some nt ->
  SocketCleanupWork (S fuel) w st =
    if negb (m_pendingShutdown nt) || negb (is_nil (m_closingSockets nt))
    then bind (SocketCleanupPass w) (fun _ => SocketCleanupWork fuel w) st
    else Ok tt st.
Proof.
  intros Hw. simpl. cbv beta delta [bind]. rewrite (worker_Some _ _ _ Hw).
  by destruct (negb (m_pendingShutdown nt) || negb (is_nil (m_closingSockets nt))).
Qed.

(** If the cleanup thread finishes, the world is good, the shutdown flag is
    set and the closing list is empty; the live list is as before. *)
Lemma SocketCleanupWork_good fuel w : forall st st',
  SocketCleanupWork fuel w st = Ok tt st' -> good st ->
  good st' /\
  exists nt nt', m_workerThreads st !! w = Some nt /\
                 m_workerThreads st' !! w = Some nt' /\
                 m_sockets nt' = m_sockets nt /\
                 m_pendingShutdown nt' = true /\ m_closingSockets nt' = [].
Proof.
  induction fuel as [|fuel IH]; intros st st' H Hg; [done|].
  destruct (m_workerThreads st !! w) as [nt|] eqn:Hw;
    [|by rewrite SocketCleanupWork_dangling in H].
  rewrite (SocketCleanupWork_unfold _ _ _ _ Hw) in H.
  destruct (m_pendingShutdown nt) eqn:Hflag;
    destruct (m_closingSockets nt) as [|q l] eqn:Hcl; simpl in H.
  - injection H as <-. split; [done|]. by exists nt, nt.
  - destruct (SocketCleanupPass_all st w nt Hg Hw) as (st1 & E & Hg1 & Hw1 & _).
    rewrite (bind_Ok _ _ _ _ _ E) in H.
    destruct (IH st1 st' H Hg1) as (Hg' & nt1 & nt' & Hw1' & Hw' & Hl & Hf & Hc).
    rewrite Hw1 in Hw1'. injection Hw1' as <-.
    split; [done|]. by exists nt, nt'.
  - destruct (SocketCleanupPass_all st w nt Hg Hw) as (st1 & E & Hg1 & Hw1 & _).
    rewrite (bind_Ok _ _ _ _ _ E) in H.
    destruct (IH st1 st' H Hg1) as (Hg' & nt1 & nt' & Hw1' & Hw' & Hl & Hf & Hc).
    rewrite Hw1 in Hw1'. injection Hw1' as <-.
    split; [done|]. by exists nt, nt'.
  - destruct (SocketCleanupPass_all st w nt Hg Hw) as (st1 & E & Hg1 & Hw1 & _).
    rewrite (bind_Ok _ _ _ _ _ E) in H.
    destruct (IH st1 st' H Hg1) as (Hg' & nt1 & nt' & Hw1' & Hw' & Hl & Hf & Hc).
    rewrite Hw1 in Hw1'. injection Hw1' as <-.
    split; [done|]. by exists nt, nt'.
Qed.

(** Once the shutdown flag is set, the cleanup thread finishes within two
    turns. *)
Lemma SocketCleanupWork_returns fuel w st nt :
  good st -> m_workerThreads st !! w = Some nt ->
  m_pendingShutdown nt = true -> (2 <= fuel)%nat ->
  exists st', SocketCleanupWork fuel w st = Ok tt st'.
Proof.
  intros Hg Hw Hflag Hfuel.
  destruct fuel as [|[|fuel]]; [lia|lia|].
  rewrite (SocketCleanupWork_unfold _ _ _ _ Hw), Hflag.
  destruct (m_closingSockets nt) as [|q l] eqn:Hcl; cbn [negb orb is_nil]; [eauto|].
  destruct (SocketCleanupPass_all st w nt Hg Hw) as (st1 & E & Hg1 & Hw1 & _).
  rewrite (bind_Ok _ _ _ _ _ E). cbv beta.
  rewrite (SocketCleanupWork_unfold _ _ _ _ Hw1). simpl. rewrite Hflag. simpl. eauto.
Qed.

Lemma NetworkThread_dtor_split fuel w :
  NetworkThread_dtor fuel w =
    bind (close_all fuel w) (fun _ =>
    bind (worker w) (fun nt =>
    bind (store_worker w (with_shutdown nt)) (fun _ =>
    bind (SocketCleanupWork fuel w) (fun _ => dtor_tail w)))).
Proof. reflexivity. Qed.

(** The end of the destructor, for a worker whose lists are empty. *)
Lemma dtor_tail_run st w :
  m_workerThreads st !! w = Some dead_worker -> good st ->
  exists st', dtor_tail w st = Ok tt st' /\ good st' /\
              heap st' = heap st /\ m_workerThreads st' = m_workerThreads st.
Proof.
  intros Hw Hg. eexists. split.
  { unfold dtor_tail. run. reflexivity. }
  simpl. fold dead_worker. rewrite list_insert_id by done.
  split; [|done]. apply (good_frame st); [done| |done].
  simpl. by apply list_insert_id.
Qed.

Lemma dead_worker_eq nt :
  m_sockets nt = [] -> m_closingSockets nt = [] -> m_pendingShutdown nt = true ->
  nt = dead_worker.
Proof. destruct nt. simpl. by intros -> -> ->. Qed.

(** The destructor of a worker keeps the world good. *)
Lemma NetworkThread_dtor_good fuel w st st' :
  NetworkThread_dtor fuel w st = Ok tt st' -> good st -> good st'.
Proof.
  rewrite NetworkThread_dtor_split. intros H Hg.
  apply bind_inv in H as ([] & st1 & H1 & H).
  destruct (close_all_good _ _ _ _ H1 Hg) as (Hg1 & nt & nt1 & Hw & Hw1 & Hl1 & Hf1).
  rewrite (bind_Ok _ _ _ _ _ (worker_Some _ _ _ Hw1)) in H.
  apply bind_inv in H as ([] & st2 & H2 & H).
  injection H2 as <-.
  assert (Hlt : (w < length (m_workerThreads st1))%nat) by (by apply lookup_lt_Some in Hw1).
  assert (Hg2 : good (set_workers (fun l => <[w := with_shutdown nt1]> l) st1))
    by (by apply (good_shutdown st1 _ w nt1)).
  apply bind_inv in H as ([] & st3 & H3 & H).
  destruct (SocketCleanupWork_good _ _ _ _ H3 Hg2)
    as (Hg3 & nt2 & nt3 & Hw2 & Hw3 & Hl3 & Hf3 & Hc3).
  simpl in Hw2. rewrite list_lookup_insert_eq in Hw2 by done. injection Hw2 as <-.
  simpl in Hl3. rewrite Hl1 in Hl3.
  rewrite (dead_worker_eq nt3 Hl3 Hc3 Hf3) in Hw3.
  destruct (dtor_tail_run st3 w Hw3 Hg3) as (st4 & E & Hg4 & _).
  rewrite E in H. by injection H as <-.
Qed.

(** With enough fuel the destructor of an existing worker returns: no
    assertion fails. *)
Lemma NetworkThread_dtor_returns fuel w st nt :
  good st -> m_workerThreads st !! w = Some nt ->
  (length (m_sockets nt) < fuel)%nat -> (2 <= fuel)%nat ->
  exists st',
    NetworkThread_dtor fuel w st = Ok tt st' /\
    m_workerThreads st' !! w = Some dead_worker.
Proof.
  intros Hg Hw Hlen Hfuel. rewrite NetworkThread_dtor_split.
  destruct (close_all_returns fuel w st nt Hg Hw Hlen) as (st1 & H1).
  destruct (close_all_good _ _ _ _ H1 Hg) as (Hg1 & nt0 & nt1 & Hw0 & Hw1 & Hl1 & Hf1).
  rewrite (bind_Ok _ _ _ _ _ H1), (bind_Ok _ _ _ _ _ (worker_Some _ _ _ Hw1)).
  assert (Hlt : (w < length (m_workerThreads st1))%nat) by (by apply lookup_lt_Some in Hw1).
  set (st2 := set_workers (fun l => <[w := with_shutdown nt1]> l) st1).
  assert (Hg2 : good st2) by (by apply (good_shutdown st1 _ w nt1)).
  assert (Hw2 : m_workerThreads st2 !! w = Some (with_shutdown nt1))
    by (simpl; by apply list_lookup_insert_eq).
  cbv beta.
  rewrite (bind_Ok (store_worker w (with_shutdown nt1)) _ st1 tt st2 eq_refl).
  cbv beta.
  destruct (SocketCleanupWork_returns fuel w st2 _ Hg2 Hw2 eq_refl Hfuel) as (st3 & H3).
  destruct (SocketCleanupWork_good _ _ _ _ H3 Hg2)
    as (Hg3 & nt2 & nt3 & Hw2' & Hw3 & Hl3 & Hf3 & Hc3).
  rewrite Hw2 in Hw2'. injection Hw2' as <-. simpl in Hl3. rewrite Hl1 in Hl3.
  rewrite (dead_worker_eq nt3 Hl3 Hc3 Hf3) in Hw3.
  rewrite (bind_Ok _ _ _ _ _ H3).
  destruct (dtor_tail_run st3 w Hw3 Hg3) as (st4 & E & Hg4 & _ & Hw4).
  exists st4. split; [done|]. by rewrite Hw4.
Qed.

(** *** The read callback *)

Lemma ReadLengthRemaining_pure p st n st1 :
  ReadLengthRemaining p st = Ok n st1 ->
  heap st1 = heap st /\ m_workerThreads st1 = m_workerThreads st /\
  errno st1 = errno st.
Proof.
  intros H. unfold ReadLengthRemaining in H. run_in H. split_run H; by simpl.
Qed.

(** Whatever the number of turns, the callback itself touches neither the
    heap nor the workers: a property of those two that every call of
    [ProcessIncomingData] keeps is kept by the whole callback.  In
    particular the callback never closes a Socket that the handler leaves
    open, and never consumes a byte that the handler leaves in the
    buffer. *)
Lemma ReadCallback_adds_nothing
    (ProcessIncomingData : ptr -> M bool) (EBADMSG : Z) p (I : World -> Prop) :
  (forall st st', heap st' = heap st -> m_workerThreads st' = m_workerThreads st ->
                  I st -> I st') ->
  (forall st b st', ProcessIncomingData p st = Ok b st' -> I st -> I st') ->
  forall fuel st st',
    ReadCallback ProcessIncomingData EBADMSG fuel p st = Ok tt st' -> I st -> I st'.
Proof.
  intros Hframe Hpid. induction fuel as [|fuel IH]; intros st st' H HI; [done|].
  simpl in H. apply bind_inv in H as (n & st1 & Hn & H).
  destruct (ReadLengthRemaining_pure _ _ _ _ Hn) as (Hh1 & Hw1 & _).
  assert (HI1 : I st1) by (by apply (Hframe st)).
  destruct (0 <? n).
  - apply bind_inv in H as (ok & st2 & Hok & H).
    assert (HI2 : I st2) by (by apply (Hpid st1 ok)).
    destruct ok; [by apply (IH st2)|].
    apply bind_inv in H as (e & st3 & He & H). injection He as He1 He2. subst.
    destruct (_ =? EBADMSG); injection H as <-; [|done].
    by apply (Hframe st3).
  - by injection H as <-.
Qed.

(** *** The texts of a Socket *)

Lemma Close_heap p st st' s :
  Close p st = Ok tt st' -> heap st !! p = Some s ->
  heap st' = heap st \/ heap st' = <[p := with_bev None s]> (heap st).
Proof.
  intros H Hp.
  destruct (m_bev s) as [bev|] eqn:Hb.
  - destruct (m_closeHandler s) as [[w]|] eqn:Hh.
    + destruct (m_workerThreads st !! w) as [nt|] eqn:Hw.
      * rewrite (Close_live _ _ _ _ _ _ Hp Hb Hh Hw) in H. injection H as <-. by right.
      * destruct (Close_live_dangling _ _ _ _ _ Hp Hb Hh Hw) as [st1 E].
        by rewrite E in H.
    + rewrite (Close_live_no_handler _ _ _ _ Hp Hb Hh) in H. injection H as <-.
      by right.
  - rewrite (Close_detached _ _ _ Hp Hb) in H. injection H as <-. by left.
Qed.

(** No public operation of a Socket changes its address text or its
    endpoint text. *)
Lemma perform_keeps_texts p r st a st' s :
  perform p r st = Ok a st' -> heap st !! p = Some s ->
  exists s', heap st' !! p = Some s' /\
             m_address s' = m_address s /\
             m_remoteEndpoint s' = m_remoteEndpoint s.
Proof.
  intros H Hp.
  assert (Hcases : heap st' = heap st \/
                   exists v, heap st' = <[p := with_bev v s]> (heap st)).
  { assert (r = do_Close \/ r <> do_Close) as [->|Hr]
      by (destruct r; (by left) || (by right)).
    - simpl in H. apply bind_inv in H as ([] & st1 & H1 & H2).
      injection H2 as _ <-.
      destruct (Close_heap p st st1 s H1 Hp) as [?|?]; [by left|right; eauto].
    - destruct (perform_effect _ _ _ _ _ H Hr) as [_ [?|(s0 & bev & v & Hp0 & _ & Hh)]];
        [by left|]. right. exists (Some v). congruence. }
  destruct Hcases as [Hh|[v Hh]]; rewrite Hh.
  - exists s. by rewrite Hp.
  - exists (with_bev v s). by rewrite lookup_insert_eq.
Qed.

(** ** Reachable worlds *)

Lemma step_good st st' : step st st' -> good st -> good st'.
Proof.
  intros Hstep Hg. destruct Hstep as
    [fd address p bev st st' Hfresh H | w fd address p bev st st' Hfresh H
    | p r a st st' H | bev events ctx st st' H | p data st st' H
    | w st st' H | fuel w st st' H].
  - by apply (AcceptCallback_good fd address p bev st).
  - by apply (CreateSocket_good st w fd address p bev).
  - assert (r = do_Close \/ r <> do_Close) as [->|Hr]
      by (destruct r; (by left) || (by right)).
    + simpl in H. apply bind_inv in H as ([] & st1 & H1 & H2).
      injection H2 as _ <-. by apply (Close_good p st).
    + by apply (perform_good p r st a).
  - by apply (EventCallback_good bev events ctx st).
  - by apply (receive_good p data st).
  - by apply (SocketCleanupPass_good w st).
  - by apply (NetworkThread_dtor_good fuel w st).
Qed.

Lemma reachable_good st : reachable st -> good st.
Proof.
  induction 1 as [st Hh Hempty|st st' _ IH Hstep]; [|by apply (step_good st)].
  assert (Hnil : forall w nt, m_workerThreads st !! w = Some nt -> owned nt = []).
  { intros w nt Hw. rewrite Forall_forall in Hempty. apply Hempty.
    by apply list_elem_of_lookup_2 in Hw. }
  split; [|split].
  - intros w nt Hw. rewrite (Hnil w nt Hw). split; [constructor|].
    intros p. split; [by intros ?%elem_of_nil|].
    intros (s & Hs & _). by rewrite Hh, lookup_empty in Hs.
  - intros w nt p Hw Hp. apply Hnil in Hw. unfold owned in Hw.
    apply app_eq_nil in Hw as [_ Hc]. rewrite Hc in Hp. by apply elem_of_nil in Hp.
  - intros p s Hs. by rewrite Hh, lookup_empty in Hs.
Qed.

(** In a reachable world every Socket carries the close handler of an
    existing worker. *)
Lemma reachable_notifies st p s :
  reachable st -> heap st !! p = Some s ->
  exists w nt, m_closeHandler s = Some (RemoveSocketOf w) /\
               m_workerThreads st !! w = Some nt.
Proof.
  intros Hreach Hs. destruct (reachable_good st Hreach) as (_ & _ & Hn).
  destruct (Hn p s Hs) as (w & Hh & Hlt).
  destruct (lookup_lt_is_Some_2 _ _ Hlt) as [nt Hnt]. eauto.
Qed.

(** [RemoveSocket] keeps a world tidy, whether the Socket is detached or
    not. *)
Lemma tidy_moved st st' w nt p :
  m_workerThreads st !! w = Some nt ->
  heap st' = heap st ->
  m_workerThreads st' = <[w := moved p nt]> (m_workerThreads st) ->
  tidy st -> tidy st'.
Proof.
  intros Hnt Hh Hw Ht.
  assert (Hlt : (w < length (m_workerThreads st))%nat) by (by apply lookup_lt_Some in Hnt).
  intros w' nt' Hnt'. rewrite Hw in Hnt'.
  destruct (decide (w' = w)) as [->|Hne].
  - rewrite list_lookup_insert_eq in Hnt' by done. injection Hnt' as <-.
    destruct (Ht w nt Hnt) as [Hnd Hin]. rewrite owned_moved.
    split; [done|]. intros q. rewrite owned_moved, Hin.
    unfold created_by. by rewrite Hh.
  - rewrite list_lookup_insert_ne in Hnt' by done.
    destruct (Ht w' nt' Hnt') as [Hnd Hin]. split; [done|].
    intros q. rewrite Hin. unfold created_by. by rewrite Hh.
Qed.

(** In a tidy world a Connection of a worker is in exactly one place. *)
Lemma tidy_one_place st w nt p :
  tidy st -> m_workerThreads st !! w = Some nt ->
  created_by st w p \/ heap st !! p = None ->
  exists x, occupies st nt p x /\ forall y, occupies st nt p y -> y = x.
Proof.
  intros Ht Hw Hp. destruct (Ht w nt Hw) as [Hnd Hown].
  apply NoDup_app in Hnd as (_ & Hdis & _).
  assert (Hdead : heap st !! p = None -> p ∉ owned nt).
  { intros Hnone Hin. apply Hown in Hin as (s & Hs & _). by rewrite Hnone in Hs. }
  destruct Hp as [Hcb|Hnone].
  - pose proof Hcb as (s & Hs & _).
    apply Hown in Hcb. apply elem_of_app in Hcb as [Hl|Hc].
    + exists live_set. split; [done|]. intros [| |]; simpl; [done| |].
      * intros Hc. by destruct (Hdis p Hl).
      * intros Hnone. by rewrite Hnone in Hs.
    + exists closing_set. split; [done|]. intros [| |]; simpl; [|done|].
      * intros Hl. by destruct (Hdis p Hl).
      * intros Hnone. by rewrite Hnone in Hs.
  - exists destroyed. split; [done|]. intros [| |]; simpl; [| |done].
    + intros Hl. destruct (Hdead Hnone). apply elem_of_app. by left.
    + intros Hc. destruct (Hdead Hnone). apply elem_of_app. by right.
Qed.

Lemma erase_first_elem p l : p ∈ l -> exists rest, erase_first p l = Some rest.
Proof.
  intros Hp. destruct (erase_first p l) as [rest|] eqn:E; [eauto|].
  by apply erase_first_None in E.
Qed.

(** ** Claims about the workers *)

(** C9.  In every reachable world each worker's two lists are free of
    repetitions and hold only Sockets it created, and every Connection of
    the worker is in exactly one of: its live list, its closing list,
    destroyed.
    [CreateSocket] with a new object puts it in the live list only.
    [RemoveSocket] takes [m_socketLock], then [m_closingSocketLock]; it
    moves a Socket of the live list to the closing list only, and leaves the
    worker as it is when the Socket is not in the live list; the heap is
    untouched and the world stays tidy.
    A cleanup pass removes the Sockets of the closing list from it and
    destroys them.  The worlds after [CreateSocket] and after the pass are
    reachable again, so the same holds of them. *)
Theorem connection_in_one_place st :
  reachable st ->
  tidy st /\
  (forall w nt p, m_workerThreads st !! w = Some nt ->
     NoDup (m_sockets nt) /\ NoDup (m_closingSockets nt) /\
     (p ∈ owned nt -> created_by st w p) /\
     (created_by st w p \/ heap st !! p = None ->
      exists x, occupies st nt p x /\ forall y, occupies st nt p y -> y = x)) /\
  (forall w nt fd address p bev,
     m_workerThreads st !! w = Some nt -> heap st !! p = None ->
     exists st' nt',
       CreateSocket w fd address p bev st = Ok tt st' /\
       reachable st' /\
       m_workerThreads st' !! w = Some nt' /\
       forall x, occupies st' nt' p x <-> x = live_set) /\
  (forall w nt p,
     m_workerThreads st !! w = Some nt ->
     exists st' nt',
       RemoveSocket w p st = Ok tt st' /\
       calls_since st st' =
         [ lock (m_socketLock w); lock (m_closingSocketLock w);
           unlock (m_closingSocketLock w); unlock (m_socketLock w) ] /\
       tidy st' /\
       heap st' = heap st /\
       m_workerThreads st' !! w = Some nt' /\
       (p ∈ m_sockets nt -> forall x, occupies st' nt' p x <-> x = closing_set) /\
       (p ∉ m_sockets nt -> nt' = nt)) /\
  (forall w nt,
     m_workerThreads st !! w = Some nt ->
     exists st' nt',
       SocketCleanupPass w st = Ok tt st' /\
       reachable st' /\
       m_workerThreads st' !! w = Some nt' /\
       forall p, p ∈ m_closingSockets nt ->
                 forall x, occupies st' nt' p x <-> x = destroyed).
Proof.
  intros Hreach. pose proof (reachable_good st Hreach) as Hg.
  pose proof Hg as [Ht [Hc Hn]].
  split; [done|]. split; [|split; [|split]].
  - intros w nt p Hw. destruct (Ht w nt Hw) as [Hnd Hown].
    pose proof Hnd as (Hl & _ & Hcl)%NoDup_app.
    split; [done|]. split; [done|]. split; [by apply Hown|].
    by apply tidy_one_place.
  - intros w nt fd address p bev Hw Hfresh.
    pose proof (CreateSocket_run st w fd address p bev nt Hw) as E.
    eexists _, (with_live p nt). split; [exact E|].
    split; [by apply (reachable_step st), (step_create w fd address p bev)|].
    split; [simpl; apply list_lookup_insert_eq; by apply lookup_lt_Some in Hw|].
    assert (Hnew : p ∉ owned nt).
    { intros Hin. apply (Ht w nt Hw) in Hin as (s & Hs & _). by rewrite Hfresh in Hs. }
    intros [| |]; simpl.
    + split; [done|]. intros _. apply list_elem_of_here.
    + split; [|done]. intros Hin. destruct Hnew. apply elem_of_app. by right.
    + rewrite lookup_insert_eq. by split.
  - intros w nt p Hw.
    pose proof (RemoveSocket_run st w p nt Hw) as E.
    destruct (Ht w nt Hw) as [Hnd Hown].
    eexists _, (moved p nt). split; [exact E|].
    split; [by apply calls_since_app|].
    split; [by apply (tidy_moved st _ w nt p)|].
    split; [done|].
    split; [simpl; apply list_lookup_insert_eq; by apply lookup_lt_Some in Hw|].
    split.
    + intros Hp.
      destruct (erase_first_elem p _ Hp) as [rest Hrest].
      pose proof (erase_first_Some _ _ _ Hrest) as Hperm.
      assert (Halive : is_Some (heap st !! p)).
      { apply (tidy_owned_alive st w nt); [done|done|]. apply elem_of_app. by left. }
      assert (Hnd' : NoDup (p :: rest ++ m_closingSockets nt)).
      { unfold owned in Hnd. by rewrite Hperm in Hnd. }
      apply NoDup_cons in Hnd' as [Hfresh _].
      unfold moved. rewrite Hrest.
      intros [| |]; simpl.
      * split; [|done]. intros Hin. destruct Hfresh. apply elem_of_app. by left.
      * split; [done|]. intros _. apply list_elem_of_here.
      * split; [|done]. intros Hnone. rewrite Hnone in Halive. by destruct Halive.
    + intros Hp. apply erase_first_None in Hp. unfold moved. by rewrite Hp.
  - intros w nt Hw.
    destruct (SocketCleanupPass_all st w nt Hg Hw)
      as (st' & E & Hg' & Hw' & Hgone & Hkept).
    exists st', (with_closing [] nt). split; [done|].
    split; [by apply (reachable_step st), (step_cleanup w)|].
    split; [done|]. intros p Hp.
    destruct (Ht w nt Hw) as [Hnd _].
    apply NoDup_app in Hnd as (_ & Hdis & _).
    intros [| |]; simpl.
    + split; [|done]. intros Hl. by destruct (Hdis p Hl).
    + split; [|done]. by intros ?%elem_of_nil.
    + split; [done|]. intros _. by apply Hgone.
Qed.

Lemma one_closed_reachable : reachable one_closed.
Proof.
  apply (reachable_step one_accepted).
  - apply (reachable_step four_workers).
    + apply reachable_start; [reflexivity|]. repeat constructor.
    + apply (step_accept 1 (peer_sockaddr LittleEndian 10 0 0 7 40001)
               1%positive (Some 101%positive)); vm_compute; reflexivity.
  - apply (step_perform 1%positive do_Close Close_returns).
    vm_compute. reflexivity.
Defined.

Lemma connection_in_one_place_witness :
  exists x, occupies one_closed
              {| m_sockets := []; m_closingSockets := [1%positive];
                 m_pendingShutdown := false |} 1%positive x /\
    forall y, occupies one_closed
                {| m_sockets := []; m_closingSockets := [1%positive];
                   m_pendingShutdown := false |} 1%positive y -> y = x.
Proof.
  destruct (connection_in_one_place one_closed one_closed_reachable)
    as (_ & Hone & _).
  destruct (Hone 0%nat {| m_sockets := []; m_closingSockets := [1%positive];
                          m_pendingShutdown := false |} 1%positive eq_refl)
    as (_ & _ & _ & H).
  apply H. left. eexists. split; vm_compute; reflexivity.
Defined.

(** C10.  In every reachable world every Socket in a closing list is
    detached: [IsClosed] returns true on it.  [Close] of a live Socket makes
    it detached first, and only then, in that world, calls the handler that
    moves it to the closing list.  Hence a cleanup pass returns, and the
    objects it releases were detached; the destructor of a worker, given
    fuel for its loops, returns as well: no [assert(IsClosed())] fails on
    either path.  The assertion is not idle: the destructor of a live Socket
    would fail it. *)
Theorem closing_sockets_are_closed st :
  reachable st ->
  (forall w nt p,
     m_workerThreads st !! w = Some nt -> p ∈ m_closingSockets nt ->
     is_detached p st = true /\ IsClosed p st = Ok true st) /\
  (forall p s bev,
     heap st !! p = Some s -> m_bev s = Some bev ->
     exists st_mid,
       is_detached p st_mid = true /\
       Close p st =
         bind (match m_closeHandler s with
               | Some h => invoke h p
               | None => ret tt
               end)
              (fun _ => bind (emit (unlock (m_writeLock p)))
                             (fun _ => emit (unlock (m_readLock p)))) st_mid) /\
  (forall w nt,
     m_workerThreads st !! w = Some nt ->
     exists st',
       SocketCleanupPass w st = Ok tt st' /\
       reachable st' /\
       forall p, is_Some (heap st !! p) -> heap st' !! p = None ->
                 is_detached p st = true) /\
  (forall w nt fuel,
     m_workerThreads st !! w = Some nt ->
     (length (m_sockets nt) < fuel)%nat -> (2 <= fuel)%nat ->
     exists st',
       NetworkThread_dtor fuel w st = Ok tt st' /\
       reachable st' /\
       m_workerThreads st' !! w = Some dead_worker) /\
  (forall p s bev,
     heap st !! p = Some s -> m_bev s = Some bev ->
     exists st', Socket_dtor p st = Fault AssertionFailed st').
Proof.
  intros Hreach. pose proof (reachable_good st Hreach) as Hg.
  pose proof Hg as [Ht [Hc Hn]].
  split; [|split; [|split; [|split]]].
  - intros w nt p Hw Hp. pose proof (Hc w nt p Hw Hp) as Hdet.
    split; [done|]. apply is_detached_true in Hdet as (s & Hs & Hb).
    by apply (IsClosed_detached st p s).
  - intros p s bev Hp Hb.
    destruct (Close_publishes_first st p s bev Hp Hb) as (st_mid & Hdet & _ & _ & E).
    by exists st_mid.
  - intros w nt Hw.
    destruct (SocketCleanupPass_all st w nt Hg Hw)
      as (st' & E & Hg' & Hw' & Hgone & Hkept).
    exists st'. split; [done|].
    split; [by apply (reachable_step st), (step_cleanup w)|].
    intros p Halive Hdead.
    destruct (decide (p ∈ m_closingSockets nt)) as [Hin|Hout].
    + by apply (Hc w nt).
    + rewrite (Hkept p Hout) in Hdead. rewrite Hdead in Halive. by destruct Halive.
  - intros w nt fuel Hw Hlen Hfuel.
    destruct (NetworkThread_dtor_returns fuel w st nt Hg Hw Hlen Hfuel)
      as (st' & E & Hw').
    exists st'. split; [done|].
    split; [by apply (reachable_step st), (step_destroy fuel w)|done].
  - intros p s bev Hp Hb. by apply (Socket_dtor_live st p s bev).
Qed.

Lemma closing_sockets_are_closed_witness :
  is_detached 1%positive one_closed = true /\
  IsClosed 1%positive one_closed = Ok true one_closed.
Proof.
  destruct (closing_sockets_are_closed one_closed one_closed_reachable)
    as (Hclosed & _).
  apply (Hclosed 0%nat {| m_sockets := []; m_closingSockets := [1%positive];
                          m_pendingShutdown := false |} 1%positive eq_refl).
  apply list_elem_of_here.
Defined.

(** * Further properties of the code *)

(** ** The byte operations of a live Socket *)

Lemma Write_live st p s bev buffer len :
  heap st !! p = Some s -> m_bev s = Some bev ->
  Write p buffer len st =
    Ok tt (set_calls (cons (unlock (m_writeLock p)))
             (set_heap (insert p (with_bev
                (Some (bufferevent_write bev buffer (to_size_t len))) s))
                (set_calls (cons (lock (m_writeLock p))) st))).
Proof. intros Hp Hb. unfold Write. by run. Qed.

Lemma ReadSkip_live st p s bev len :
  heap st !! p = Some s -> m_bev s = Some bev ->
  ReadSkip p len st =
    Ok tt (set_calls (cons (unlock (m_readLock p)))
             (set_heap (insert p (with_bev
                (Some (evbuffer_drain bev (to_size_t len))) s))
                (set_calls (cons (lock (m_readLock p))) st))).
Proof. intros Hp Hb. unfold ReadSkip. by run. Qed.

Lemma InPeek_live st p s bev :
  heap st !! p = Some s -> m_bev s = Some bev ->
  InPeek p st =
    Ok (head (input bev))
       (set_calls (app [unlock (m_readLock p); lock (m_readLock p)]) st).
Proof.
  intros Hp Hb. unfold InPeek. run. unfold evbuffer_get_length.
  destruct (input bev) as [|b l]; [done|].
  destruct (Z.ltb_spec (Z.of_nat (length (b :: l))) 1) as [Hlt|_]; [|done].
  simpl in Hlt. lia.
Qed.

Lemma ReadLengthRemaining_live st p s bev :
  heap st !! p = Some s -> m_bev s = Some bev ->
  ReadLengthRemaining p st =
    Ok (to_int (evbuffer_get_length bev))
       (set_calls (app [unlock (m_readLock p); lock (m_readLock p)]) st).
Proof. intros Hp Hb. unfold ReadLengthRemaining. by run. Qed.

Lemma to_size_t_negative n : - 2 ^ 31 <= n < 0 -> to_size_t n = n + 2 ^ 64.
Proof.
  intros Hn. unfold to_size_t. symmetry. apply (Z.mod_unique_pos _ _ (-1)); lia.
Qed.

(** X1.  [Write] on a live Socket appends the first [length] bytes of the
    caller's buffer to the outbound buffer and touches nothing else: two
    successive writes leave the old content, then the bytes of the first,
    then the bytes of the second; the inbound buffer and the workers are as
    before, the Socket stays live, and each call takes and releases the
    write lock only. *)
Theorem Write_appends_in_order st p s bev a la b lb :
  heap st !! p = Some s -> m_bev s = Some bev ->
  0 <= la <= INT_MAX -> 0 <= lb <= INT_MAX ->
  exists st1 st2,
    Write p a la st = Ok tt st1 /\
    outbound p st1 = Some (output bev ++ take (Z.to_nat la) a) /\
    Write p b lb st1 = Ok tt st2 /\
    outbound p st2 =
      Some (output bev ++ take (Z.to_nat la) a ++ take (Z.to_nat lb) b) /\
    inbound p st2 = Some (input bev) /\
    is_live p st2 = true /\
    m_workerThreads st2 = m_workerThreads st /\
    calls_since st st2 =
      [ lock (m_writeLock p); unlock (m_writeLock p);
        lock (m_writeLock p); unlock (m_writeLock p) ].
Proof.
  intros Hp Hb Hla Hlb.
  pose proof (Write_live st p s bev a la Hp Hb) as E1.
  rewrite (to_size_t_small la Hla) in E1.
  set (bev1 := bufferevent_write bev a la) in *.
  set (st1 := set_calls (cons (unlock (m_writeLock p))) _) in E1.
  assert (Hp1 : heap st1 !! p = Some (with_bev (Some bev1) s))
    by (simpl; apply lookup_insert_eq).
  pose proof (Write_live st1 p _ bev1 b lb Hp1 eq_refl) as E2.
  rewrite (to_size_t_small lb Hlb) in E2.
  set (st2 := set_calls (cons (unlock (m_writeLock p))) _) in E2.
  exists st1, st2.
  split; [exact E1|]. split.
  { unfold outbound. by rewrite Hp1. }
  split; [exact E2|].
  assert (Hp2 : heap st2 !! p
                = Some (with_bev (Some (bufferevent_write bev1 b lb)) s)).
  { simpl. rewrite lookup_insert_eq. done. }
  split. { unfold outbound. rewrite Hp2. simpl. by rewrite <- app_assoc. }
  split. { unfold inbound. by rewrite Hp2. }
  split. { unfold is_live. rewrite Hp2. simpl. done || (apply bool_decide_eq_true; eauto). }
  split; [done|]. by apply calls_since_app.
Qed.

Lemma Write_appends_in_order_witness :
  exists st1 st2,
    Write 1%positive [x4f; x4b; x21] 2 demo_world = Ok tt st1 /\
    outbound 1%positive st1 = Some [x4f; x4b] /\
    Write 1%positive [x0d; x0a] 2 st1 = Ok tt st2 /\
    outbound 1%positive st2 = Some [x4f; x4b; x0d; x0a] /\
    inbound 1%positive st2 = Some [x48; x45; x4c; x4c; x4f] /\
    is_live 1%positive st2 = true /\
    m_workerThreads st2 = m_workerThreads demo_world /\
    calls_since demo_world st2 =
      [ lock (m_writeLock 1%positive); unlock (m_writeLock 1%positive);
        lock (m_writeLock 1%positive); unlock (m_writeLock 1%positive) ].
Proof.
  apply (Write_appends_in_order demo_world 1%positive demo_socket demo_bev
           [x4f; x4b; x21] 2 [x0d; x0a] 2 eq_refl eq_refl);
    unfold INT_MAX; lia.
Defined.

(** X2.  [ReadSkip] on a live Socket drops the first [n] bytes of the
    inbound buffer, for [0 <= n <= INT_MAX]; when fewer are there it drops
    them all and still returns.  The outbound buffer is untouched and the
    Socket stays live; a [Read] that follows gets the bytes after the
    skipped ones. *)
Theorem ReadSkip_drops st p s bev n :
  heap st !! p = Some s -> m_bev s = Some bev ->
  0 <= n <= INT_MAX ->
  exists st',
    ReadSkip p n st = Ok tt st' /\
    inbound p st' = Some (drop (Z.to_nat n) (input bev)) /\
    outbound p st' = Some (output bev) /\
    is_live p st' = true /\
    (Z.of_nat (length (input bev)) <= n -> inbound p st' = Some []) /\
    (forall m, 0 <= m <= INT_MAX -> n + m <= Z.of_nat (length (input bev)) ->
       exists st'',
         Read p m st' = Ok (true, take (Z.to_nat m) (drop (Z.to_nat n) (input bev))) st'').
Proof.
  intros Hp Hb Hn.
  pose proof (ReadSkip_live st p s bev n Hp Hb) as E.
  rewrite (to_size_t_small n Hn) in E.
  set (st' := set_calls (cons (unlock (m_readLock p))) _) in E.
  assert (Hp' : heap st' !! p = Some (with_bev (Some (evbuffer_drain bev n)) s))
    by (simpl; apply lookup_insert_eq).
  exists st'. split; [exact E|].
  split. { unfold inbound. by rewrite Hp'. }
  split. { unfold outbound. by rewrite Hp'. }
  split. { unfold is_live. rewrite Hp'. simpl. done || (apply bool_decide_eq_true; eauto). }
  split.
  { intros Hlen. unfold inbound. rewrite Hp'. simpl. f_equal.
    apply drop_ge. lia. }
  intros m Hm Hlen. eexists.
  apply (Read_enough st' p _ (evbuffer_drain bev n) m Hp' eq_refl Hm).
  simpl. rewrite length_drop. lia.
Qed.

Lemma ReadSkip_drops_witness :
  exists st',
    ReadSkip 1%positive 2 demo_world = Ok tt st' /\
    inbound 1%positive st' = Some [x4c; x4c; x4f] /\
    outbound 1%positive st' = Some [] /\
    is_live 1%positive st' = true /\
    (Z.of_nat (length (input demo_bev)) <= 2 -> inbound 1%positive st' = Some []) /\
    (forall m, 0 <= m <= INT_MAX -> 2 + m <= Z.of_nat (length (input demo_bev)) ->
       exists st'',
         Read 1%positive m st'
           = Ok (true, take (Z.to_nat m) (drop (Z.to_nat 2) (input demo_bev))) st'').
Proof.
  apply (ReadSkip_drops demo_world 1%positive demo_socket demo_bev 2 eq_refl eq_refl).
  unfold INT_MAX; lia.
Defined.

(** X3.  [ReadSkip] takes its [int] length as the [size_t] that
    [evbuffer_drain] expects: a negative length becomes a count that no
    buffer of less than 2^63 bytes reaches, and the whole inbound buffer is
    dropped. *)
Theorem ReadSkip_negative_drains st p s bev n :
  heap st !! p = Some s -> m_bev s = Some bev ->
  - 2 ^ 31 <= n < 0 -> Z.of_nat (length (input bev)) < 2 ^ 63 ->
  exists st',
    ReadSkip p n st = Ok tt st' /\
    inbound p st' = Some [] /\
    outbound p st' = Some (output bev) /\
    is_live p st' = true.
Proof.
  intros Hp Hb Hn Hlen.
  pose proof (ReadSkip_live st p s bev n Hp Hb) as E.
  rewrite (to_size_t_negative n Hn) in E.
  set (st' := set_calls (cons (unlock (m_readLock p))) _) in E.
  assert (Hp' : heap st' !! p
                = Some (with_bev (Some (evbuffer_drain bev (n + 2 ^ 64))) s))
    by (simpl; apply lookup_insert_eq).
  exists st'. split; [exact E|].
  split. { unfold inbound. rewrite Hp'. simpl. f_equal. apply drop_ge. lia. }
  split. { unfold outbound. by rewrite Hp'. }
  unfold is_live. rewrite Hp'. simpl. done || (apply bool_decide_eq_true; eauto).
Qed.

Lemma ReadSkip_negative_drains_witness :
  exists st',
    ReadSkip 1%positive (-1) demo_world = Ok tt st' /\
    inbound 1%positive st' = Some [] /\
    outbound 1%positive st' = Some (output demo_bev) /\
    is_live 1%positive st' = true.
Proof.
  apply (ReadSkip_negative_drains demo_world 1%positive demo_socket demo_bev (-1)
           eq_refl eq_refl); simpl; lia.
Defined.

(** X4.  [Read] with a negative length returns false and takes no byte:
    the length is compared as a [size_t], which the buffer never reaches. *)
Theorem Read_rejects_negative st p s bev n :
  heap st !! p = Some s -> m_bev s = Some bev ->
  - 2 ^ 31 <= n < 0 -> Z.of_nat (length (input bev)) < 2 ^ 63 ->
  exists st',
    Read p n st = Ok (false, []) st' /\
    heap st' = heap st /\
    inbound p st' = Some (input bev) /\
    calls_since st st' = [lock (m_readLock p); unlock (m_readLock p)].
Proof.
  intros Hp Hb Hn Hlen.
  rewrite (Read_negative st p s bev n Hp Hb Hn Hlen).
  eexists. split; [reflexivity|]. split; [done|].
  split. { unfold inbound. simpl. by rewrite Hp, Hb. }
  by apply calls_since_app.
Qed.

Lemma Read_rejects_negative_witness :
  exists st',
    Read 1%positive (-3) demo_world = Ok (false, []) st' /\
    heap st' = heap demo_world /\
    inbound 1%positive st' = Some (input demo_bev) /\
    calls_since demo_world st'
      = [lock (m_readLock 1%positive); unlock (m_readLock 1%positive)].
Proof.
  apply (Read_rejects_negative demo_world 1%positive demo_socket demo_bev (-3)
           eq_refl eq_refl); simpl; lia.
Defined.

(** X5.  [InPeek] on a live Socket returns the first waiting byte and takes
    nothing: it returns null exactly when the inbound buffer is empty, the
    heap is as before, and the byte it shows is the byte the next [Read] of
    length 1 copies out. *)
Theorem InPeek_shows_next_byte st p s bev :
  heap st !! p = Some s -> m_bev s = Some bev ->
  exists st',
    InPeek p st = Ok (head (input bev)) st' /\
    heap st' = heap st /\
    m_workerThreads st' = m_workerThreads st /\
    (head (input bev) = None <-> input bev = []) /\
    (forall b, head (input bev) = Some b ->
       exists st'',
         Read p 1 st' = Ok (true, [b]) st'' /\
         inbound p st'' = Some (tail (input bev))).
Proof.
  intros Hp Hb. rewrite (InPeek_live st p s bev Hp Hb).
  eexists. split; [reflexivity|]. split; [done|]. split; [done|].
  split. { by destruct (input bev). }
  intros b Hhead.
  destruct (input bev) as [|b0 l] eqn:Hin; [done|]. injection Hhead as ->.
  set (st' := set_calls _ st).
  assert (Hp' : heap st' !! p = Some s) by done.
  assert (H1 : 0 <= 1 <= INT_MAX) by (unfold INT_MAX; lia).
  assert (Hlen : 1 <= Z.of_nat (length (input bev))) by (rewrite Hin; simpl; lia).
  rewrite (Read_enough st' p s bev 1 Hp' Hb H1 Hlen). rewrite Hin.
  eexists. split; [reflexivity|].
  unfold inbound. simpl. rewrite lookup_insert_eq. simpl. by rewrite Hin.
Qed.

Lemma InPeek_shows_next_byte_witness :
  exists st',
    InPeek 1%positive demo_world = Ok (Some x48) st' /\
    heap st' = heap demo_world /\
    m_workerThreads st' = m_workerThreads demo_world /\
    (head (input demo_bev) = None <-> input demo_bev = []) /\
    (forall b, head (input demo_bev) = Some b ->
       exists st'',
         Read 1%positive 1 st' = Ok (true, [b]) st'' /\
         inbound 1%positive st'' = Some [x45; x4c; x4c; x4f]).
Proof.
  exact (InPeek_shows_next_byte demo_world 1%positive demo_socket demo_bev
           eq_refl eq_refl).
Defined.

(** X6.  [ReadLengthRemaining] on a live Socket with at most [INT_MAX]
    waiting bytes returns their number and changes nothing; a [Read] of [n]
    bytes succeeds exactly when [n] is at most that number, and then the
    number that remains is [n] less. *)
Theorem ReadLengthRemaining_decides_Read st p s bev n :
  heap st !! p = Some s -> m_bev s = Some bev ->
  Z.of_nat (length (input bev)) <= INT_MAX ->
  0 <= n <= INT_MAX ->
  let len := Z.of_nat (length (input bev)) in
  exists st1 copied st2 st3,
    ReadLengthRemaining p st = Ok len st1 /\
    heap st1 = heap st /\
    Read p n st1 = Ok (n <=? len, copied) st2 /\
    ReadLengthRemaining p st2 = Ok (if n <=? len then len - n else len) st3.
Proof.
  intros Hp Hb Hmax Hn len.
  pose proof (ReadLengthRemaining_live st p s bev Hp Hb) as E1.
  unfold evbuffer_get_length in E1. fold len in E1.
  rewrite to_int_small in E1 by (unfold len; lia).
  set (st1 := set_calls _ st) in E1.
  assert (Hp1 : heap st1 !! p = Some s) by done.
  destruct (Z.leb_spec n len) as [Hle|Hgt].
  - pose proof (Read_enough st1 p s bev n Hp1 Hb Hn Hle) as E2.
    set (st2 := set_calls (cons (unlock (m_readLock p))) _) in E2.
    assert (Hp2 : heap st2 !! p = Some (with_bev (Some (evbuffer_drain bev n)) s))
      by (simpl; apply lookup_insert_eq).
    pose proof (ReadLengthRemaining_live st2 p _ _ Hp2 eq_refl) as E3.
    unfold evbuffer_get_length in E3. simpl input in E3.
    rewrite length_drop in E3.
    replace (Z.of_nat (length (input bev) - Z.to_nat n)) with (len - n) in E3
      by (unfold len; lia).
    rewrite to_int_small in E3 by (unfold len in *; lia).
    by eexists st1, _, st2, _.
  - pose proof (Read_short st1 p s bev n Hp1 Hb Hn Hgt) as E2.
    set (st2 := set_calls (cons (unlock (m_readLock p))) _) in E2.
    assert (Hp2 : heap st2 !! p = Some s) by done.
    pose proof (ReadLengthRemaining_live st2 p s bev Hp2 Hb) as E3.
    unfold evbuffer_get_length in E3. fold len in E3.
    rewrite to_int_small in E3 by (unfold len; lia).
    by eexists st1, _, st2, _.
Qed.

Lemma ReadLengthRemaining_decides_Read_witness :
  exists st1 copied st2 st3,
    ReadLengthRemaining 1%positive demo_world = Ok 5 st1 /\
    heap st1 = heap demo_world /\
    Read 1%positive 3 st1 = Ok (true, copied) st2 /\
    ReadLengthRemaining 1%positive st2 = Ok 2 st3.
Proof.
  apply (ReadLengthRemaining_decides_Read demo_world 1%positive demo_socket
           demo_bev 3 eq_refl eq_refl); unfold INT_MAX; simpl; lia.
Defined.



(** X8.  [Close] of a live Socket that was constructed with an empty close
    handler detaches it and frees the stream once, and notifies nobody: no
    handler is invoked, no worker lock is taken, the workers and the other
    Sockets are as before.  A further [Close] changes nothing. *)
Theorem Close_without_handler st p s bev :
  heap st !! p = Some s -> m_bev s = Some bev -> m_closeHandler s = None ->
  exists st',
    Close p st = Ok tt st' /\
    is_detached p st' = true /\
    m_workerThreads st' = m_workerThreads st /\
    count is_free (calls_since st st') = 1%nat /\
    count is_notification (calls_since st st') = 0%nat /\
    (forall w, ~ In (lock (m_socketLock w)) (calls_since st st')) /\
    (forall q, q <> p -> heap st' !! q = heap st !! q) /\
    Close p st' = Ok tt st'.
Proof.
  intros Hp Hb Hh. rewrite (Close_live_no_handler st p s bev Hp Hb Hh).
  set (st' := set_calls _ _).
  assert (Hp' : heap st' !! p = Some (with_bev None s))
    by (simpl; apply lookup_insert_eq).
  assert (Hlog : calls_since st st' =
    [ lock (m_readLock p); lock (m_writeLock p);
      bufferevent_lock (Some (bev_ptr bev));
      bufferevent_disable (Some (bev_ptr bev));
      bufferevent_setcb (Some (bev_ptr bev)) false false;
      bufferevent_unlock None; bufferevent_free (Some (bev_ptr bev));
      unlock (m_writeLock p); unlock (m_readLock p) ])
    by (by apply calls_since_app).
  exists st'. split; [done|].
  split. { unfold is_detached. by rewrite Hp'. }
  split; [done|]. rewrite Hlog.
  split; [done|]. split; [done|].
  split. { intros w. simpl. intros [?|[?|[?|[?|[?|[?|[?|[?|[?|[]]]]]]]]]]; discriminate. }
  split. { intros q Hq. simpl. by rewrite lookup_insert_ne. }
  by apply (Close_detached st' p (with_bev None s)).
Qed.

Lemma Close_without_handler_witness :
  exists st',
    Close 1%positive orphan_world = Ok tt st' /\
    is_detached 1%positive st' = true /\
    m_workerThreads st' = m_workerThreads orphan_world /\
    count is_free (calls_since orphan_world st') = 1%nat /\
    count is_notification (calls_since orphan_world st') = 0%nat /\
    (forall w, ~ In (lock (m_socketLock w)) (calls_since orphan_world st')) /\
    (forall q, q <> 1%positive -> heap st' !! q = heap orphan_world !! q) /\
    Close 1%positive st' = Ok tt st'.
Proof.
  exact (Close_without_handler orphan_world 1%positive orphan_socket demo_bev
           eq_refl eq_refl eq_refl).
Defined.

Lemma perform_all_keeps_texts p rs : forall st xs st' s,
  perform_all p rs st = Ok xs st' -> heap st !! p = Some s ->
  exists s', heap st' !! p = Some s' /\
             m_address s' = m_address s /\
             m_remoteEndpoint s' = m_remoteEndpoint s.
Proof.
  induction rs as [|r rs IH]; intros st xs st' s H Hp.
  - injection H as _ <-. by exists s.
  - simpl in H. apply bind_inv in H as (a & st1 & H1 & H).
    apply bind_inv in H as (rest & st2 & H2 & H). injection H as _ <-.
    destruct (perform_keeps_texts p r st a st1 s H1 Hp) as (s1 & Hp1 & Ha1 & He1).
    destruct (IH st1 rest st2 s1 H2 Hp1) as (s2 & Hp2 & Ha2 & He2).
    exists s2. split; [done|]. split; congruence.
Qed.

(** X9.  The address text and the endpoint text of a Socket never change:
    after any sequence of its public operations, [Close] among them,
    [GetRemoteAddress] and [GetRemoteEndpoint] return what they returned
    before. *)
Theorem texts_are_immutable st p s rs xs st' :
  heap st !! p = Some s ->
  perform_all p rs st = Ok xs st' ->
  GetRemoteAddress p st = Ok (m_address s) st /\
  GetRemoteEndpoint p st = Ok (m_remoteEndpoint s) st /\
  GetRemoteAddress p st' = Ok (m_address s) st' /\
  GetRemoteEndpoint p st' = Ok (m_remoteEndpoint s) st'.
Proof.
  intros Hp H.
  destruct (perform_all_keeps_texts p rs st xs st' s H Hp) as (s' & Hp' & Ha & He).
  unfold GetRemoteAddress, GetRemoteEndpoint. run.
  by rewrite Ha, He.
Qed.

Lemma texts_are_immutable_witness :
  GetRemoteAddress 1%positive demo_world = Ok "10.0.0.7" demo_world /\
  GetRemoteEndpoint 1%positive demo_world = Ok "10.0.0.7:20480" demo_world /\
  GetRemoteAddress 1%positive after_demo_session = Ok "10.0.0.7" after_demo_session /\
  GetRemoteEndpoint 1%positive after_demo_session
    = Ok "10.0.0.7:20480" after_demo_session.
Proof.
  apply (texts_are_immutable demo_world 1%positive demo_socket demo_session
           [ Read_returns true [x48; x45]; Write_returns; ReadSkip_returns;
             InPeek_returns (Some x4c); Close_returns; IsClosed_returns true ]
           after_demo_session eq_refl).
  vm_compute. reflexivity.
Defined.

(** ** The callbacks of the reactor *)

Lemma EventCallback_start st bev events ctx s b :
  heap st !! ctx = Some s -> m_bev s = Some b -> bev_ptr b = bev ->
  EventCallback bev events ctx st =
    (if negb (Z.land events (Z.lor BEV_EVENT_EOF BEV_EVENT_ERROR) =? 0)
     then Close ctx
     else emit (outError_args "Socket::EventCallback() unknown event %04x" [events]))
      (set_calls (app [bufferevent_unlock (Some bev); bufferevent_lock (Some bev)]) st).
Proof.
  intros Hp Hb Hbev. unfold EventCallback. run.
  rewrite bool_decide_true by (by rewrite Hbev). reflexivity.
Qed.



(** X11.  An event with neither the end-of-file bit nor the error bit (a
    timeout, a connect) is only logged, with the format
    "Socket::EventCallback() unknown event %04x" and the event bits as its
    argument: the Socket stays live, its buffers, the other Sockets and the
    workers are as before, nothing is freed and nobody is notified. *)
Theorem EventCallback_ignores_other_events st ctx s b events :
  heap st !! ctx = Some s -> m_bev s = Some b ->
  Z.land events (Z.lor BEV_EVENT_EOF BEV_EVENT_ERROR) = 0 ->
  exists st',
    EventCallback (bev_ptr b) events ctx st = Ok tt st' /\
    heap st' = heap st /\
    m_workerThreads st' = m_workerThreads st /\
    is_live ctx st' = true /\
    calls_since st st' =
      [ bufferevent_lock (Some (bev_ptr b)); bufferevent_unlock (Some (bev_ptr b));
        outError_args "Socket::EventCallback() unknown event %04x" [events] ] /\
    count is_free (calls_since st st') = 0%nat /\
    count is_notification (calls_since st st') = 0%nat.
Proof.
  intros Hp Hb Hev.
  rewrite (EventCallback_start st _ events ctx s b Hp Hb eq_refl).
  rewrite Hev. simpl.
  eexists. split; [reflexivity|]. split; [done|]. split; [done|].
  split. { unfold is_live. simpl. rewrite Hp, Hb. done || (apply bool_decide_eq_true; eauto). }
  match goal with |- ?L = ?l /\ _ => assert (Hlog : L = l) by (by apply calls_since_app) end.
  split; [exact Hlog|]. by rewrite Hlog.
Qed.

Lemma EventCallback_ignores_other_events_witness :
  exists st',
    EventCallback 7%positive 65 1%positive demo_world = Ok tt st' /\
    heap st' = heap demo_world /\
    m_workerThreads st' = m_workerThreads demo_world /\
    is_live 1%positive st' = true /\
    calls_since demo_world st' =
      [ bufferevent_lock (Some 7%positive); bufferevent_unlock (Some 7%positive);
        outError_args "Socket::EventCallback() unknown event %04x" [65] ] /\
    count is_free (calls_since demo_world st') = 0%nat /\
    count is_notification (calls_since demo_world st') = 0%nat.
Proof.
  exact (EventCallback_ignores_other_events demo_world 1%positive demo_socket
           demo_bev 65 eq_refl eq_refl eq_refl).
Defined.

(** X12.  A callback that arrives for a Socket after its [Close] fails the
    assertion [sock->m_bev == bev], whatever stream and events it names:
    both static callbacks abort, holding the stream lock they took, before
    any byte is handed to the protocol handler. *)
Theorem callback_after_Close_aborts st p st1 bev :
  Close p st = Ok tt st1 ->
  exists st',
    calls_since st1 st' = [bufferevent_lock (Some bev)] /\
    (forall events, EventCallback bev events p st1 = Fault AssertionFailed st') /\
    (forall ProcessIncomingData EBADMSG fuel,
       ReadCallback_bev ProcessIncomingData EBADMSG fuel bev p st1
         = Fault AssertionFailed st').
Proof.
  intros H. destruct (Close_Ok_detached st p st1 H) as (s1 & Hp1 & Hb1).
  exists (set_calls (cons (bufferevent_lock (Some bev))) st1).
  split. { by apply calls_since_app. }
  split.
  - intros events. unfold EventCallback. by run.
  - intros PID E fuel. unfold ReadCallback_bev. by run.
Qed.

Lemma callback_after_Close_aborts_witness :
  exists st',
    calls_since (closed_world 1%positive demo_socket 7%positive 0%nat demo_worker demo_world) st'
      = [bufferevent_lock (Some 7%positive)] /\
    (forall events,
       EventCallback 7%positive events 1%positive
         (closed_world 1%positive demo_socket 7%positive 0%nat demo_worker demo_world)
         = Fault AssertionFailed st') /\
    (forall ProcessIncomingData EBADMSG fuel,
       ReadCallback_bev ProcessIncomingData EBADMSG fuel 7%positive 1%positive
         (closed_world 1%positive demo_socket 7%positive 0%nat demo_worker demo_world)
         = Fault AssertionFailed st').
Proof.
  apply (callback_after_Close_aborts demo_world 1%positive).
  reflexivity.
Defined.

Lemma ReadLengthRemaining_total st p :
  is_Some (heap st !! p) ->
  exists n st1, ReadLengthRemaining p st = Ok n st1 /\ heap st1 = heap st.
Proof.
  intros [s Hp]. destruct (m_bev s) as [bev|] eqn:Hb.
  - rewrite (ReadLengthRemaining_live st p s bev Hp Hb). by eexists _, _.
  - exists 0, st. split; [|done]. unfold ReadLengthRemaining. by run.
Qed.

Lemma remaining_ext p st st' : heap st' = heap st -> remaining p st' = remaining p st.
Proof. intros H. unfold remaining, inbound. by rewrite H. Qed.

(** X13.  The read callback returns when the protocol handler makes
    progress: if every call of [ProcessIncomingData] returns, keeps the
    Socket allocated, and leaves fewer bytes waiting whenever it returns
    true, then the [while] loop ends within as many turns as bytes were
    waiting, plus one. *)
Theorem ReadCallback_returns_on_progress
    (ProcessIncomingData : ptr -> M bool) (EBADMSG : Z) p :
  (forall st, is_Some (heap st !! p) ->
     exists b st', ProcessIncomingData p st = Ok b st' /\
                   is_Some (heap st' !! p) /\
                   (b = true -> (remaining p st' < remaining p st)%nat)) ->
  forall fuel st,
    is_Some (heap st !! p) -> (remaining p st < fuel)%nat ->
    exists st',
      ReadCallback ProcessIncomingData EBADMSG fuel p st = Ok tt st' /\
      is_Some (heap st' !! p).
Proof.
  intros Hpid. induction fuel as [|fuel IH]; intros st Hal Hfuel; [lia|].
  destruct (ReadLengthRemaining_total st p Hal) as (n & st1 & E1 & Hh1).
  simpl. rewrite (bind_Ok _ _ _ _ _ E1). cbv beta.
  assert (Hal1 : is_Some (heap st1 !! p)) by (by rewrite Hh1).
  destruct (0 <? n).
  - destruct (Hpid st1 Hal1) as (b & st2 & E2 & Hal2 & Hdec).
    rewrite (bind_Ok _ _ _ _ _ E2). cbv beta.
    destruct b.
    + apply IH; [done|]. specialize (Hdec eq_refl).
      rewrite (remaining_ext p st st1 Hh1) in Hdec. lia.
    + run. destruct (errno st2 =? EBADMSG); by eexists.
  - by exists st1.
Qed.

Lemma take_one_progress p st :
  is_Some (heap st !! p) ->
  exists b st', take_one p st = Ok b st' /\
                is_Some (heap st' !! p) /\
                (b = true -> (remaining p st' < remaining p st)%nat).
Proof.
  intros [s Hp]. unfold take_one.
  assert (H1 : 0 <= 1 <= INT_MAX) by (unfold INT_MAX; lia).
  destruct (m_bev s) as [bev|] eqn:Hb.
  - destruct (Z_lt_le_dec (Z.of_nat (length (input bev))) 1) as [Hshort|Hlen].
    + rewrite (bind_Ok _ _ _ _ _ (Read_short st p s bev 1 Hp Hb H1 Hshort)).
      eexists _, _. split; [reflexivity|]. split; [by exists s|]. done.
    + rewrite (bind_Ok _ _ _ _ _ (Read_enough st p s bev 1 Hp Hb H1 Hlen)).
      eexists _, _. split; [reflexivity|].
      split. { simpl. rewrite lookup_insert_eq. eauto. }
      intros _. unfold remaining, inbound. simpl.
      rewrite lookup_insert_eq, Hp, Hb. simpl. rewrite length_drop. lia.
  - exists false, st. split; [|split; [by exists s|done]].
    unfold bind, Read. by run.
Qed.

Lemma ReadCallback_returns_on_progress_witness :
  exists st',
    ReadCallback take_one 74 6 1%positive demo_world = Ok tt st' /\
    is_Some (heap st' !! 1%positive).
Proof.
  apply (ReadCallback_returns_on_progress take_one 74 1%positive
           (take_one_progress 1%positive) 6 demo_world).
  - by exists demo_socket.
  - vm_compute. lia.
Defined.

(** X14.  The read callback never returns when the protocol handler reports
    success without taking a byte: as long as every call of
    [ProcessIncomingData] returns true and leaves the same [k] bytes
    waiting, [0 < k <= INT_MAX], the [while] loop goes on, however many
    turns it is given. *)
Theorem ReadCallback_spins_without_progress
    (ProcessIncomingData : ptr -> M bool) (EBADMSG : Z) p k :
  (0 < k)%nat -> Z.of_nat k <= INT_MAX ->
  (forall st, remaining p st = k ->
     exists st', ProcessIncomingData p st = Ok true st' /\ remaining p st' = k) ->
  forall fuel st,
    remaining p st = k ->
    exists st',
      ReadCallback ProcessIncomingData EBADMSG fuel p st = Fault OutOfFuel st'.
Proof.
  intros Hk Hmax Hpid. induction fuel as [|fuel IH]; intros st Hrem.
  - by exists st.
  - assert (exists s bev, heap st !! p = Some s /\ m_bev s = Some bev /\
                          length (input bev) = k) as (s & bev & Hp & Hb & Hlen).
    { unfold remaining, inbound in Hrem.
      destruct (heap st !! p) as [s|]; [|lia].
      destruct (m_bev s) as [bev|] eqn:Hb; simpl in Hrem; [|lia].
      by exists s, bev. }
    pose proof (ReadLengthRemaining_live st p s bev Hp Hb) as E1.
    unfold evbuffer_get_length in E1. rewrite Hlen in E1.
    rewrite to_int_small in E1 by lia.
    set (st1 := set_calls _ st) in E1.
    simpl. rewrite (bind_Ok _ _ _ _ _ E1). cbv beta.
    destruct (Z.ltb_spec 0 (Z.of_nat k)) as [_|?]; [|lia].
    assert (Hrem1 : remaining p st1 = k) by (by rewrite (remaining_ext p st st1)).
    destruct (Hpid st1 Hrem1) as (st2 & E2 & Hrem2).
    rewrite (bind_Ok _ _ _ _ _ E2). cbv beta iota.
    by apply IH.
Qed.

Lemma ReadCallback_spins_without_progress_witness :
  exists st',
    ReadCallback never_consumes 74 1000 1%positive demo_world = Fault OutOfFuel st'.
Proof.
  apply (ReadCallback_spins_without_progress never_consumes 74 1%positive 5).
  - lia.
  - unfold INT_MAX. simpl. lia.
  - intros st Hrem. by exists st.
  - reflexivity.
Defined.

(** ** More on the construction of the Listener *)

Lemma push_workers_frame n : forall i st,
  Forall (fun b => b = true) (event_base_supply st) ->
  exists st',
    push_workers n i st = Ok tt st' /\
    calls st' = rev (worker_calls n i) ++ calls st /\
    m_workerThreads st' = m_workerThreads st ++ replicate n new_worker /\
    Forall (fun b => b = true) (event_base_supply st') /\
    heap st' = heap st /\ bind_supply st' = bind_supply st.
Proof.
  induction n as [|n IH]; intros i st Hs.
  - exists st. simpl. by rewrite app_nil_r.
  - simpl. unfold NetworkThread_ctor. run.
    assert (Hhd : default true (head (event_base_supply st)) = true).
    { destruct Hs; simpl; done. }
    rewrite Hhd. simpl.
    match goal with |- context [push_workers n (S i) ?s] =>
      destruct (IH (S i) s) as (st' & E & Hc & Hw & Hs' & Hh & Hb) end.
    { simpl. by apply Forall_drop. }
    exists st'. split; [exact E|]. simpl in *.
    split. { rewrite Hc. by rewrite <- !app_assoc. }
    split. { rewrite Hw. by rewrite <- app_assoc. }
    done.
Qed.

(** The construction of workers stops at the first worker whose
    [event_base_new] fails: [k] workers are complete, the cleanup thread of
    the next one has been started, and the throw in its constructor ends in
    [std::terminate]. *)
Lemma push_workers_fails k : forall n i st rest,
  event_base_supply st = replicate k true ++ false :: rest ->
  (k < n)%nat ->
  exists st',
    push_workers n i st = Fault Terminated st' /\
    calls st' =
      rev (worker_calls k i ++
           [thread_start (m_socketCleanupThread (k + i)); event_base_new false])
      ++ calls st /\
    m_workerThreads st' = m_workerThreads st ++ replicate k new_worker.
Proof.
  induction k as [|k IH]; intros n i st rest Hs Hk;
    (destruct n as [|n]; [lia|]); simpl; unfold NetworkThread_ctor; run;
    rewrite Hs; simpl.
  - eexists. split; [reflexivity|]. simpl. by rewrite app_nil_r.
  - match goal with |- context [push_workers n (S i) ?s] =>
      destruct (IH n (S i) s rest) as (st' & E & Hc & Hw) end.
    { simpl. by rewrite Hs. }
    { lia. }
    exists st'. split; [exact E|]. simpl in *.
    split.
    { rewrite Hc. rewrite Nat.add_succ_r. by rewrite <- !app_assoc. }
    rewrite Hw. by rewrite <- app_assoc.
Qed.

Lemma worker_calls_no_acceptor n : forall i,
  ~ In (thread_start m_acceptorThread) (worker_calls n i).
Proof.
  induction n as [|n IH]; intros i; simpl; [tauto|].
  intros [?|[?|[?|?]]]; try discriminate. by apply (IH (S i)).
Qed.

(** The constructor on its success path: the world it returns in. *)
Lemma Listener_ctor_run
    inet_aton host bind_ip port workerThreads a st :
  inet_aton bind_ip = Some a ->
  0 <= workerThreads ->
  Forall (fun b => b = true) (event_base_supply st) ->
  bind_supply st = true ->
  exists st',
    Listener_ctor inet_aton host bind_ip port workerThreads st = Ok tt st' /\
    m_workerThreads st' =
      m_workerThreads st ++ replicate (Z.to_nat workerThreads) new_worker /\
    heap st' = heap st /\
    calls st' =
      rev (worker_calls (Z.to_nat workerThreads) 0 ++
           [ event_base_new true;
             evconnlistener_new_bind
               {| sin_family := AF_INET; sin_port := htons host port; sin_addr := a |} true;
             evconnlistener_set_error_cb;
             thread_start m_acceptorThread ]) ++ calls st.
Proof.
  intros Hlit Hn Hs Hbind. unfold Listener_ctor.
  destruct (Z.ltb_spec workerThreads 0) as [?|_]; [lia|]. run.
  destruct (push_workers_frame (Z.to_nat workerThreads) 0 st Hs)
    as (st1 & E & Hc & Hw & Hs1 & Hh & Hb).
  rewrite E, Hlit.
  assert (Hhd : default true (head (event_base_supply st1)) = true).
  { destruct Hs1; simpl; done. }
  rewrite Hhd. simpl. rewrite Hb, Hbind. simpl.
  eexists. split; [reflexivity|]. simpl.
  split; [done|]. split; [done|].
  by rewrite rev_app_distr, Hc.
Qed.

(** X15.  With a valid bind literal, a worker count that is not negative, a
    base for every [event_base_new] and a port that can be bound, the
    constructor returns: it has appended that many new workers, started two
    threads for each and the acceptor thread last, and has bound the
    listener to the literal's address with the port in network order
    ([htons]). *)
Theorem Listener_ctor_binds
    inet_aton host bind_ip port workerThreads a st :
  inet_aton bind_ip = Some a ->
  0 <= workerThreads ->
  Forall (fun b => b = true) (event_base_supply st) ->
  bind_supply st = true ->
  exists st',
    Listener_ctor inet_aton host bind_ip port workerThreads st = Ok tt st' /\
    m_workerThreads st' =
      m_workerThreads st ++ replicate (Z.to_nat workerThreads) new_worker /\
    heap st' = heap st /\
    calls_since st st' =
      worker_calls (Z.to_nat workerThreads) 0 ++
      [ event_base_new true;
        evconnlistener_new_bind
          {| sin_family := AF_INET; sin_port := htons host port; sin_addr := a |} true;
        evconnlistener_set_error_cb;
        thread_start m_acceptorThread ] /\
    Z.of_nat (count is_thread_start (calls_since st st')) = 2 * workerThreads + 1.
Proof.
  intros Hlit Hn Hs Hbind.
  destruct (Listener_ctor_run inet_aton host bind_ip port workerThreads a st
              Hlit Hn Hs Hbind) as (st' & E & Hw & Hh & Hc).
  apply calls_since_app in Hc.
  exists st'. split; [exact E|]. split; [exact Hw|]. split; [exact Hh|].
  split; [exact Hc|].
  rewrite Hc, count_app, count_worker_calls. simpl. lia.
Qed.

Lemma Listener_ctor_binds_witness :
  exists st',
    Listener_ctor inet_aton_dotted LittleEndian "127.0.0.1" 8085 2 (empty_world [] true)
      = Ok tt st' /\
    m_workerThreads st' = [new_worker; new_worker] /\
    heap st' = ∅ /\
    calls_since (empty_world [] true) st' =
      [ thread_start (m_socketCleanupThread 0); event_base_new true;
        thread_start (m_serviceThread 0);
        thread_start (m_socketCleanupThread 1); event_base_new true;
        thread_start (m_serviceThread 1);
        event_base_new true;
        evconnlistener_new_bind
          {| sin_family := AF_INET; sin_port := 38175;
             sin_addr := {| oct1 := 127; oct2 := 0; oct3 := 0; oct4 := 1 |} |} true;
        evconnlistener_set_error_cb;
        thread_start m_acceptorThread ] /\
    Z.of_nat (count is_thread_start (calls_since (empty_world [] true) st')) = 2 * 2 + 1.
Proof.
  apply (Listener_ctor_binds inet_aton_dotted LittleEndian "127.0.0.1" 8085 2
           {| oct1 := 127; oct2 := 0; oct3 := 0; oct4 := 1 |} (empty_world [] true)).
  - reflexivity.
  - lia.
  - constructor.
  - reflexivity.
Defined.

(** X16.  When the listener cannot be created (the port cannot be bound),
    the constructor frees its event base and throws "Couldn't create
    listener"; the acceptor thread is not started and no error callback is
    set.  The workers were built before: they stay in the vector with their
    two threads each started. *)
Theorem Listener_ctor_bind_failure
    inet_aton host bind_ip port workerThreads a st :
  inet_aton bind_ip = Some a ->
  0 <= workerThreads ->
  Forall (fun b => b = true) (event_base_supply st) ->
  bind_supply st = false ->
  exists st',
    Listener_ctor inet_aton host bind_ip port workerThreads st
      = Fault (Thrown "Couldn't create listener") st' /\
    m_workerThreads st' =
      m_workerThreads st ++ replicate (Z.to_nat workerThreads) new_worker /\
    calls_since st st' =
      worker_calls (Z.to_nat workerThreads) 0 ++
      [ event_base_new true;
        evconnlistener_new_bind
          {| sin_family := AF_INET; sin_port := htons host port; sin_addr := a |} false;
        event_base_free ] /\
    ~ In (thread_start m_acceptorThread) (calls_since st st') /\
    Z.of_nat (count is_thread_start (calls_since st st')) = 2 * workerThreads.
Proof.
  intros Hlit Hn Hs Hbind. unfold Listener_ctor.
  destruct (Z.ltb_spec workerThreads 0) as [?|_]; [lia|]. run.
  destruct (push_workers_frame (Z.to_nat workerThreads) 0 st Hs)
    as (st1 & E & Hc & Hw & Hs1 & Hh & Hb).
  rewrite E, Hlit.
  assert (Hhd : default true (head (event_base_supply st1)) = true).
  { destruct Hs1; simpl; done. }
  rewrite Hhd. simpl. rewrite Hb, Hbind. simpl.
  eexists. split; [reflexivity|]. simpl.
  split; [done|].
  match goal with |- ?L = ?l /\ _ => assert (Hlog : L = l) end.
  { apply calls_since_app. simpl. by rewrite rev_app_distr, Hc. }
  split; [exact Hlog|]. rewrite Hlog. split.
  - intros Hin. apply in_app_or in Hin as [Hin|Hin].
    + by apply worker_calls_no_acceptor in Hin.
    + simpl in Hin. destruct Hin as [?|[?|[?|[]]]]; discriminate.
  - rewrite count_app, count_worker_calls. simpl. lia.
Qed.

Lemma Listener_ctor_bind_failure_witness :
  exists st',
    Listener_ctor inet_aton_dotted LittleEndian "127.0.0.1" 8085 2 (empty_world [] false)
      = Fault (Thrown "Couldn't create listener") st' /\
    m_workerThreads st' = [new_worker; new_worker] /\
    calls_since (empty_world [] false) st' =
      worker_calls 2 0 ++
      [ event_base_new true;
        evconnlistener_new_bind
          {| sin_family := AF_INET; sin_port := htons LittleEndian 8085;
             sin_addr := {| oct1 := 127; oct2 := 0; oct3 := 0; oct4 := 1 |} |} false;
        event_base_free ] /\
    ~ In (thread_start m_acceptorThread) (calls_since (empty_world [] false) st') /\
    Z.of_nat (count is_thread_start (calls_since (empty_world [] false) st')) = 2 * 2.
Proof.
  apply (Listener_ctor_bind_failure inet_aton_dotted LittleEndian "127.0.0.1" 8085 2
           {| oct1 := 127; oct2 := 0; oct3 := 0; oct4 := 1 |} (empty_world [] false)).
  - reflexivity.
  - lia.
  - constructor.
  - reflexivity.
Defined.

(** X17.  When [event_base_new] fails for the worker at index [k], no
    exception reaches the caller of the Listener's constructor.  The [throw]
    in the body of [NetworkThread::NetworkThread] has to destroy the
    members, and the cleanup thread of worker [k], started by its member
    initialiser, is joinable: the process ends in [std::terminate].  By then
    the [k] workers before it are complete, the cleanup thread of worker [k]
    has been started but not its service thread, and nothing of the
    listener has been touched. *)
Theorem Listener_ctor_worker_base_failure
    inet_aton host bind_ip port workerThreads st k rest :
  event_base_supply st = replicate k true ++ false :: rest ->
  Z.of_nat k < workerThreads ->
  exists st',
    Listener_ctor inet_aton host bind_ip port workerThreads st
      = Fault Terminated st' /\
    m_workerThreads st' = m_workerThreads st ++ replicate k new_worker /\
    calls_since st st' =
      worker_calls k 0 ++
      [thread_start (m_socketCleanupThread k); event_base_new false] /\
    count is_thread_start (calls_since st st') = (2 * k + 1)%nat /\
    (forall what st'',
       Listener_ctor inet_aton host bind_ip port workerThreads st
         <> Fault (Thrown what) st'').
Proof.
  intros Hs Hk. unfold Listener_ctor.
  destruct (Z.ltb_spec workerThreads 0) as [?|_]; [lia|]. run.
  destruct (push_workers_fails k (Z.to_nat workerThreads) 0 st rest Hs)
    as (st' & E & Hc & Hw); [lia|].
  rewrite E. rewrite Nat.add_0_r in Hc.
  exists st'. split; [done|]. split; [done|].
  assert (Hlog : calls_since st st' =
    worker_calls k 0 ++ [thread_start (m_socketCleanupThread k); event_base_new false])
    by (by apply calls_since_app).
  split; [exact Hlog|]. split; [|done].
  rewrite Hlog, count_app, count_worker_calls. simpl. lia.
Qed.

Lemma Listener_ctor_worker_base_failure_witness :
  exists st',
    Listener_ctor inet_aton_dotted LittleEndian "127.0.0.1" 8085 4
        (empty_world [true; false; true] true)
      = Fault Terminated st' /\
    m_workerThreads st' = [new_worker] /\
    calls_since (empty_world [true; false; true] true) st' =
      [ thread_start (m_socketCleanupThread 0); event_base_new true;
        thread_start (m_serviceThread 0);
        thread_start (m_socketCleanupThread 1); event_base_new false ] /\
    count is_thread_start (calls_since (empty_world [true; false; true] true) st') = 3%nat /\
    (forall what st'',
       Listener_ctor inet_aton_dotted LittleEndian "127.0.0.1" 8085 4
           (empty_world [true; false; true] true)
         <> Fault (Thrown what) st'').
Proof.
  apply (Listener_ctor_worker_base_failure inet_aton_dotted LittleEndian "127.0.0.1"
           8085 4 (empty_world [true; false; true] true) 1 [true]).
  - reflexivity.
  - simpl. lia.
Defined.

(** X18.  The worker count is not checked.  A negative count makes
    [reserve] throw before anything is called.  A count of zero is
    accepted: the constructor returns with the acceptor thread started and
    an empty worker vector, and the first accepted connection then indexes
    that empty vector in [SelectWorker]. *)
Theorem Listener_ctor_unchecked_count
    inet_aton host bind_ip port a supply :
  inet_aton bind_ip = Some a ->
  Forall (fun b => b = true) supply ->
  (forall workerThreads, workerThreads < 0 ->
   Listener_ctor inet_aton host bind_ip port workerThreads (empty_world supply true)
     = Fault (Thrown "vector::reserve") (empty_world supply true)) /\
  (exists st',
     Listener_ctor inet_aton host bind_ip port 0 (empty_world supply true)
       = Ok tt st' /\
     m_workerThreads st' = [] /\
     In (thread_start m_acceptorThread) (calls_since (empty_world supply true) st') /\
     forall fd address p bev,
       AcceptCallback fd address p bev st' = Fault Undefined st').
Proof.
  intros Hlit Hs. split.
  - intros workerThreads Hneg. unfold Listener_ctor.
    destruct (Z.ltb_spec workerThreads 0) as [_|?]; [|lia]. by run.
  - destruct (Listener_ctor_run inet_aton host bind_ip port 0 a
                (empty_world supply true) Hlit ltac:(lia) Hs eq_refl)
      as (st' & E & Hw & _ & Hlog).
    apply calls_since_app in Hlog.
    exists st'. split; [exact E|]. split; [exact Hw|].
    split. { rewrite Hlog. simpl. tauto. }
    intros fd address p bev. unfold AcceptCallback, SelectWorker, bind.
    by rewrite Hw.
Qed.

Lemma Listener_ctor_unchecked_count_witness :
  (forall workerThreads, workerThreads < 0 ->
   Listener_ctor inet_aton_dotted LittleEndian "0.0.0.0" 8085 workerThreads
       (empty_world [] true)
     = Fault (Thrown "vector::reserve") (empty_world [] true)) /\
  (exists st',
     Listener_ctor inet_aton_dotted LittleEndian "0.0.0.0" 8085 0 (empty_world [] true)
       = Ok tt st' /\
     m_workerThreads st' = [] /\
     In (thread_start m_acceptorThread) (calls_since (empty_world [] true) st') /\
     forall fd address p bev,
       AcceptCallback fd address p bev st' = Fault Undefined st').
Proof.
  apply (Listener_ctor_unchecked_count inet_aton_dotted LittleEndian "0.0.0.0" 8085
           {| oct1 := 0; oct2 := 0; oct3 := 0; oct4 := 0 |} []).
  - reflexivity.
  - constructor.
Defined.

(** ** More on the bookkeeping of a worker *)

Lemma one_accepted_reachable : reachable one_accepted.
Proof.
  apply (reachable_step four_workers).
  - apply reachable_start; [reflexivity|]. repeat constructor.
  - apply (step_accept 1 (peer_sockaddr LittleEndian 10 0 0 7 40001)
             1%positive (Some 101%positive)); vm_compute; reflexivity.
Qed.

Lemma erase_first_length p l r :
  erase_first p l = Some r -> length l = S (length r).
Proof.
  intros H. apply erase_first_Some in H.
  by rewrite (Permutation_length H).
Qed.

Lemma with_closing_id nt : m_closingSockets nt = [] -> with_closing [] nt = nt.
Proof. destruct nt as [a b c]. simpl. by intros ->. Qed.

(** A sublist that holds exactly the entries with a property is the
    filter. *)
Lemma sublist_filter_eq (P : positive -> Prop) `{!forall q, Decision (P q)} r l :
  sublist r l -> NoDup l -> (forall q, q ∈ r <-> q ∈ l /\ P q) -> r = filter P l.
Proof.
  induction 1 as [|x r l Hsub IH|x r l Hsub IH]; intros Hnd Hin.
  - done.
  - apply NoDup_cons in Hnd as [Hx Hnd].
    assert (HP : P x) by (apply (Hin x); apply list_elem_of_here).
    rewrite filter_cons_True by done. f_equal. apply IH; [done|].
    intros q. split.
    + intros Hq. split; [by apply (elem_of_sublist r l)|].
      apply (Hin q). by apply list_elem_of_further.
    + intros [Hq HPq].
      assert (Hq' : q ∈ x :: r) by (apply Hin; split; [by apply list_elem_of_further|done]).
      apply elem_of_cons in Hq' as [->|?]; done.
  - apply NoDup_cons in Hnd as [Hx Hnd].
    assert (HP : ~ P x).
    { intros HP. apply Hx. apply (elem_of_sublist r l); [|done].
      apply Hin. split; [apply list_elem_of_here|done]. }
    rewrite filter_cons_False by done. apply IH; [done|].
    intros q. split.
    + intros Hq. split; [by apply (elem_of_sublist r l)|]. by apply (Hin q).
    + intros [Hq HPq]. apply Hin. split; [by apply list_elem_of_further|done].
Qed.

(** X19.  A connection that is accepted by a worker, closed and reaped
    leaves no trace: after [CreateSocket], [Close] and one cleanup pass on
    a worker whose closing list was empty, the heap and the workers are
    what they were before the connection came. *)
Theorem accept_close_reap_round_trip st w nt fd address p b :
  good st ->
  m_workerThreads st !! w = Some nt -> m_closingSockets nt = [] ->
  heap st !! p = None ->
  exists st1 st2 st3,
    CreateSocket w fd address p (Some b) st = Ok tt st1 /\
    is_live p st1 = true /\
    Close p st1 = Ok tt st2 /\
    is_detached p st2 = true /\
    SocketCleanupPass w st2 = Ok tt st3 /\
    heap st3 = heap st /\
    m_workerThreads st3 = m_workerThreads st.
Proof.
  intros Hg Hw Hcl Hfresh.
  assert (Hlt : (w < length (m_workerThreads st))%nat) by (by apply lookup_lt_Some in Hw).
  pose proof (CreateSocket_run st w fd address p (Some b) nt Hw) as E1.
  set (st1 := Build_World _ _ _ _ _ _) in E1.
  set (s1 := new_Socket fd address (Some (RemoveSocketOf w)) (Some b)).
  assert (Hg1 : good st1) by (by apply (CreateSocket_good st w fd address p (Some b))).
  assert (Hp1 : heap st1 !! p = Some s1) by (simpl; apply lookup_insert_eq).
  assert (Hw1 : m_workerThreads st1 !! w = Some (with_live p nt))
    by (simpl; by apply list_lookup_insert_eq).
  pose proof (Close_live st1 p s1 _ w (with_live p nt) Hp1 eq_refl eq_refl Hw1) as E2.
  set (st2 := closed_world _ _ _ _ _ _) in E2.
  assert (Hg2 : good st2) by (by apply (Close_good p st1)).
  assert (Hmoved : moved p (with_live p nt)
                   = {| m_sockets := m_sockets nt; m_closingSockets := [p];
                        m_pendingShutdown := m_pendingShutdown nt |}).
  { unfold moved, with_live. cbn [m_sockets m_closingSockets m_pendingShutdown].
    rewrite erase_first_head. by rewrite Hcl. }
  assert (Hw2 : m_workerThreads st2 !! w = Some (moved p (with_live p nt))).
  { simpl. rewrite list_lookup_insert_eq; [done|]. by rewrite length_insert. }
  assert (Hdet2 : is_detached p st2 = true).
  { unfold is_detached. simpl. by rewrite lookup_insert_eq. }
  destruct Hg2 as [Ht2 _].
  destruct (SocketCleanupPass_run st2 w _ Ht2 Hw2)
    as (r & st3 & E3 & Hw3 & Hsub & Hin & Hgone & Hkept).
  rewrite Hmoved in Hin, Hgone, Hkept, Hw3. simpl in Hin, Hgone, Hkept.
  assert (Hr : r = []).
  { destruct r as [|q r]; [done|]. exfalso.
    destruct (Hin q) as [Hq _]. destruct Hq as [Hq Hopen]; [apply list_elem_of_here|].
    apply list_elem_of_singleton in Hq as ->. by rewrite Hdet2 in Hopen. }
  subst r.
  exists st1, st2, st3. split; [exact E1|].
  split. { unfold is_live. by rewrite Hp1. }
  split; [exact E2|]. split; [exact Hdet2|]. split; [exact E3|]. split.
  - apply map_eq. intros q. destruct (decide (q = p)) as [->|Hq].
    + rewrite Hfresh. apply Hgone; [apply list_elem_of_here|done].
    + rewrite Hkept.
      * simpl. by rewrite !lookup_insert_ne.
      * intros [Hin' _]. by apply list_elem_of_singleton in Hin'.
  - rewrite Hw3. simpl. rewrite !list_insert_insert_eq.
    apply list_insert_id. rewrite Hw. f_equal.
    destruct nt as [a c f]. simpl in *. by subst.
Qed.

Lemma accept_close_reap_round_trip_witness :
  exists st1 st2 st3,
    CreateSocket 2 9 (peer_sockaddr LittleEndian 10 0 0 7 40009) 9%positive
      (Some 109%positive) one_accepted = Ok tt st1 /\
    is_live 9%positive st1 = true /\
    Close 9%positive st1 = Ok tt st2 /\
    is_detached 9%positive st2 = true /\
    SocketCleanupPass 2 st2 = Ok tt st3 /\
    heap st3 = heap one_accepted /\
    m_workerThreads st3 = m_workerThreads one_accepted.
Proof.
  apply (accept_close_reap_round_trip one_accepted 2 new_worker 9
           (peer_sockaddr LittleEndian 10 0 0 7 40009) 9%positive 109%positive).
  - apply reachable_good, one_accepted_reachable.
  - reflexivity.
  - reflexivity.
  - reflexivity.
Defined.

(** X20.  In a reachable world, [Close] of a live Socket takes it out of the
    live list of its worker at once: the worker's [Size], which
    [SelectWorker] reads, is one less as soon as [Close] returns, before
    any cleanup pass, and the Socket heads the closing list. *)
Theorem Close_releases_load st p :
  reachable st -> is_live p st = true ->
  exists w nt st',
    m_workerThreads st !! w = Some nt /\
    p ∈ m_sockets nt /\
    Close p st = Ok tt st' /\
    m_workerThreads st' = <[w := moved p nt]> (m_workerThreads st) /\
    S (Size (moved p nt)) = Size nt /\
    m_closingSockets (moved p nt) = p :: m_closingSockets nt /\
    sizes st' = <[w := Size (moved p nt)]> (sizes st).
Proof.
  intros Hr Hlive. unfold is_live in Hlive.
  destruct (heap st !! p) as [s|] eqn:Hp; [|done].
  destruct (m_bev s) as [bev|] eqn:Hb;
    [|by apply bool_decide_eq_true in Hlive as [? ?]].
  destruct (reachable_notifies st p s Hr Hp) as (w & nt & Hh & Hw).
  destruct (reachable_good st Hr) as (Ht & Hc & _).
  assert (Hin : p ∈ m_sockets nt).
  { destruct (Ht w nt Hw) as [_ Hown].
    assert (Ho : p ∈ owned nt) by (apply Hown; by exists s).
    apply elem_of_app in Ho as [?|Hcl]; [done|].
    pose proof (Hc w nt p Hw Hcl) as Hdet. unfold is_detached in Hdet.
    rewrite Hp, Hb in Hdet. by apply bool_decide_eq_true in Hdet. }
  destruct (erase_first_elem p (m_sockets nt) Hin) as (rest & He).
  exists w, nt, (closed_world p s (bev_ptr bev) w nt st).
  split; [done|]. split; [done|].
  split; [by apply Close_live|]. split; [done|].
  unfold moved. rewrite He. simpl.
  split. { unfold Size. simpl. by rewrite (erase_first_length p _ rest He). }
  split; [done|].
  unfold sizes. simpl. rewrite list_fmap_insert. f_equal.
  unfold moved. by rewrite He.
Qed.

Lemma Close_releases_load_witness :
  exists w nt st',
    m_workerThreads one_accepted !! w = Some nt /\
    1%positive ∈ m_sockets nt /\
    Close 1%positive one_accepted = Ok tt st' /\
    m_workerThreads st' = <[w := moved 1%positive nt]> (m_workerThreads one_accepted) /\
    S (Size (moved 1%positive nt)) = Size nt /\
    m_closingSockets (moved 1%positive nt) = 1%positive :: m_closingSockets nt /\
    sizes st' = <[w := Size (moved 1%positive nt)]> (sizes one_accepted).
Proof.
  apply (Close_releases_load one_accepted 1%positive).
  - apply one_accepted_reachable.
  - reflexivity.
Defined.

(** X21.  [Socket::Socket] does not check what [bufferevent_socket_new]
    returns.  When it returns null, the constructor passes the null pointer
    on to [bufferevent_setcb] and [bufferevent_enable], and [CreateSocket]
    puts the Socket, which is detached from the start, into the live list.
    There it stays: it counts as load of the worker, [Close] returns on its
    first test without notifying the worker, and a cleanup pass does not
    look at the live list. *)
Theorem stillborn_Socket_stays_live_listed st w nt fd address p :
  good st -> m_workerThreads st !! w = Some nt -> heap st !! p = None ->
  exists st1 st2,
    CreateSocket w fd address p None st = Ok tt st1 /\
    In (bufferevent_setcb None true true) (calls_since st st1) /\
    In (bufferevent_enable None) (calls_since st st1) /\
    is_detached p st1 = true /\
    m_workerThreads st1 !! w = Some (with_live p nt) /\
    Size (with_live p nt) = S (Size nt) /\
    (forall rs, perform_all p rs st1 = Ok (detached_answer <$> rs) st1) /\
    SocketCleanupPass w st1 = Ok tt st2 /\
    m_workerThreads st2 !! w = Some (with_closing [] (with_live p nt)) /\
    is_detached p st2 = true.
Proof.
  intros Hg Hw Hfresh.
  assert (Hlt : (w < length (m_workerThreads st))%nat) by (by apply lookup_lt_Some in Hw).
  pose proof (CreateSocket_run st w fd address p None nt Hw) as E1.
  set (st1 := Build_World _ _ _ _ _ _) in E1.
  set (s1 := new_Socket fd address (Some (RemoveSocketOf w)) None).
  assert (Hg1 : good st1) by (by apply (CreateSocket_good st w fd address p None)).
  assert (Hp1 : heap st1 !! p = Some s1) by (simpl; apply lookup_insert_eq).
  assert (Hw1 : m_workerThreads st1 !! w = Some (with_live p nt))
    by (simpl; by apply list_lookup_insert_eq).
  assert (Hlog : calls_since st st1 =
            [ lock (m_socketLock w); bufferevent_socket_new fd None;
              bufferevent_setcb None true true; bufferevent_enable None;
              unlock (m_socketLock w) ]) by (by apply calls_since_app).
  destruct (SocketCleanupPass_all st1 w _ Hg1 Hw1) as (st2 & E2 & _ & Hw2 & _ & Hkept).
  assert (Hout : p ∉ m_closingSockets (with_live p nt)).
  { simpl. intros Hin. destruct Hg as [Ht _]. destruct (Ht w nt Hw) as [_ Hown].
    assert (Hcb : created_by st w p) by (apply Hown, elem_of_app; by right).
    destruct Hcb as (s & Hs & _). by rewrite Hfresh in Hs. }
  exists st1, st2. split; [exact E1|]. rewrite Hlog.
  split; [simpl; tauto|]. split; [simpl; tauto|].
  split. { unfold is_detached. by rewrite Hp1. }
  split; [exact Hw1|]. split; [done|].
  split. { intros rs. by apply (perform_all_detached st1 p s1). }
  split; [exact E2|]. split; [exact Hw2|].
  unfold is_detached. by rewrite (Hkept p Hout), Hp1.
Qed.

Lemma stillborn_Socket_stays_live_listed_witness :
  exists st1 st2,
    CreateSocket 2 9 (peer_sockaddr LittleEndian 10 0 0 7 40009) 9%positive None
      one_accepted = Ok tt st1 /\
    In (bufferevent_setcb None true true) (calls_since one_accepted st1) /\
    In (bufferevent_enable None) (calls_since one_accepted st1) /\
    is_detached 9%positive st1 = true /\
    m_workerThreads st1 !! 2%nat = Some (with_live 9%positive new_worker) /\
    Size (with_live 9%positive new_worker) = S (Size new_worker) /\
    (forall rs, perform_all 9%positive rs st1 = Ok (detached_answer <$> rs) st1) /\
    SocketCleanupPass 2 st1 = Ok tt st2 /\
    m_workerThreads st2 !! 2%nat
      = Some (with_closing [] (with_live 9%positive new_worker)) /\
    is_detached 9%positive st2 = true.
Proof.
  apply (stillborn_Socket_stays_live_listed one_accepted 2 new_worker 9
           (peer_sockaddr LittleEndian 10 0 0 7 40009) 9%positive).
  - apply reachable_good, one_accepted_reachable.
  - reflexivity.
  - reflexivity.
Defined.

(** X22.  A cleanup pass erases from the closing list exactly the Sockets
    that are closed, and destroys them; a Socket that is in the closing
    list but still open (after a direct [RemoveSocket]) stays there, in its
    place, and is not destroyed.  The live list is not touched. *)
Theorem cleanup_pass_keeps_open_Sockets st w nt :
  tidy st -> m_workerThreads st !! w = Some nt ->
  exists st',
    SocketCleanupPass w st = Ok tt st' /\
    m_workerThreads st' =
      <[w := with_closing
               (filter (fun q => is_detached q st = false) (m_closingSockets nt)) nt]>
        (m_workerThreads st) /\
    (forall q, q ∈ m_closingSockets nt -> is_detached q st = true ->
               heap st' !! q = None) /\
    (forall q, ~ (q ∈ m_closingSockets nt /\ is_detached q st = true) ->
               heap st' !! q = heap st !! q).
Proof.
  intros Ht Hw.
  destruct (SocketCleanupPass_run st w nt Ht Hw)
    as (r & st' & E & Hw' & Hsub & Hin & Hgone & Hkept).
  exists st'. split; [exact E|].
  split; [|split; [exact Hgone|exact Hkept]].
  rewrite Hw'. do 2 f_equal.
  apply sublist_filter_eq; [done| |done].
  by apply (tidy_closing_NoDup st w).
Qed.

Lemma misfiled_tidy : tidy misfiled.
Proof.
  apply (tidy_moved one_accepted misfiled 0
           {| m_sockets := [1%positive]; m_closingSockets := [];
              m_pendingShutdown := false |} 1%positive).
  - reflexivity.
  - reflexivity.
  - reflexivity.
  - apply reachable_good, one_accepted_reachable.
Qed.

Lemma cleanup_pass_keeps_open_Sockets_witness :
  exists st',
    SocketCleanupPass 0 misfiled = Ok tt st' /\
    m_workerThreads st' =
      <[0%nat := with_closing
               (filter (fun q => is_detached q misfiled = false) [1%positive])
               {| m_sockets := []; m_closingSockets := [1%positive];
                  m_pendingShutdown := false |}]>
        (m_workerThreads misfiled) /\
    (forall q, q ∈ [1%positive] -> is_detached q misfiled = true ->
               heap st' !! q = None) /\
    (forall q, ~ (q ∈ [1%positive] /\ is_detached q misfiled = true) ->
               heap st' !! q = heap misfiled !! q).
Proof.
  apply (cleanup_pass_keeps_open_Sockets misfiled 0
           {| m_sockets := []; m_closingSockets := [1%positive];
              m_pendingShutdown := false |}).
  - apply misfiled_tidy.
  - reflexivity.
Defined.

(** The sweep over a list of closed Sockets destroys each of them, in the
    order of the list, and calls nothing else. *)
Lemma sweep_closed_calls l : forall st,
  NoDup l ->
  (forall q, q ∈ l -> is_detached q st = true) ->
  exists st',
    sweep l st = Ok [] st' /\
    calls st' = rev (delete_Socket <$> l) ++ calls st /\
    m_workerThreads st' = m_workerThreads st.
Proof.
  induction l as [|i l IH]; intros st Hnd Hdet.
  - by exists st.
  - apply NoDup_cons in Hnd as [Hi Hnd].
    assert (Hdi : is_detached i st = true) by (apply Hdet, list_elem_of_here).
    apply is_detached_true in Hdi as (s & Hs & Hb).
    set (st1 := set_heap (delete i) (set_calls (cons (delete_Socket i)) st)).
    destruct (IH st1 Hnd) as (st' & E & Hc & Hw).
    { intros q Hq. rewrite <- (Hdet q (list_elem_of_further _ _ _ Hq)).
      apply is_detached_ext. simpl. apply lookup_delete_ne.
      intros ->. done. }
    exists st'. split.
    { simpl. rewrite (bind_Ok _ _ _ _ _ (IsClosed_detached st i s Hs Hb)). cbv beta iota.
      rewrite (bind_Ok _ _ _ _ _ (Socket_dtor_detached st i s Hs Hb)). exact E. }
    split; [|by rewrite Hw].
    rewrite Hc. simpl. by rewrite <- app_assoc.
Qed.

(** X23.  In a world where every Socket of the closing list is closed (every
    reachable world), a cleanup pass takes the closing lock of its worker
    and no other lock: it destroys the Sockets of the closing list one by
    one, in the order of the list, each once, and never takes the read lock
    of a Socket while it holds the closing lock. *)
Theorem cleanup_pass_takes_one_lock st w nt :
  good st -> m_workerThreads st !! w = Some nt ->
  exists st',
    SocketCleanupPass w st = Ok tt st' /\
    calls_since st st' =
      [lock (m_closingSocketLock w)]
      ++ (delete_Socket <$> m_closingSockets nt)
      ++ [unlock (m_closingSocketLock w)] /\
    (forall m, In (lock m) (calls_since st st') -> m = m_closingSocketLock w).
Proof.
  intros Hg Hw. destruct Hg as (Ht & Hc & _).
  set (st0 := set_calls (cons (lock (m_closingSocketLock w))) st).
  destruct (sweep_closed_calls (m_closingSockets nt) st0) as (st1 & E & Hcalls & Hw1).
  { by apply (tidy_closing_NoDup st w). }
  { intros q Hq. by apply (Hc w nt q Hw). }
  set (st' := set_calls (cons (unlock (m_closingSocketLock w)))
                (set_workers (fun l => <[w := with_closing [] nt]> l) st1)).
  assert (Hlog : calls_since st st' =
      [lock (m_closingSocketLock w)]
      ++ (delete_Socket <$> m_closingSockets nt)
      ++ [unlock (m_closingSocketLock w)]).
  { apply calls_since_app. simpl. rewrite Hcalls. simpl.
    rewrite !rev_app_distr. simpl. by rewrite <- app_assoc. }
  exists st'. split.
  { unfold SocketCleanupPass. run. fold st0. rewrite E. simpl.
    rewrite Hw1. simpl. by rewrite Hw. }
  split; [exact Hlog|].
  intros m Hin. rewrite Hlog in Hin. simpl in Hin.
  destruct Hin as [Hin|Hin]; [by injection Hin as <-|].
  apply in_app_or in Hin as [Hin|Hin].
  - apply list_elem_of_In, list_elem_of_fmap in Hin as (q & Hq & _). discriminate.
  - simpl in Hin. destruct Hin as [?|[]]. discriminate.
Qed.

Lemma cleanup_pass_takes_one_lock_witness :
  exists st',
    SocketCleanupPass 0 one_closed = Ok tt st' /\
    calls_since one_closed st' =
      [lock (m_closingSocketLock 0)]
      ++ (delete_Socket <$> [1%positive])
      ++ [unlock (m_closingSocketLock 0)] /\
    (forall m, In (lock m) (calls_since one_closed st') -> m = m_closingSocketLock 0).
Proof.
  apply (cleanup_pass_takes_one_lock one_closed 0
           {| m_sockets := []; m_closingSockets := [1%positive];
              m_pendingShutdown := false |}).
  - apply reachable_good, one_closed_reachable.
  - reflexivity.
Defined.

(** *** What the destruction of a worker touches *)

Lemma only_own_refl w st : only_own w st st.
Proof. repeat split; eauto. Qed.

Lemma only_own_trans w st1 st2 st3 :
  only_own w st1 st2 -> only_own w st2 st3 -> only_own w st1 st3.
Proof.
  intros (Hk1 & Hh1 & Hw1) (Hk2 & Hh2 & Hw2). split; [|split].
  - intros p Hp. rewrite <- (Hk1 p Hp). apply Hk2.
    intros (s & Hs & Hh). apply Hp. exists s. by rewrite <- (Hk1 p Hp).
  - intros p s3 Hs3. destruct (Hh2 p s3 Hs3) as (s2 & Hs2 & E2).
    destruct (Hh1 p s2 Hs2) as (s1 & Hs1 & E1). exists s1. split; congruence.
  - intros w' Hw'. by rewrite (Hw2 w' Hw'), (Hw1 w' Hw').
Qed.

Lemma only_own_frame w st st' :
  heap st' = heap st -> m_workerThreads st' = m_workerThreads st -> only_own w st st'.
Proof.
  intros Hh Hw. split; [|split].
  - intros p _. by rewrite Hh.
  - intros p s' Hs'. exists s'. by rewrite <- Hh.
  - intros w' _. by rewrite Hw.
Qed.

Lemma only_own_store w nt' st :
  only_own w st (set_workers (fun l => <[w := nt']> l) st).
Proof.
  split; [|split].
  - by intros p _.
  - intros p s' Hs'. by exists s'.
  - intros w' Hw'. simpl. by apply list_lookup_insert_ne.
Qed.

Lemma close_front_only_own st w nt front rest c st1 st2 :
  good st -> m_workerThreads st !! w = Some nt -> m_sockets nt = front :: rest ->
  IsClosed front st = Ok c st1 ->
  (if c then bind (store_worker w (with_sockets rest nt)) (fun _ => Socket_dtor front)
   else Close front) st1 = Ok tt st2 ->
  only_own w st st2.
Proof.
  intros Hg Hw Hl Hc Hstep. pose proof Hg as [Ht _].
  assert (Hcb : created_by st w front).
  { destruct (Ht w nt Hw) as [_ Hown]. apply Hown. unfold owned. rewrite Hl.
    apply list_elem_of_here. }
  pose proof Hcb as (s & Hs & Hh).
  destruct (m_bev s) as [bev|] eqn:Hb.
  - rewrite (IsClosed_live _ _ _ _ Hs Hb) in Hc. injection Hc as <- <-.
    set (st1 := set_calls _ st) in Hstep.
    rewrite (Close_live st1 front s bev w nt Hs Hb Hh Hw) in Hstep.
    injection Hstep as <-. split; [|split].
    + intros p Hp. simpl. apply lookup_insert_ne. by intros ->.
    + intros p s' Hs'. simpl in Hs'.
      destruct (decide (p = front)) as [->|Hne].
      * rewrite lookup_insert_eq in Hs'. injection Hs' as <-. by exists s.
      * rewrite lookup_insert_ne in Hs' by done. by exists s'.
    + intros w' Hw'. simpl. by apply list_lookup_insert_ne.
  - rewrite (IsClosed_detached _ _ _ Hs Hb) in Hc. injection Hc as <- <-.
    cbv beta iota delta [bind store_worker modify] in Hstep.
    rewrite (Socket_dtor_detached _ front s) in Hstep by done.
    injection Hstep as <-. split; [|split].
    + intros p Hp. simpl. apply lookup_delete_ne. by intros ->.
    + intros p s' Hs'. simpl in Hs'.
      destruct (decide (p = front)) as [->|Hne].
      * by rewrite lookup_delete_eq in Hs'.
      * rewrite lookup_delete_ne in Hs' by done. by exists s'.
    + intros w' Hw'. simpl. by apply list_lookup_insert_ne.
Qed.

Lemma close_all_only_own fuel w : forall st st',
  close_all fuel w st = Ok tt st' -> good st -> only_own w st st'.
Proof.
  induction fuel as [|fuel IH]; intros st st' H Hg; [done|].
  destruct (m_workerThreads st !! w) as [nt|] eqn:Hw;
    [|by rewrite close_all_dangling in H].
  destruct (m_sockets nt) as [|front rest] eqn:Hl.
  - rewrite (close_all_empty _ _ _ _ Hw Hl) in H. injection H as <-.
    apply only_own_refl.
  - destruct (close_front st w nt front rest Hg Hw Hl)
      as (c & st1 & st2 & Hc & Hstep & Hg2 & _).
    rewrite (close_all_unfold _ _ _ _ _ _ _ _ _ Hw Hl Hc Hstep) in H.
    apply (only_own_trans w st st2 st').
    + by apply (close_front_only_own st w nt front rest c st1 st2).
    + by apply IH.
Qed.

Lemma SocketCleanupPass_only_own st w nt :
  good st -> m_workerThreads st !! w = Some nt ->
  exists st', SocketCleanupPass w st = Ok tt st' /\ good st' /\
              m_workerThreads st' !! w = Some (with_closing [] nt) /\
              only_own w st st'.
Proof.
  intros Hg Hw. pose proof Hg as (Ht & Hc & _).
  destruct (SocketCleanupPass_all st w nt Hg Hw) as (st' & E & Hg' & Hw' & Hgone & Hkept).
  destruct (SocketCleanupPass_run st w nt Ht Hw) as (r & st'' & E' & Hws & _).
  rewrite E in E'. injection E' as <-.
  exists st'. split; [done|]. split; [done|]. split; [done|].
  split; [|split].
  - intros p Hp. apply Hkept. intros Hin. apply Hp.
    destruct (Ht w nt Hw) as [_ Hown]. apply Hown, elem_of_app. by right.
  - intros p s' Hs'. exists s'. split; [|done].
    destruct (decide (p ∈ m_closingSockets nt)) as [Hin|Hout].
    + by rewrite (Hgone p Hin) in Hs'.
    + by rewrite <- (Hkept p Hout).
  - intros w' Hne. rewrite Hws. by apply list_lookup_insert_ne.
Qed.

Lemma SocketCleanupWork_only_own fuel w : forall st st',
  SocketCleanupWork fuel w st = Ok tt st' -> good st -> only_own w st st'.
Proof.
  induction fuel as [|fuel IH]; intros st st' H Hg; [done|].
  destruct (m_workerThreads st !! w) as [nt|] eqn:Hw;
    [|by rewrite SocketCleanupWork_dangling in H].
  rewrite (SocketCleanupWork_unfold _ _ _ _ Hw) in H.
  destruct (negb (m_pendingShutdown nt) || negb (is_nil (m_closingSockets nt))).
  - destruct (SocketCleanupPass_only_own st w nt Hg Hw) as (st1 & E & Hg1 & _ & Hoo).
    rewrite (bind_Ok _ _ _ _ _ E) in H.
    apply (only_own_trans w st st1 st'); [done|]. by apply IH.
  - injection H as <-. apply only_own_refl.
Qed.

Lemma NetworkThread_dtor_only_own fuel w st st' :
  NetworkThread_dtor fuel w st = Ok tt st' -> good st -> only_own w st st'.
Proof.
  rewrite NetworkThread_dtor_split. intros H Hg.
  apply bind_inv in H as ([] & st1 & H1 & H).
  destruct (close_all_good _ _ _ _ H1 Hg) as (Hg1 & nt & nt1 & Hw & Hw1 & Hl1 & Hf1).
  pose proof (close_all_only_own _ _ _ _ H1 Hg) as Hoo1.
  rewrite (bind_Ok _ _ _ _ _ (worker_Some _ _ _ Hw1)) in H.
  apply bind_inv in H as ([] & st2 & H2 & H).
  injection H2 as <-.
  assert (Hlt : (w < length (m_workerThreads st1))%nat) by (by apply lookup_lt_Some in Hw1).
  assert (Hg2 : good (set_workers (fun l => <[w := with_shutdown nt1]> l) st1))
    by (by apply (good_shutdown st1 _ w nt1)).
  apply bind_inv in H as ([] & st3 & H3 & H).
  destruct (SocketCleanupWork_good _ _ _ _ H3 Hg2)
    as (Hg3 & nt2 & nt3 & Hw2 & Hw3 & Hl3 & Hf3 & Hc3).
  pose proof (SocketCleanupWork_only_own _ _ _ _ H3 Hg2) as Hoo3.
  simpl in Hw2. rewrite list_lookup_insert_eq in Hw2 by done. injection Hw2 as <-.
  simpl in Hl3. rewrite Hl1 in Hl3.
  rewrite (dead_worker_eq nt3 Hl3 Hc3 Hf3) in Hw3.
  destruct (dtor_tail_run st3 w Hw3 Hg3) as (st4 & E & Hg4 & Hh4 & Hw4).
  rewrite E in H. injection H as <-.
  apply (only_own_trans w st st1); [done|].
  apply (only_own_trans w st1 (set_workers (fun l => <[w := with_shutdown nt1]> l) st1));
    [apply only_own_store|].
  apply (only_own_trans w _ st3); [done|].
  by apply only_own_frame.
Qed.

(** X24.  The destructor of a worker returns, given fuel for its loops, and
    destroys exactly the Sockets the worker owns: none of them exists
    afterwards, whether it was live or already closing, every other Socket
    is as it was, the other workers are as they were, and the worker's two
    lists are empty. *)
Theorem NetworkThread_dtor_destroys_own_Sockets fuel w st nt :
  good st -> m_workerThreads st !! w = Some nt ->
  (length (m_sockets nt) < fuel)%nat -> (2 <= fuel)%nat ->
  exists st',
    NetworkThread_dtor fuel w st = Ok tt st' /\
    (forall p, p ∈ owned nt -> heap st' !! p = None) /\
    (forall p, p ∉ owned nt -> heap st' !! p = heap st !! p) /\
    (forall w', w' <> w -> m_workerThreads st' !! w' = m_workerThreads st !! w') /\
    m_workerThreads st' !! w = Some dead_worker.
Proof.
  intros Hg Hw Hlen Hfuel.
  destruct (NetworkThread_dtor_returns fuel w st nt Hg Hw Hlen Hfuel) as (st' & E & Hw').
  pose proof (NetworkThread_dtor_good fuel w st st' E Hg) as (Ht' & _).
  destruct (NetworkThread_dtor_only_own fuel w st st' E Hg) as (Hkept & Hhandler & Hothers).
  destruct Hg as (Ht & _). destruct (Ht w nt Hw) as [_ Hown].
  destruct (Ht' w dead_worker Hw') as [_ Hown'].
  exists st'. split; [exact E|]. split; [|split; [|split; [exact Hothers|exact Hw']]].
  - intros p Hp. apply Hown in Hp as (s & Hs & Hh).
    destruct (heap st' !! p) as [s'|] eqn:Hs'; [|done]. exfalso.
    destruct (Hhandler p s' Hs') as (s0 & Hs0 & Hh0).
    rewrite Hs in Hs0. injection Hs0 as <-.
    assert (Hcb : created_by st' w p) by (exists s'; split; congruence).
    apply Hown' in Hcb. by apply elem_of_nil in Hcb.
  - intros p Hp. apply Hkept. intros Hcb. by apply Hp, Hown.
Qed.

Lemma NetworkThread_dtor_destroys_own_Sockets_witness :
  exists st',
    NetworkThread_dtor 3 0 one_accepted = Ok tt st' /\
    (forall p, p ∈ [1%positive] -> heap st' !! p = None) /\
    (forall p, p ∉ [1%positive] -> heap st' !! p = heap one_accepted !! p) /\
    (forall w', w' <> 0%nat ->
       m_workerThreads st' !! w' = m_workerThreads one_accepted !! w') /\
    m_workerThreads st' !! 0%nat = Some dead_worker.
Proof.
  apply (NetworkThread_dtor_destroys_own_Sockets 3 0 one_accepted
           {| m_sockets := [1%positive]; m_closingSockets := [];
              m_pendingShutdown := false |}).
  - apply reachable_good, one_accepted_reachable.
  - reflexivity.
  - simpl. lia.
  - lia.
Defined.

(** X25.  The cleanup thread ends exactly on shutdown.  While the shutdown
    flag of its worker is not set its loop goes on, however many turns it
    is given, even with nothing to reap.  Once the flag is set it returns
    within two turns, with the closing list empty and every Socket that was
    in it destroyed. *)
Theorem cleanup_thread_runs_until_shutdown st w nt :
  good st -> m_workerThreads st !! w = Some nt ->
  (m_pendingShutdown nt = false ->
   forall fuel, exists st', SocketCleanupWork fuel w st = Fault OutOfFuel st') /\
  (m_pendingShutdown nt = true ->
   forall fuel, (2 <= fuel)%nat ->
   exists st',
     SocketCleanupWork fuel w st = Ok tt st' /\
     m_workerThreads st' !! w = Some (with_closing [] nt) /\
     (forall q, q ∈ m_closingSockets nt -> heap st' !! q = None)).
Proof.
  intros Hg Hw. split.
  - intros Hflag fuel. revert st nt Hg Hw Hflag.
    induction fuel as [|fuel IH]; intros st nt Hg Hw Hflag; [by exists st|].
    rewrite (SocketCleanupWork_unfold _ _ _ _ Hw), Hflag. cbn [negb orb].
    destruct (SocketCleanupPass_all st w nt Hg Hw) as (st1 & E & Hg1 & Hw1 & _).
    rewrite (bind_Ok _ _ _ _ _ E). by apply (IH st1 (with_closing [] nt)).
  - intros Hflag fuel Hfuel.
    destruct (SocketCleanupWork_returns fuel w st nt Hg Hw Hflag Hfuel) as (st' & E).
    destruct (SocketCleanupWork_good fuel w st st' E Hg)
      as ((Ht' & _) & nt0 & nt' & Hw0 & Hw' & Hl' & Hf' & Hc').
    rewrite Hw in Hw0. injection Hw0 as <-.
    destruct (SocketCleanupWork_only_own fuel w st st' E Hg) as (_ & Hhandler & _).
    assert (Hnt' : nt' = with_closing [] nt).
    { destruct nt' as [a c f], nt as [a0 c0 f0]. simpl in *. by subst. }
    subst nt'. exists st'. split; [exact E|]. split; [exact Hw'|].
    intros q Hq. destruct Hg as (Ht & _). destruct (Ht w nt Hw) as [Hnd Hown].
    destruct (heap st' !! q) as [s'|] eqn:Hs'; [|done]. exfalso.
    destruct (Hhandler q s' Hs') as (s & Hs & Hh).
    assert (Hcb : created_by st w q) by (apply Hown, elem_of_app; by right).
    destruct Hcb as (s0 & Hs0 & Hh0). rewrite Hs in Hs0. injection Hs0 as <-.
    assert (Hcb' : created_by st' w q) by (exists s'; split; congruence).
    destruct (Ht' w _ Hw') as [_ Hown']. apply Hown' in Hcb'.
    unfold owned in Hcb', Hnd. simpl in Hcb'. rewrite app_nil_r in Hcb'.
    apply NoDup_app in Hnd as (_ & Hdisj & _). by apply (Hdisj q).
Qed.

Lemma shutting_down_good : good shutting_down.
Proof.
  apply (good_shutdown one_closed shutting_down 0
           {| m_sockets := []; m_closingSockets := [1%positive];
              m_pendingShutdown := false |}).
  - reflexivity.
  - reflexivity.
  - reflexivity.
  - apply reachable_good, one_closed_reachable.
Qed.

Lemma cleanup_thread_runs_until_shutdown_witness :
  (forall fuel, exists st', SocketCleanupWork fuel 0 one_closed = Fault OutOfFuel st') /\
  (exists st',
     SocketCleanupWork 2 0 shutting_down = Ok tt st' /\
     m_workerThreads st' !! 0%nat = Some dead_worker /\
     heap st' !! 1%positive = None).
Proof.
  split.
  - apply (cleanup_thread_runs_until_shutdown one_closed 0
             {| m_sockets := []; m_closingSockets := [1%positive];
                m_pendingShutdown := false |}).
    + apply reachable_good, one_closed_reachable.
    + reflexivity.
    + reflexivity.
  - destruct (cleanup_thread_runs_until_shutdown shutting_down 0
                {| m_sockets := []; m_closingSockets := [1%positive];
                   m_pendingShutdown := true |} shutting_down_good eq_refl)
      as [_ Hstop].
    destruct (Hstop eq_refl 2%nat) as (st' & E & Hw & Hgone); [lia|].
    exists st'. split; [exact E|]. split; [exact Hw|].
    apply Hgone, list_elem_of_here.
Defined.

(** *** The destruction of all workers *)

Lemma destroy_workers_run fuel order :
  (2 <= fuel)%nat ->
  forall st,
    good st ->
    (forall w, w ∈ order -> is_Some (m_workerThreads st !! w)) ->
    (forall w nt, m_workerThreads st !! w = Some nt ->
                  (length (m_sockets nt) < fuel)%nat) ->
    exists st',
      destroy_workers fuel order st = Ok tt st' /\
      good st' /\
      (forall w, w ∈ order -> m_workerThreads st' !! w = Some dead_worker) /\
      (forall w, w ∉ order -> m_workerThreads st' !! w = m_workerThreads st !! w).
Proof.
  intros Hfuel. induction order as [|w rest IH]; intros st Hg Hvalid Hlen.
  - exists st. split; [done|]. split; [done|]. split; [|done].
    intros w Hw. by apply elem_of_nil in Hw.
  - destruct (Hvalid w (list_elem_of_here _ _)) as [nt Hw].
    destruct (NetworkThread_dtor_returns fuel w st nt Hg Hw (Hlen w nt Hw) Hfuel)
      as (st1 & E1 & Hw1).
    pose proof (NetworkThread_dtor_good fuel w st st1 E1 Hg) as Hg1.
    destruct (NetworkThread_dtor_only_own fuel w st st1 E1 Hg) as (_ & _ & Hothers).
    destruct (IH st1 Hg1) as (st' & E & Hg' & Hdead & Hkept).
    { intros w' Hw'. destruct (decide (w' = w)) as [->|Hne]; [by rewrite Hw1|].
      rewrite (Hothers w' Hne). by apply Hvalid, list_elem_of_further. }
    { intros w' nt' Hw'. destruct (decide (w' = w)) as [->|Hne].
      - rewrite Hw1 in Hw'. injection Hw' as <-. simpl. lia.
      - rewrite (Hothers w' Hne) in Hw'. by apply (Hlen w'). }
    exists st'. split.
    { simpl. by rewrite (bind_Ok _ _ _ _ _ E1). }
    split; [done|]. split.
    + intros w' Hw'. destruct (decide (w' ∈ rest)) as [Hin|Hout]; [by apply Hdead|].
      apply elem_of_cons in Hw' as [->|?]; [|done].
      by rewrite (Hkept w Hout).
    + intros w' Hw'. apply not_elem_of_cons in Hw' as [Hne Hout].
      by rewrite (Hkept w' Hout), (Hothers w' Hne).
Qed.

(** X26.  Shutdown leaks no Socket.  When the workers of a Listener are
    destroyed, each once and in whatever order, from a world in which every
    Socket was made by [CreateSocket] of one of them, every destructor
    returns and afterwards no Socket exists at all: live ones were closed,
    notified their worker and were reaped, closing ones were reaped, and
    every worker is left with two empty lists. *)
Theorem shutdown_destroys_every_Socket st order fuel :
  good st ->
  (forall w, w ∈ order <-> is_Some (m_workerThreads st !! w)) ->
  (forall w nt, m_workerThreads st !! w = Some nt ->
                (length (m_sockets nt) < fuel)%nat) ->
  (2 <= fuel)%nat ->
  exists st',
    destroy_workers fuel order st = Ok tt st' /\
    heap st' = ∅ /\
    (forall w nt, m_workerThreads st' !! w = Some nt -> nt = dead_worker).
Proof.
  intros Hg Horder Hlen Hfuel.
  destruct (destroy_workers_run fuel order Hfuel st Hg) as (st' & E & Hg' & Hdead & Hkept);
    [by intros w Hw; apply Horder|done|].
  assert (Hall : forall w nt, m_workerThreads st' !! w = Some nt -> nt = dead_worker).
  { intros w nt Hw. destruct (decide (w ∈ order)) as [Hin|Hout].
    - rewrite (Hdead w Hin) in Hw. by injection Hw as <-.
    - exfalso. apply Hout, Horder. rewrite <- (Hkept w Hout). by exists nt. }
  exists st'. split; [exact E|]. split; [|exact Hall].
  apply map_empty. intros p.
  destruct (heap st' !! p) as [s|] eqn:Hs; [|done]. exfalso.
  destruct Hg' as (Ht & _ & Hn).
  destruct (Hn p s Hs) as (w & Hh & Hlt).
  destruct (lookup_lt_is_Some_2 _ _ Hlt) as [nt Hw].
  pose proof (Hall w nt Hw) as ->.
  destruct (Ht w dead_worker Hw) as [_ Hown].
  assert (Hin : p ∈ owned dead_worker) by (apply Hown; by exists s).
  by apply elem_of_nil in Hin.
Qed.

Lemma shutdown_destroys_every_Socket_witness :
  exists st',
    destroy_workers 3 [0; 1; 2; 3]%nat one_accepted = Ok tt st' /\
    heap st' = ∅ /\
    (forall w nt, m_workerThreads st' !! w = Some nt -> nt = dead_worker).
Proof.
  apply (shutdown_destroys_every_Socket one_accepted [0; 1; 2; 3]%nat 3).
  - apply reachable_good, one_accepted_reachable.
  - intros w. split.
    + intros Hw. apply lookup_lt_is_Some. simpl.
      repeat (apply elem_of_cons in Hw as [->|Hw]; [lia|]).
      by apply elem_of_nil in Hw.
    + intros Hw. apply lookup_lt_is_Some in Hw. simpl in Hw.
      destruct w as [|[|[|[|w]]]]; [| | | |lia];
        repeat ((by apply list_elem_of_here) || apply list_elem_of_further).
  - intros w nt Hw.
    destruct w as [|[|[|[|w]]]]; simpl in Hw; [| | | |done];
      injection Hw as <-; simpl; lia.
  - lia.
Defined.

(** ** Accepting in any world *)

(** X27.  Whatever the loads are (after closes as well), an accept with at
    least one worker returns: [SelectWorker] picks the first worker whose
    live list is shortest (Sockets in closing lists do not count) and
    changes nothing, and [CreateSocket] puts the new Socket at the front of
    that worker's live list; that worker's size grows by one and no other
    size changes.  The Socket is live exactly when [bufferevent_socket_new]
    gave a stream. *)
Theorem accept_goes_to_least_loaded st fd address p bev :
  m_workerThreads st <> [] ->
  exists i x nt st',
    SelectWorker st = Ok i st /\
    least_loaded (sizes st) i /\
    sizes st !! i = Some x /\
    m_workerThreads st !! i = Some nt /\
    AcceptCallback fd address p bev st = Ok tt st' /\
    m_workerThreads st' = <[i := with_live p nt]> (m_workerThreads st) /\
    sizes st' = <[i := S x]> (sizes st) /\
    is_live p st' = bool_decide (is_Some bev).
Proof.
  intros Hne. destruct (SelectWorker_least st Hne) as (i & E & Hleast).
  pose proof Hleast as (x & Hx & _).
  assert (exists nt, m_workerThreads st !! i = Some nt /\ Size nt = x) as (nt & Hw & Hsz).
  { unfold sizes in Hx. rewrite list_lookup_fmap in Hx.
    destruct (m_workerThreads st !! i) as [nt|]; [|done].
    injection Hx as <-. by exists nt. }
  exists i, x, nt. eexists.
  split; [exact E|]. split; [exact Hleast|]. split; [exact Hx|]. split; [exact Hw|].
  split.
  { unfold AcceptCallback. rewrite (bind_Ok _ _ _ _ _ E).
    apply (CreateSocket_run st i fd address p bev nt Hw). }
  simpl. split; [done|]. split.
  - unfold sizes. simpl. rewrite list_fmap_insert. by rewrite <- Hsz.
  - unfold is_live. simpl. rewrite lookup_insert_eq. by destruct bev.
Qed.

Lemma accept_goes_to_least_loaded_witness :
  exists i x nt st',
    SelectWorker one_closed = Ok i one_closed /\
    least_loaded (sizes one_closed) i /\
    sizes one_closed !! i = Some x /\
    m_workerThreads one_closed !! i = Some nt /\
    AcceptCallback 9 (peer_sockaddr LittleEndian 10 0 0 7 40009) 9%positive
      (Some 109%positive) one_closed = Ok tt st' /\
    m_workerThreads st' = <[i := with_live 9%positive nt]> (m_workerThreads one_closed) /\
    sizes st' = <[i := S x]> (sizes one_closed) /\
    is_live 9%positive st' = bool_decide (is_Some (Some 109%positive)).
Proof.
  apply (accept_goes_to_least_loaded one_closed 9
           (peer_sockaddr LittleEndian 10 0 0 7 40009) 9%positive (Some 109%positive)).
  discriminate.
Defined.
